(** * Risk fusion and graduated response: a shallow embedding

    This development embeds the risk-fusion function
    ([threat_fusion_engine.combine_risks]), the autonomous response agent
    ([autonomous_response_agent.AutonomousResponseAgent]) and the e-mail
    rate limiter of [alert_system.AlertSystem] as Rocq functions, and
    states the properties of the specification about them.

    Modelling conventions.
    - A risk score handed to the agent is a rational ([Q]): a [float]
      that is a number, taken as the real number it denotes, on which
      the boolean comparisons of the source ([>], [>=], [<]) are those
      of the rationals.  The arithmetic of the fusion function on [Q]
      is exact; what binary64 rounding and NaN change is stated on
      Module [Binary64], which repeats the scoring functions and the
      branch selection of [take_action] on IEEE 754 binary64 numbers,
      the arithmetic of Python's [float].
    - A [datetime] is an integer number of microseconds ([Z]), the
      resolution of Python's [datetime]; [timedelta(minutes=m)] is
      [m * 60_000_000] for the [m] it can represent
      ([timedelta_representable]).  The value returned by
      [datetime.now()] during a call is an argument of the embedded
      method.
    - A Python [dict] is an insertion-ordered association list with the
      dict operations [in], [d[k] = v] and [pop].
    - The boto3 client is modelled by the list of requests issued
      through it; the outcome of each request (accepted, a
      [ClientError] with its code, or another exception) is an argument
      of the embedded method.
    - [logger] and [print] calls have no effect on the agent and are
      left out; they are assumed not to raise.
    - Each [datetime.now()] of a method is an argument of its own
      where a property depends on two readings differing
      ([create_alert_at], [get_recent_alerts]). *)

From Stdlib Require Import ZArith QArith List String Bool Lia Lqa Floats.
Import ListNotations.

Local Open Scope Z_scope.

(** ** Comparisons on risk scores *)

(** Python's [x >= y], [x > y], [x < y] and [x <= y] on numbers. *)
Definition Qgeb (x y : Q) : bool := Qle_bool y x.
Definition Qgtb (x y : Q) : bool := negb (Qle_bool x y).
Definition Qltb (x y : Q) : bool := negb (Qle_bool y x).
Definition Qleb (x y : Q) : bool := Qle_bool x y.

(** ** Threat levels and actions *)

(** The four level strings ["LOW"], ["MEDIUM"], ["HIGH"], ["CRITICAL"]. *)
Inductive ThreatLevel : Set := LOW | MEDIUM | HIGH | CRITICAL.

(** The strings [take_action] returns. *)
Inductive Action : Set := LOG | ALERT | RATE_LIMIT | BLOCK | BLOCK_FAILED.

(** ** threat_fusion_engine.py *)

Definition combine_risks (network_risk user_risk : Q) : Q * ThreatLevel :=
  let final_risk := ((0.6 * network_risk) + (0.4 * user_risk))%Q in
  let level :=
    if Qgtb final_risk 0.8 then CRITICAL
    else if Qgtb final_risk 0.6 then HIGH
    else if Qgtb final_risk 0.4 then MEDIUM
    else LOW in
  (final_risk, level).

(** ** AutonomousResponseAgent.assess_threat_level *)

Definition assess_threat_level (risk_score : Q) : ThreatLevel :=
  if Qgeb risk_score 0.8 then CRITICAL
  else if Qgeb risk_score 0.6 then HIGH
  else if Qgeb risk_score 0.4 then MEDIUM
  else LOW.

(** ** Python dictionaries

    A [dict] keeps its keys in insertion order; assigning to a key that
    is present keeps its position, [pop] removes the key. *)

Definition dict (V : Type) : Type := list (string * V).

Fixpoint dict_get {V} (k : string) (d : dict V) : option V :=
  match d with
  | [] => None
  | (k', v) :: rest => if String.eqb k' k then Some v else dict_get k rest
  end.

(** [k in d] *)
Definition dict_in {V} (k : string) (d : dict V) : bool :=
  match dict_get k d with Some _ => true | None => false end.

(** [d[k] = v] *)
Fixpoint dict_set {V} (k : string) (v : V) (d : dict V) : dict V :=
  match d with
  | [] => [(k, v)]
  | (k', v') :: rest =>
      if String.eqb k' k then (k', v) :: rest
      else (k', v') :: dict_set k v rest
  end.

(** [d.pop(k)], the dictionary that remains. *)
Fixpoint dict_pop {V} (k : string) (d : dict V) : dict V :=
  match d with
  | [] => []
  | (k', v') :: rest =>
      if String.eqb k' k then rest else (k', v') :: dict_pop k rest
  end.

(** [list(d.keys())] and [len(d)] *)
Definition dict_keys {V} (d : dict V) : list string := map fst d.
Definition dict_len {V} (d : dict V) : Z := Z.of_nat (List.length d).

(** The number of entries stored under [k]. *)
Definition count_entries {V} (k : string) (d : dict V) : nat :=
  List.length (filter (fun kv => String.eqb (fst kv) k) d).

(** No key occurs twice. *)
Definition dict_wf {V} (d : dict V) : Prop := NoDup (dict_keys d).

(** ** The EC2 collaborator *)

(** The two security-group requests the agent issues; [cidr_ip] is the
    address followed by ["/32"]. *)
Inductive Ec2Request : Set :=
| authorize_security_group_ingress (group_id cidr_ip : string)
| revoke_security_group_ingress (group_id cidr_ip : string).

(** How a request ends: it returns, it raises [ClientError] with an
    error code, or it raises another exception. *)
Inductive Ec2Outcome : Set :=
| Ec2Returns
| Ec2ClientError (error_code : string)
| Ec2OtherException.

(** ** Records of the agent *)

(** [BlockedIP]; its [reason] string is a rendering of [risk_score]. *)
Record BlockedIP : Type := mkBlockedIP {
  ip_address : string;
  blocked_at : Z;
  risk_score : Q;
  blocked_security_group_id : string;
  rule_id : option string
}.

(** An element of [alert_history]; its [action] is always
    ["ALERT_SENT"]. *)
Record AlertRecord : Type := mkAlertRecord {
  alert_timestamp : Z;
  alert_ip_address : string;
  alert_risk_score : Q;
  alert_network_risk : Q;
  alert_user_risk : Q;
  alert_threat_level : ThreatLevel
}.

(** [self.stats] *)
Record Stats : Type := mkStats {
  total_blocks : Z;
  total_unblocks : Z;
  total_alerts : Z;
  total_rate_limits : Z;
  start_time : Z
}.

Record AutonomousResponseAgent : Type := mkAgent {
  security_group_id : string;
  region : string;
  block_timeout_minutes : Z;
  monitoring_interval : Z;
  ec2_client : list Ec2Request;
  blocked_ips : dict BlockedIP;
  rate_limited_ips : dict Z;
  alert_history : list AlertRecord;
  stats : Stats
}.

(** Field updates. *)
Definition with_ec2_client (v : list Ec2Request) (a : AutonomousResponseAgent) :=
  mkAgent (security_group_id a) (region a) (block_timeout_minutes a)
    (monitoring_interval a) v (blocked_ips a) (rate_limited_ips a)
    (alert_history a) (stats a).

Definition with_blocked_ips (v : dict BlockedIP) (a : AutonomousResponseAgent) :=
  mkAgent (security_group_id a) (region a) (block_timeout_minutes a)
    (monitoring_interval a) (ec2_client a) v (rate_limited_ips a)
    (alert_history a) (stats a).

Definition with_rate_limited_ips (v : dict Z) (a : AutonomousResponseAgent) :=
  mkAgent (security_group_id a) (region a) (block_timeout_minutes a)
    (monitoring_interval a) (ec2_client a) (blocked_ips a) v
    (alert_history a) (stats a).

Definition with_alert_history (v : list AlertRecord) (a : AutonomousResponseAgent) :=
  mkAgent (security_group_id a) (region a) (block_timeout_minutes a)
    (monitoring_interval a) (ec2_client a) (blocked_ips a)
    (rate_limited_ips a) v (stats a).

Definition with_stats (v : Stats) (a : AutonomousResponseAgent) :=
  mkAgent (security_group_id a) (region a) (block_timeout_minutes a)
    (monitoring_interval a) (ec2_client a) (blocked_ips a)
    (rate_limited_ips a) (alert_history a) v.

(** [self.stats[...] += 1] *)
Definition incr_total_blocks (s : Stats) : Stats :=
  mkStats (total_blocks s + 1) (total_unblocks s) (total_alerts s)
    (total_rate_limits s) (start_time s).

Definition incr_total_unblocks (s : Stats) : Stats :=
  mkStats (total_blocks s) (total_unblocks s + 1) (total_alerts s)
    (total_rate_limits s) (start_time s).

Definition incr_total_alerts (s : Stats) : Stats :=
  mkStats (total_blocks s) (total_unblocks s) (total_alerts s + 1)
    (total_rate_limits s) (start_time s).

Definition incr_total_rate_limits (s : Stats) : Stats :=
  mkStats (total_blocks s) (total_unblocks s) (total_alerts s)
    (total_rate_limits s + 1) (start_time s).

(** ** AutonomousResponseAgent.__init__

    [client_created] tells whether [boto3.client] returned; when it
    raises, the constructor re-raises and no agent exists.  No argument
    is inspected. *)
Definition __init__ (client_created : bool) (now : Z)
    (security_group_id region : string)
    (block_timeout_minutes monitoring_interval : Z)
  : option AutonomousResponseAgent :=
  if client_created then
    Some (mkAgent security_group_id region block_timeout_minutes
            monitoring_interval [] [] [] [] (mkStats 0 0 0 0 now))
  else None.

(** ** Methods of the agent *)

(** [log_threat] only writes a log line. *)
Definition log_threat (ip_address : string) (risk_score network_risk user_risk : Q)
    (a : AutonomousResponseAgent) : AutonomousResponseAgent := a.

Definition send_alert (now : Z) (ip_address : string)
    (risk_score network_risk user_risk : Q) (threat_level : ThreatLevel)
    (a : AutonomousResponseAgent) : AutonomousResponseAgent :=
  let alert :=
    mkAlertRecord now ip_address risk_score network_risk user_risk
      threat_level in
  let a := with_alert_history (alert_history a ++ [alert]) a in
  with_stats (incr_total_alerts (stats a)) a.

Definition simulate_rate_limiting (now : Z) (ip_address : string)
    (risk_score : Q) (a : AutonomousResponseAgent) : AutonomousResponseAgent :=
  let a := with_rate_limited_ips (dict_set ip_address now (rate_limited_ips a)) a in
  with_stats (incr_total_rate_limits (stats a)) a.

(** [f'{ip_address}/32'] *)
Definition cidr32 (ip_address : string) : string :=
  String.append ip_address "/32".

(** [block_ip_address]: the membership test comes before the [try];
    inside it the request is issued first, and the entry and the
    counter are written only when it returns.  Both [except] clauses
    return [False]. *)
Definition block_ip_address (now : Z) (outcome : Ec2Outcome)
    (ip_address : string) (risk_score network_risk user_risk : Q)
    (a : AutonomousResponseAgent) : AutonomousResponseAgent * bool :=
  if dict_in ip_address (blocked_ips a) then (a, false)
  else
    let a :=
      with_ec2_client
        (ec2_client a ++
           [authorize_security_group_ingress (security_group_id a)
              (cidr32 ip_address)]) a in
    match outcome with
    | Ec2Returns =>
        let blocked_ip :=
          mkBlockedIP ip_address now risk_score (security_group_id a) None in
        let a := with_blocked_ips (dict_set ip_address blocked_ip (blocked_ips a)) a in
        let a := with_stats (incr_total_blocks (stats a)) a in
        (a, true)
    | Ec2ClientError error_code =>
        if String.eqb error_code "InvalidPermission.Duplicate"
        then (a, false)
        else (a, false)
    | Ec2OtherException => (a, false)
    end.

(** [unblock_ip_address]: the request is issued first; the entry is
    popped and the counter written only when it returns. *)
Definition unblock_ip_address (outcome : Ec2Outcome) (ip_address : string)
    (a : AutonomousResponseAgent) : AutonomousResponseAgent * bool :=
  if negb (dict_in ip_address (blocked_ips a)) then (a, false)
  else
    let a :=
      with_ec2_client
        (ec2_client a ++
           [revoke_security_group_ingress (security_group_id a)
              (cidr32 ip_address)]) a in
    match outcome with
    | Ec2Returns =>
        let a := with_blocked_ips (dict_pop ip_address (blocked_ips a)) a in
        let a := with_stats (incr_total_unblocks (stats a)) a in
        (a, true)
    | Ec2ClientError _ => (a, false)
    | Ec2OtherException => (a, false)
    end.

(** [timedelta(minutes=m)] in microseconds, for a representable
    [m]. *)
Definition timedelta_minutes (m : Z) : Z := m * 60000000.

(** The [m] for which [timedelta(minutes=m)] exists: a [timedelta]
    holds between -999999999 and 999999999 days, and the constructor
    raises [OverflowError] beyond. *)
Definition timedelta_representable (m : Z) : Prop :=
  -999999999 * 1440 <= m <= 999999999 * 1440 + 1439.

(** [time_blocked > timedelta(minutes=self.block_timeout_minutes)] *)
Definition block_expired (current_time : Z) (a : AutonomousResponseAgent)
    (blocked_info : BlockedIP) : bool :=
  let time_blocked := current_time - blocked_at blocked_info in
  time_blocked >? timedelta_minutes (block_timeout_minutes a).

(** [check_and_unblock_expired]: the expired addresses are collected
    first, in the order of the registry, then unblocked one by one;
    [revoke ip] is the outcome of the revoke request for [ip].  The
    [timedelta] is built once for every entry looked at, so the method
    returns when [sweep_returns] holds; otherwise the
    [OverflowError] of the first entry leaves it, nothing unblocked. *)
Definition check_and_unblock_expired (now : Z) (revoke : string -> Ec2Outcome)
    (a : AutonomousResponseAgent) : AutonomousResponseAgent :=
  let current_time := now in
  let expired_ips :=
    map fst
      (filter (fun item => block_expired current_time a (snd item))
         (blocked_ips a)) in
  fold_left
    (fun a ip_address => fst (unblock_ip_address (revoke ip_address) ip_address a))
    expired_ips a.

(** The sweep builds no unrepresentable [timedelta]: the registry is
    empty or the block timeout is representable. *)
Definition sweep_returns (a : AutonomousResponseAgent) : Prop :=
  blocked_ips a = [] \/ timedelta_representable (block_timeout_minutes a).

Definition take_action (now : Z) (outcome : Ec2Outcome) (ip_address : string)
    (risk_score network_risk user_risk : Q) (a : AutonomousResponseAgent)
  : AutonomousResponseAgent * Action :=
  let threat_level := assess_threat_level risk_score in
  if Qltb risk_score 0.4 then
    (log_threat ip_address risk_score network_risk user_risk a, LOG)
  else if Qleb 0.4 risk_score && Qltb risk_score 0.6 then
    (send_alert now ip_address risk_score network_risk user_risk threat_level a,
     ALERT)
  else if Qleb 0.6 risk_score && Qltb risk_score 0.8 then
    let a := simulate_rate_limiting now ip_address risk_score a in
    (send_alert now ip_address risk_score network_risk user_risk threat_level a,
     RATE_LIMIT)
  else
    let (a, success) :=
      block_ip_address now outcome ip_address risk_score network_risk user_risk a in
    if success then
      (send_alert now ip_address risk_score network_risk user_risk threat_level a,
       BLOCK)
    else (a, BLOCK_FAILED).

(** The dictionary [get_statistics] returns. *)
Record Statistics : Type := mkStatistics {
  stat_uptime_seconds : Q;
  stat_total_blocks : Z;
  stat_total_unblocks : Z;
  stat_total_alerts : Z;
  stat_total_rate_limits : Z;
  stat_currently_blocked : Z;
  stat_blocked_ips : list string
}.

Definition get_statistics (now : Z) (a : AutonomousResponseAgent) : Statistics :=
  let uptime := now - start_time (stats a) in
  mkStatistics (uptime # 1000000)
    (total_blocks (stats a)) (total_unblocks (stats a))
    (total_alerts (stats a)) (total_rate_limits (stats a))
    (dict_len (blocked_ips a)) (dict_keys (blocked_ips a)).

(** ** The monitoring cycle *)

(** Exceptions the cycle can meet: a missing key in a result
    dictionary, and a failure raised by a collaborator's [detect()]. *)
Inductive PyException : Set :=
| KeyError (key : string)
| DetectFailed.

(** A computation that returns a value or raises. *)
Definition Result (A : Type) : Type := (PyException + A)%type.

Definition raise {A} (e : PyException) : Result A := inl e.
Definition ret {A} (v : A) : Result A := inr v.
Definition bind {A B} (c : Result A) (k : A -> Result B) : Result B :=
  match c with
  | inl e => inl e
  | inr v => k v
  end.

Notation "x <- c ;; k" := (bind c (fun x => k))
  (at level 61, c at next level, right associativity).

(** [d[key]] on a result dictionary: a field that is absent raises
    [KeyError]. *)
Definition getitem {A} (key : string) (field : option A) : Result A :=
  match field with
  | Some v => ret v
  | None => raise (KeyError key)
  end.

(** An element of [ids_engine.detect()]: a dictionary expected to hold
    ["ip"] and ["network_risk"]. *)
Record NetworkResult : Type := mkNetworkResult {
  net_ip : option string;
  net_network_risk : option Q
}.

(** An element of [ueba_engine.detect()]: a dictionary expected to hold
    ["ip"] and ["user_risk"]. *)
Record UserResult : Type := mkUserResult {
  user_ip : option string;
  user_user_risk : option Q
}.

(** [next((u for u in user_results if u["ip"] == ip), None)] *)
Fixpoint next_matching_user (ip : string) (user_results : list UserResult)
  : Result (option UserResult) :=
  match user_results with
  | [] => ret None
  | u :: rest =>
      u_ip <- getitem "ip" (user_ip u) ;;
      if String.eqb u_ip ip then ret (Some u)
      else next_matching_user ip rest
  end.

(** [matched_user["user_risk"] if matched_user else 0.1] *)
Definition user_risk_of (matched_user : option UserResult) : Result Q :=
  match matched_user with
  | Some u => getitem "user_risk" (user_user_risk u)
  | None => ret 0.1%Q
  end.

(** What the environment answers during one [take_action]. *)
Record CallEnv : Set := mkCallEnv {
  call_now : Z;
  call_outcome : Ec2Outcome
}.

(** The body of the [for net in network_results] loop; it returns the
    agent, the address and the action it logs. *)
Definition cycle_body (fusion_function : Q -> Q -> Q * ThreatLevel)
    (env : CallEnv) (user_results : list UserResult) (net : NetworkResult)
    (a : AutonomousResponseAgent)
  : Result (AutonomousResponseAgent * (string * Action)) :=
  ip <- getitem "ip" (net_ip net) ;;
  network_risk <- getitem "network_risk" (net_network_risk net) ;;
  matched_user <- next_matching_user ip user_results ;;
  user_risk <- user_risk_of matched_user ;;
  let (final_risk, threat_level) := fusion_function network_risk user_risk in
  let (a, action) :=
    take_action (call_now env) (call_outcome env) ip final_risk
      network_risk user_risk a in
  ret (a, (ip, action)).

(** The loop from its [i]-th iteration on.  It stops at the first
    exception and hands it to the enclosing [try]; what earlier
    iterations wrote stays written. *)
Fixpoint cycle_loop (fusion_function : Q -> Q -> Q * ThreatLevel)
    (env : nat -> CallEnv) (i : nat) (user_results : list UserResult)
    (network_results : list NetworkResult) (a : AutonomousResponseAgent)
  : AutonomousResponseAgent * list (string * Action) * option PyException :=
  match network_results with
  | [] => (a, [], None)
  | net :: rest =>
      match cycle_body fusion_function (env i) user_results net a with
      | inl e => (a, [], Some e)
      | inr (a, done) =>
          let '(a, dones, e) :=
            cycle_loop fusion_function env (S i) user_results rest a in
          (a, done :: dones, e)
      end
  end.

(** What the environment answers during one cycle: per loop iteration,
    and for the expiry sweep. *)
Record CycleEnv : Type := mkCycleEnv {
  entry_env : nat -> CallEnv;
  sweep_now : Z;
  sweep_revoke : string -> Ec2Outcome
}.

(** [run_monitoring_cycle]: one [try] around the two [detect()] calls,
    the loop and the sweep; the [except] clause logs the exception and
    returns.  The result is the agent, the actions logged, and the
    exception logged by the [except] clause if there was one. *)
Definition run_monitoring_cycle (env : CycleEnv)
    (ids_detect : Result (list NetworkResult))
    (ueba_detect : Result (list UserResult))
    (fusion_function : Q -> Q -> Q * ThreatLevel)
    (a : AutonomousResponseAgent)
  : AutonomousResponseAgent * list (string * Action) * option PyException :=
  match ids_detect with
  | inl e => (a, [], Some e)
  | inr network_results =>
      match ueba_detect with
      | inl e => (a, [], Some e)
      | inr user_results =>
          match cycle_loop fusion_function (entry_env env) 0%nat user_results
                  network_results a with
          | (a, dones, Some e) => (a, dones, Some e)
          | (a, dones, None) =>
              (check_and_unblock_expired (sweep_now env) (sweep_revoke env) a,
               dones, None)
          end
      end
  end.

(** ** Operations on an agent, and the states they reach *)

Inductive Op : Type :=
| op_log_threat (ip : string) (risk network_risk user_risk : Q)
| op_send_alert (now : Z) (ip : string) (risk network_risk user_risk : Q)
    (threat_level : ThreatLevel)
| op_simulate_rate_limiting (now : Z) (ip : string) (risk : Q)
| op_block_ip_address (now : Z) (outcome : Ec2Outcome) (ip : string)
    (risk network_risk user_risk : Q)
| op_unblock_ip_address (outcome : Ec2Outcome) (ip : string)
| op_check_and_unblock_expired (now : Z) (revoke : string -> Ec2Outcome)
| op_take_action (now : Z) (outcome : Ec2Outcome) (ip : string)
    (risk network_risk user_risk : Q)
| op_run_monitoring_cycle (env : CycleEnv)
    (ids_detect : Result (list NetworkResult))
    (ueba_detect : Result (list UserResult))
    (fusion_function : Q -> Q -> Q * ThreatLevel).

Definition run_op (op : Op) (a : AutonomousResponseAgent)
  : AutonomousResponseAgent :=
  match op with
  | op_log_threat ip r n u => log_threat ip r n u a
  | op_send_alert now ip r n u l => send_alert now ip r n u l a
  | op_simulate_rate_limiting now ip r => simulate_rate_limiting now ip r a
  | op_block_ip_address now o ip r n u => fst (block_ip_address now o ip r n u a)
  | op_unblock_ip_address o ip => fst (unblock_ip_address o ip a)
  | op_check_and_unblock_expired now revoke =>
      check_and_unblock_expired now revoke a
  | op_take_action now o ip r n u => fst (take_action now o ip r n u a)
  | op_run_monitoring_cycle env ids ueba f =>
      fst (fst (run_monitoring_cycle env ids ueba f a))
  end.

(** The states of an agent: freshly constructed, or one operation
    later. *)
Inductive reachable : AutonomousResponseAgent -> Prop :=
| reachable_init now sg rg bt mi a :
    __init__ true now sg rg bt mi = Some a -> reachable a
| reachable_step op a :
    reachable a -> reachable (run_op op a).

(** ** alert_system.py *)

Module AlertSystem.

(** [Alert]; its [message] is determined by [threat_level]. *)
Record Alert : Type := mkAlert {
  timestamp : Z;
  threat_level : ThreatLevel;
  final_risk : Q;
  network_risk : Q;
  user_risk : Q;
  network_bytes : Q;
  network_packets : Q;
  ip_address : string
}.

(** The entries of [self.config] the alert path reads:
    [config["email"]["enabled"]],
    [config["thresholds"]["email_threshold"]] and
    [config["rate_limiting"]["max_emails_per_hour"]]. *)
Record Config : Type := mkConfig {
  email_enabled : bool;
  email_threshold : Q;
  max_emails_per_hour : Z
}.

Definition default_config : Config := mkConfig true 0.6%Q 10.

(** The alert system: its configuration, its history, and the alerts
    whose e-mail was handed to the SMTP server. *)
Record t : Type := mkAlertSystem {
  config : Config;
  alert_history : list Alert;
  emails_sent : list Alert
}.

(** [now.replace(minute=0, second=0, microsecond=0)] *)
Definition hour_start (now : Z) : Z := now - now mod 3600000000.

(** The list [recent_emails] of [check_rate_limit]: the alerts of the
    history stamped in the current clock hour whose risk reaches the
    e-mail threshold. *)
Definition recent_emails (now : Z) (s : t) : list Alert :=
  let hour_ago := hour_start now in
  filter
    (fun a =>
       (timestamp a >=? hour_ago) &&
       Qgeb (final_risk a) (email_threshold (config s)))
    (alert_history s).

Definition check_rate_limit (now : Z) (s : t) : bool :=
  Z.of_nat (List.length (recent_emails now s)) <? max_emails_per_hour (config s).

(** [send_email_alert]: [smtp_delivers] tells whether the SMTP calls
    return; when one raises, the [except] clause logs it. *)
Definition send_email_alert (now : Z) (smtp_delivers : bool) (alert : Alert)
    (s : t) : t :=
  if negb (check_rate_limit now s) then s
  else if smtp_delivers then
    mkAlertSystem (config s) (alert_history s) (emails_sent s ++ [alert])
  else s.

Definition process_alert (now : Z) (smtp_delivers : bool) (alert : Alert)
    (s : t) : t :=
  if Qgeb (final_risk alert) (email_threshold (config s)) &&
     email_enabled (config s)
  then send_email_alert now smtp_delivers alert s
  else s.

Definition create_alert (now : Z) (smtp_delivers : bool)
    (threat_level : ThreatLevel) (final_risk network_risk user_risk : Q)
    (network_bytes network_packets : Q) (s : t) : t * Alert :=
  let alert :=
    mkAlert now threat_level final_risk network_risk user_risk
      network_bytes network_packets "EC2_INSTANCE" in
  let s := mkAlertSystem (config s) (alert_history s ++ [alert]) (emails_sent s) in
  (process_alert now smtp_delivers alert s, alert).

(** [create_alert] with its two readings of the clock told apart: [now]
    stamps the alert, and [check_now], read later by
    [check_rate_limit] after the log line and the console notification,
    decides which alerts are of the current hour.  [create_alert] above
    is the case of both readings giving the same time. *)
Definition create_alert_at (now check_now : Z) (smtp_delivers : bool)
    (threat_level : ThreatLevel) (final_risk network_risk user_risk : Q)
    (network_bytes network_packets : Q) (s : t) : t * Alert :=
  let alert :=
    mkAlert now threat_level final_risk network_risk user_risk
      network_bytes network_packets "EC2_INSTANCE" in
  let s := mkAlertSystem (config s) (alert_history s ++ [alert]) (emails_sent s) in
  (process_alert check_now smtp_delivers alert s, alert).

End AlertSystem.

(** ** The scoring functions in binary64 arithmetic *)

#[local] Set Warnings "-inexact-float".

Module Binary64.

Definition combine_risks (network_risk user_risk : float) : float * ThreatLevel :=
  let final_risk := ((0.6 * network_risk) + (0.4 * user_risk))%float in
  let level :=
    if (0.8 <? final_risk)%float then CRITICAL
    else if (0.6 <? final_risk)%float then HIGH
    else if (0.4 <? final_risk)%float then MEDIUM
    else LOW in
  (final_risk, level).

Definition assess_threat_level (risk_score : float) : ThreatLevel :=
  if (0.8 <=? risk_score)%float then CRITICAL
  else if (0.6 <=? risk_score)%float then HIGH
  else if (0.4 <=? risk_score)%float then MEDIUM
  else LOW.

(** The branch the [if]/[elif] chain of [take_action] selects, named by
    the level its comment gives it. *)
Definition take_action_branch (risk_score : float) : ThreatLevel :=
  if (risk_score <? 0.4)%float then LOW
  else if (0.4 <=? risk_score)%float && (risk_score <? 0.6)%float then MEDIUM
  else if (0.6 <=? risk_score)%float && (risk_score <? 0.8)%float then HIGH
  else CRITICAL.

End Binary64.

(** ** Invariants of the block registry *)

(** At most one entry per address. *)
Definition registry_wf (a : AutonomousResponseAgent) : Prop :=
  dict_wf (blocked_ips a).

(** The registry has as many entries as blocks minus unblocks. *)
Definition counters_consistent (a : AutonomousResponseAgent) : Prop :=
  dict_len (blocked_ips a) = total_blocks (stats a) - total_unblocks (stats a).

(** What one primitive method can do to the registry and its two
    counters: nothing, add an entry for an address that has none, or
    pop the entry of an address that has one. *)
Inductive registry_step (a a' : AutonomousResponseAgent) : Prop :=
| registry_kept :
    blocked_ips a' = blocked_ips a ->
    total_blocks (stats a') = total_blocks (stats a) ->
    total_unblocks (stats a') = total_unblocks (stats a) ->
    registry_step a a'
| registry_added ip b :
    dict_in ip (blocked_ips a) = false ->
    blocked_ips a' = dict_set ip b (blocked_ips a) ->
    total_blocks (stats a') = total_blocks (stats a) + 1 ->
    total_unblocks (stats a') = total_unblocks (stats a) ->
    registry_step a a'
| registry_popped ip :
    dict_in ip (blocked_ips a) = true ->
    blocked_ips a' = dict_pop ip (blocked_ips a) ->
    total_blocks (stats a') = total_blocks (stats a) ->
    total_unblocks (stats a') = total_unblocks (stats a) + 1 ->
    registry_step a a'.

(** ** Auxiliary definitions of the statements *)

(** Whether a request returned. *)
Definition outcome_returns (o : Ec2Outcome) : bool :=
  match o with
  | Ec2Returns => true
  | _ => false
  end.

(** The entries an expiry sweep leaves in the registry: those not yet
    expired, and the expired ones whose revoke request raised. *)
Definition sweep_keeps (now : Z) (revoke : string -> Ec2Outcome)
    (a : AutonomousResponseAgent) (item : string * BlockedIP) : bool :=
  negb (block_expired now a (snd item) && outcome_returns (revoke (fst item))).

(** The signals the loop body reads for one network result, before it
    calls the fusion function: address, network risk and user risk. *)
Definition entry_signals (user_results : list UserResult) (net : NetworkResult)
  : Result (string * Q * Q) :=
  ip <- getitem "ip" (net_ip net) ;;
  network_risk <- getitem "network_risk" (net_network_risk net) ;;
  matched_user <- next_matching_user ip user_results ;;
  user_risk <- user_risk_of matched_user ;;
  ret (ip, network_risk, user_risk).

(** [1] when [take_action] rate-limits at this score, else [0]. *)
Definition rate_limited_at (risk_score : Q) : Z :=
  match assess_threat_level risk_score with
  | HIGH => 1
  | _ => 0
  end.

(** What one unblock of the sweep does to the registry. *)
Definition pop_revoked (revoke : string -> Ec2Outcome) (d : dict BlockedIP)
    (ip : string) : dict BlockedIP :=
  if outcome_returns (revoke ip) then dict_pop ip d else d.

(** The addresses a sweep at [now] finds expired, in registry order. *)
Definition expired_ips (now : Z) (a : AutonomousResponseAgent) : list string :=
  map fst (filter (fun item => block_expired now a (snd item)) (blocked_ips a)).

(** ** Example inputs *)

(** A freshly constructed agent with the default timeout and interval,
    as the test suite builds it. *)
Definition example_agent : AutonomousResponseAgent :=
  mkAgent "sg-test-only" "ap-south-1" 10 60 [] [] [] [] (mkStats 0 0 0 0 0).

(** The address the test suite uses for its critical threat. *)
Definition example_ip : string := "203.0.113.42".

(** The example agent after a successful block of [example_ip] at
    time [0]. *)
Definition example_blocked : AutonomousResponseAgent :=
  fst (take_action 0 Ec2Returns example_ip 0.92 0.95 0.85 example_agent).

(** One second, in microseconds. *)
Definition seconds (n : Z) : Z := n * 1000000.

(** ** Further invariants of the agent *)

(** The two kinds of request. *)
Definition is_authorize (req : Ec2Request) : bool :=
  match req with
  | authorize_security_group_ingress _ _ => true
  | revoke_security_group_ingress _ _ => false
  end.

Definition is_revoke (req : Ec2Request) : bool :=
  match req with
  | authorize_security_group_ingress _ _ => false
  | revoke_security_group_ingress _ _ => true
  end.

(** A request on the agent's own security group for one address. *)
Definition request_of_agent (a : AutonomousResponseAgent) (req : Ec2Request)
  : Prop :=
  exists ip,
    req = authorize_security_group_ingress (security_group_id a) (cidr32 ip) \/
    req = revoke_security_group_ingress (security_group_id a) (cidr32 ip).

(** Every request sent is one of the agent's, and no block or unblock
    is counted without its request. *)
Definition requests_consistent (a : AutonomousResponseAgent) : Prop :=
  Forall (request_of_agent a) (ec2_client a) /\
  total_blocks (stats a) <=
    Z.of_nat (List.length (filter is_authorize (ec2_client a))) /\
  total_unblocks (stats a) <=
    Z.of_nat (List.length (filter is_revoke (ec2_client a))).

(** A registry entry is stored under its own address, names the
    agent's security group and has no rule id. *)
Definition entry_well_formed (a : AutonomousResponseAgent)
    (item : string * BlockedIP) : Prop :=
  ip_address (snd item) = fst item /\
  blocked_security_group_id (snd item) = security_group_id a /\
  rule_id (snd item) = None.

Definition entries_well_formed (a : AutonomousResponseAgent) : Prop :=
  Forall (entry_well_formed a) (blocked_ips a).

(** The alert counter is the length of the alert history. *)
Definition alerts_counted (a : AutonomousResponseAgent) : Prop :=
  Z.of_nat (List.length (alert_history a)) = total_alerts (stats a).

(** The rate-limit table has no more addresses than rate limits were
    counted, and no address twice. *)
Definition rate_limits_counted (a : AutonomousResponseAgent) : Prop :=
  dict_wf (rate_limited_ips a) /\
  dict_len (rate_limited_ips a) <= total_rate_limits (stats a).

(** [a'] continues [a]: the configuration and the start time are the
    same, no counter is smaller, the alert history and the request log
    of [a] are prefixes of those of [a'], and every address in the
    rate-limit table of [a] is still in that of [a']. *)
Definition continues (a a' : AutonomousResponseAgent) : Prop :=
  security_group_id a' = security_group_id a /\
  region a' = region a /\
  block_timeout_minutes a' = block_timeout_minutes a /\
  monitoring_interval a' = monitoring_interval a /\
  start_time (stats a') = start_time (stats a) /\
  total_blocks (stats a) <= total_blocks (stats a') /\
  total_unblocks (stats a) <= total_unblocks (stats a') /\
  total_alerts (stats a) <= total_alerts (stats a') /\
  total_rate_limits (stats a) <= total_rate_limits (stats a') /\
  (exists alerts, alert_history a' = alert_history a ++ alerts) /\
  (exists requests, ec2_client a' = ec2_client a ++ requests) /\
  (forall ip, dict_in ip (rate_limited_ips a) = true ->
              dict_in ip (rate_limited_ips a') = true).

(** The rank of a level in the order LOW < MEDIUM < HIGH < CRITICAL. *)
Definition level_rank (l : ThreatLevel) : Z :=
  match l with
  | LOW => 0
  | MEDIUM => 1
  | HIGH => 2
  | CRITICAL => 3
  end.

(** ** AutonomousResponseAgent.start

    The loop of [start] runs a monitoring cycle, displays the statistics
    at every tenth cycle and sleeps for [monitoring_interval] seconds;
    [time.sleep] raises [ValueError] for a negative length and
    [OverflowError] for one that does not fit its 64-bit count of
    nanoseconds, which the [except Exception] clause of [start] logs
    before it displays the statistics and returns.  The loop itself
    never ends otherwise: [fuel] bounds the number of cycles observed.
    [KeyboardInterrupt], which can arrive at any point, is left out.
    The interval is a number of whole seconds. *)

(** The lengths [time.sleep] accepts: from zero to the whole seconds
    of [2^63 - 1] nanoseconds. *)
Definition sleep_accepts (seconds : Z) : bool :=
  (0 <=? seconds) && (seconds <=? 9223372036).

(** What one turn of the loop meets: the environment of its cycle, the
    outcomes of the two [detect()] calls, and the clock when the
    statistics are displayed. *)
Record TurnEnv : Type := mkTurnEnv {
  turn_cycle : CycleEnv;
  turn_ids : Result (list NetworkResult);
  turn_ueba : Result (list UserResult);
  turn_display_now : Z
}.

(** How the observed part of the loop ends: still running, or left
    through the exception of [time.sleep]. *)
Inductive LoopEnd : Set := loop_running | loop_sleep_raised.

(** The [while True] loop from [cycle_count] on; it returns the agent,
    the statistics displayed, and how it ended. *)
Fixpoint start_loop (fuel : nat) (turns : Z -> TurnEnv)
    (fusion_function : Q -> Q -> Q * ThreatLevel) (cycle_count : Z)
    (a : AutonomousResponseAgent)
  : AutonomousResponseAgent * list Statistics * LoopEnd :=
  match fuel with
  | O => (a, [], loop_running)
  | S fuel =>
      let cycle_count := cycle_count + 1 in
      let turn := turns cycle_count in
      let a :=
        fst (fst (run_monitoring_cycle (turn_cycle turn) (turn_ids turn)
                    (turn_ueba turn) fusion_function a)) in
      let shown :=
        if cycle_count mod 10 =? 0
        then [get_statistics (turn_display_now turn) a] else [] in
      if negb (sleep_accepts (monitoring_interval a))
      then (a, shown, loop_sleep_raised)
      else
        let '(a, shown', e) := start_loop fuel turns fusion_function cycle_count a in
        (a, shown ++ shown', e)
  end.

Definition start (fuel : nat) (turns : Z -> TurnEnv) (final_now : Z)
    (fusion_function : Q -> Q -> Q * ThreatLevel) (a : AutonomousResponseAgent)
  : AutonomousResponseAgent * list Statistics * LoopEnd :=
  let '(a, shown, e) := start_loop fuel turns fusion_function 0 a in
  match e with
  | loop_running => (a, shown, e)
  | loop_sleep_raised => (a, shown ++ [get_statistics final_now a], e)
  end.

(** ** ids_engine.py *)

(** A CloudWatch datapoint: its ['Timestamp'] and its ['Sum']. *)
Record Datapoint : Type := mkDatapoint {
  dp_timestamp : Z;
  dp_sum : Q
}.

(** [sorted(datapoints, key=lambda x: x['Timestamp'])]: a stable sort,
    here by insertion in front of the first datapoint that is not
    earlier. *)
Fixpoint insert_datapoint (x : Datapoint) (l : list Datapoint)
  : list Datapoint :=
  match l with
  | [] => [x]
  | y :: rest =>
      if dp_timestamp x <=? dp_timestamp y then x :: y :: rest
      else y :: insert_datapoint x rest
  end.

Definition sorted_by_timestamp (datapoints : list Datapoint) : list Datapoint :=
  fold_right insert_datapoint [] datapoints.

(** [get_metric], after the CloudWatch call returned [response];
    [None] is a response without ['Datapoints']. *)
Definition get_metric (response : option (list Datapoint)) : Q :=
  let datapoints := match response with Some l => l | None => [] end in
  match datapoints with
  | [] => 0%Q
  | first :: _ =>
      let latest := List.last (sorted_by_timestamp datapoints) first in
      dp_sum latest
  end.

(** The spike logic of [detect]. *)
Definition detect_risk (network_in packets_in : Q) : Q :=
  if Qgtb network_in 8000000 || Qgtb packets_in 15000 then 0.95%Q
  else if Qgtb network_in 4000000 || Qgtb packets_in 8000 then 0.85%Q
  else if Qgtb network_in 1500000 || Qgtb packets_in 3000 then 0.60%Q
  else 0.05%Q.

(** [IDSEngine.detect]: each CloudWatch call returns a response or
    raises. *)
Definition ids_detect
    (network_in_call packets_in_call : Result (option (list Datapoint)))
  : Result (list NetworkResult) :=
  network_in <- network_in_call ;;
  packets_in <- packets_in_call ;;
  let risk := detect_risk (get_metric network_in) (get_metric packets_in) in
  ret [mkNetworkResult (Some "EC2_INSTANCE"%string) (Some risk)].

(** ** ueba_engine.py *)

(** The smaller and the larger of two scores. *)
Definition score_min (x y : Q) : Q := if Qle_bool x y then x else y.
Definition score_max (x y : Q) : Q := if Qle_bool x y then y else x.

(** The [user_risk] column [engineer_features] computes from the
    [anomaly_score] column: the scores are scaled to [0, 1] between
    their minimum and their maximum and reversed; when all scores are
    equal the column is 0.1. *)
Definition user_risks (anomaly_score : list Q) : list Q :=
  match anomaly_score with
  | [] => []
  | first :: rest =>
      let min_score := fold_left score_min rest first in
      let max_score := fold_left score_max rest first in
      if Qeq_bool (max_score - min_score) 0 then
        map (fun _ => 0.1%Q) anomaly_score
      else
        map (fun score =>
               (1 - ((score - min_score) / (max_score - min_score)))%Q)
          anomaly_score
  end.

(** A row of the log frame, as far as [detect] reads it: ["ip"] and
    ["user"]. *)
Record LogRow : Type := mkLogRow {
  row_ip : string;
  row_user : string
}.

(** [UEBAEngine.detect] after the logs were fetched: [rows] is the
    frame and [anomaly_score] what the model's [decision_function]
    returned for it, one score per row.  An empty frame gives no
    result.  The ["user"] entry of a result is not read by any caller
    and is left out. *)
Definition ueba_detect (rows : list LogRow) (anomaly_score : list Q)
  : list UserResult :=
  match rows with
  | [] => []
  | _ :: _ =>
      map (fun row_risk =>
             mkUserResult (Some (row_ip (fst row_risk))) (Some (snd row_risk)))
        (combine rows (user_risks anomaly_score))
  end.

(** ** enhanced_main_with_agent.py and enhanced_main.py

    [EnhancedThreatDetectionSystemWithAgent]; with
    [enable_autonomous_response] false it has no agent and its cycle is
    that of [EnhancedThreatDetectionSystem] in enhanced_main.py. *)

Module EnhancedSystem.

(** [self.stats], without its ["start_time"]. *)
Record SystemStats : Type := mkSystemStats {
  total_cycles : Z;
  threats_detected : Z;
  autonomous_actions : Z
}.

Record t : Type := mkSystem {
  alert_system : AlertSystem.t;
  enable_autonomous_response : bool;
  response_agent : option AutonomousResponseAgent;
  stats : SystemStats
}.

(** The constructor, after the two engines were built: [config] is the
    configuration the alert system loaded; the agent is constructed
    with region ["ap-south-1"], a block timeout of 10 minutes and an
    interval of 60 seconds when autonomous response is enabled, and its
    failure is the constructor's. *)
Definition __init__ (config : AlertSystem.Config) (client_created : bool)
    (now : Z) (security_group_id : string) (enable_autonomous_response : bool)
  : option t :=
  let alert_system := AlertSystem.mkAlertSystem config [] [] in
  if enable_autonomous_response then
    match __init__ client_created now security_group_id "ap-south-1" 10 60 with
    | Some agent =>
        Some (mkSystem alert_system true (Some agent) (mkSystemStats 0 0 0))
    | None => None
    end
  else Some (mkSystem alert_system false None (mkSystemStats 0 0 0)).

(** What the environment answers while one network result is handled:
    the two CloudWatch calls of [get_metric], the clock and the SMTP
    server of [create_alert], the clock and the firewall of
    [take_action], and those of the expiry sweep. *)
Record EntryEnv : Type := mkEntryEnv {
  network_in_call : Result (option (list Datapoint));
  packets_in_call : Result (option (list Datapoint));
  alert_now : Z;
  smtp_delivers : bool;
  action_env : CallEnv;
  expiry_now : Z;
  expiry_revoke : string -> Ec2Outcome
}.

(** [action in ["ALERT", "RATE_LIMIT", "BLOCK"]] *)
Definition counted_action (action : Action) : bool :=
  match action with
  | ALERT | RATE_LIMIT | BLOCK => true
  | _ => false
  end.

(** The body of the [for net in network_results] loop. *)
Definition cycle_body (env : EntryEnv) (user_results : list UserResult)
    (net : NetworkResult) (s : t) : Result t :=
  ip <- getitem "ip" (net_ip net) ;;
  network_risk <- getitem "network_risk" (net_network_risk net) ;;
  matched_user <- next_matching_user ip user_results ;;
  user_risk <- user_risk_of matched_user ;;
  let '(final_risk, level) := combine_risks network_risk user_risk in
  network_in <- network_in_call env ;;
  let network_bytes := get_metric network_in in
  packets_in <- packets_in_call env ;;
  let network_packets := get_metric packets_in in
  let s :=
    if Qgtb final_risk 0.3 then
      let alert_system :=
        fst (AlertSystem.create_alert (alert_now env) (smtp_delivers env)
               level final_risk network_risk user_risk
               network_bytes network_packets (alert_system s)) in
      mkSystem alert_system (enable_autonomous_response s) (response_agent s)
        (mkSystemStats (total_cycles (stats s))
           (threats_detected (stats s) + 1)
           (autonomous_actions (stats s)))
    else s in
  let s :=
    match enable_autonomous_response s, response_agent s with
    | true, Some agent =>
        let (agent, action) :=
          take_action (call_now (action_env env))
            (call_outcome (action_env env)) ip final_risk network_risk
            user_risk agent in
        let actions :=
          if counted_action action then autonomous_actions (stats s) + 1
          else autonomous_actions (stats s) in
        let agent :=
          check_and_unblock_expired (expiry_now env) (expiry_revoke env) agent in
        mkSystem (alert_system s) (enable_autonomous_response s) (Some agent)
          (mkSystemStats (total_cycles (stats s)) (threats_detected (stats s))
             actions)
    | _, _ => s
    end in
  ret s.

(** The [for] loop: an exception ends it and is handed to the enclosing
    [try]; what earlier iterations wrote stays written. *)
Fixpoint cycle_loop (env : nat -> EntryEnv) (i : nat)
    (user_results : list UserResult) (network_results : list NetworkResult)
    (s : t) : t * option PyException :=
  match network_results with
  | [] => (s, None)
  | net :: rest =>
      match cycle_body (env i) user_results net s with
      | inl e => (s, Some e)
      | inr s => cycle_loop env (S i) user_results rest s
      end
  end.

(** [run_detection_cycle]: one [try] around the two [detect()] calls,
    the loop and the cycle counter.  The result is the system, whether
    the statistics were shown, and the exception the [except] clause
    printed if there was one. *)
Definition run_detection_cycle (env : nat -> EntryEnv)
    (ids_detect : Result (list NetworkResult))
    (ueba_detect : Result (list UserResult)) (s : t)
  : t * bool * option PyException :=
  match ids_detect with
  | inl e => (s, false, Some e)
  | inr network_results =>
      match ueba_detect with
      | inl e => (s, false, Some e)
      | inr user_results =>
          match cycle_loop env 0%nat user_results network_results s with
          | (s, Some e) => (s, false, Some e)
          | (s, None) =>
              let s :=
                mkSystem (alert_system s) (enable_autonomous_response s)
                  (response_agent s)
                  (mkSystemStats (total_cycles (stats s) + 1)
                     (threats_detected (stats s))
                     (autonomous_actions (stats s))) in
              (s, total_cycles (stats s) mod 10 =? 0, None)
          end
      end
  end.

(** The systems a constructed system becomes by running cycles. *)
Inductive reachable : t -> Prop :=
| reachable_init config now security_group_id enable s :
    __init__ config true now security_group_id enable = Some s ->
    reachable s
| reachable_cycle env ids_detect ueba_detect s :
    reachable s ->
    reachable (fst (fst (run_detection_cycle env ids_detect ueba_detect s))).

End EnhancedSystem.

(** The counters of the detection system: [threats_detected] is the
    length of the alert system's history; with autonomous response
    enabled the system holds an agent in one of the agent's reachable
    states and [autonomous_actions] is the agent's [total_alerts];
    without it there is no agent and [autonomous_actions] is zero. *)
Definition system_counters (s : EnhancedSystem.t) : Prop :=
  EnhancedSystem.threats_detected (EnhancedSystem.stats s) =
    Z.of_nat (List.length (AlertSystem.alert_history (EnhancedSystem.alert_system s))) /\
  match EnhancedSystem.response_agent s with
  | Some agent =>
      EnhancedSystem.enable_autonomous_response s = true /\
      EnhancedSystem.autonomous_actions (EnhancedSystem.stats s) =
        total_alerts (stats agent) /\
      reachable agent
  | None =>
      EnhancedSystem.enable_autonomous_response s = false /\
      EnhancedSystem.autonomous_actions (EnhancedSystem.stats s) = 0
  end.

(** ** Series of alerts *)

(** One call of [AlertSystem.create_alert]: its arguments, and what the
    clock, read twice, and the SMTP server answer. *)
Record AlertCall : Type := mkAlertCall {
  alert_call_now : Z;
  alert_call_check_now : Z;
  alert_call_smtp_delivers : bool;
  alert_call_threat_level : ThreatLevel;
  alert_call_final_risk : Q;
  alert_call_network_risk : Q;
  alert_call_user_risk : Q;
  alert_call_network_bytes : Q;
  alert_call_network_packets : Q
}.

Definition create_alert_call (s : AlertSystem.t) (c : AlertCall) : AlertSystem.t :=
  fst (AlertSystem.create_alert_at (alert_call_now c) (alert_call_check_now c)
         (alert_call_smtp_delivers c)
         (alert_call_threat_level c) (alert_call_final_risk c)
         (alert_call_network_risk c) (alert_call_user_risk c)
         (alert_call_network_bytes c) (alert_call_network_packets c) s).

Definition create_alerts (calls : list AlertCall) (s : AlertSystem.t)
  : AlertSystem.t :=
  fold_left create_alert_call calls s.

(** The clock read by a series of calls never goes back from [since]. *)
Fixpoint clock_monotone (since : Z) (calls : list AlertCall) : Prop :=
  match calls with
  | [] => True
  | c :: rest =>
      since <= alert_call_now c /\
      alert_call_now c <= alert_call_check_now c /\
      clock_monotone (alert_call_check_now c) rest
  end.

(** No call of the series reads the clock on both sides of an hour
    tick. *)
Definition within_the_hour (calls : list AlertCall) : Prop :=
  Forall (fun c => AlertSystem.hour_start (alert_call_now c) =
                   AlertSystem.hour_start (alert_call_check_now c)) calls.

(** The bound on the e-mails of one clock hour: one below the limit
    when no call reads the clock on both sides of an hour tick, the
    limit itself otherwise. *)
Definition emails_bound (strict : bool) (limit : Z) : Z :=
  if strict then Z.max 0 (limit - 1) else Z.max 0 limit.

(** The alerts of a list stamped in the clock hour that starts at
    [hour]. *)
Definition in_hour (hour : Z) (alerts : list AlertSystem.Alert)
  : list AlertSystem.Alert :=
  filter (fun a => AlertSystem.hour_start (AlertSystem.timestamp a) =? hour) alerts.

(** The alerts of a list whose risk reaches the e-mail threshold. *)
Definition reaching (threshold : Q) (alerts : list AlertSystem.Alert)
  : list AlertSystem.Alert :=
  filter (fun a => Qgeb (AlertSystem.final_risk a) threshold) alerts.

(** ** AlertSystem.get_recent_alerts and AlertSystem.save_alert_to_file *)

(** [now.hour], time [0] being a midnight. *)
Definition hour_of_day (now : Z) : Z := (now / 3600000000) mod 24.

(** [now.replace(hour=h)]; [None] is the [ValueError] raised for an
    hour outside [0..23]. *)
Definition replace_hour (now h : Z) : option Z :=
  if (0 <=? h) && (h <=? 23)
  then Some (now + (h - hour_of_day now) * 3600000000)
  else None.

(** [get_recent_alerts(hours)]: [now] is the clock read for the
    datetime that is replaced, [now'] the clock read next, for the
    hour. *)
Definition get_recent_alerts (now now' : Z) (hours : Z) (s : AlertSystem.t)
  : option (list AlertSystem.Alert) :=
  match replace_hour now (hour_of_day now' - hours) with
  | Some cutoff =>
      Some (filter (fun a => AlertSystem.timestamp a >=? cutoff)
              (AlertSystem.alert_history s))
  | None => None
  end.

(** The file [threat_alerts.json] as [save_alert_to_file] finds it:
    absent, not readable as JSON, or holding a list of alerts. *)
Inductive AlertsFile : Type :=
| file_absent
| file_unreadable
| file_alerts (alerts : list AlertSystem.Alert).

(** [alerts[-n:]] for a positive [n]. *)
Definition last_n {A} (n : nat) (l : list A) : list A :=
  skipn (List.length l - n) l.

(** [save_alert_to_file], the final write returning: the list written
    to the file. *)
Definition save_alert_to_file (alert : AlertSystem.Alert) (file : AlertsFile)
  : AlertsFile :=
  let alerts :=
    match file with
    | file_alerts alerts => alerts
    | file_absent | file_unreadable => []
    end in
  let alerts := alerts ++ [alert] in
  let alerts :=
    if (1000 <? List.length alerts)%nat then last_n 1000 alerts else alerts in
  file_alerts alerts.

(** ** dashboard.py

    [ThreatDashboard]: the data its monitoring thread stores and the
    numbers its page shows. *)

Module Dashboard.

(** [deque(maxlen=n).append(x)]: a full deque drops its oldest
    element. *)
Definition deque_append {A} (maxlen : nat) (x : A) (d : list A) : list A :=
  last_n maxlen (d ++ [x]).

(** An alert of the dashboard; its message is determined by the level
    and the risk. *)
Record Alert : Type := mkAlert {
  timestamp : Z;
  level : ThreatLevel;
  final_risk : Q;
  network_risk : Q;
  user_risk : Q
}.

(** [self.data] *)
Record Data : Type := mkData {
  timestamps : list Z;
  network_in : list Q;
  packets_in : list Q;
  network_risks : list Q;
  user_risks : list Q;
  final_risks : list Q;
  threat_levels : list ThreatLevel;
  alerts : list Alert
}.

(** [self.stats], without ['false_positives'], which is never written,
    and ['uptime_start']. *)
Record Stats : Type := mkStats {
  total_detections : Z;
  critical_alerts : Z;
  high_alerts : Z;
  medium_alerts : Z;
  low_alerts : Z
}.

(** The dashboard: its data, its statistics, and the alerts handed to
    [send_email_alert]. *)
Record t : Type := mkDashboard {
  data : Data;
  stats : Stats;
  email_alerts : list Alert
}.

(** [setup_data_storage] *)
Definition setup_data_storage : t :=
  mkDashboard (mkData [] [] [] [] [] [] [] []) (mkStats 0 0 0 0 0) [].

(** The writes of the monitoring thread.  Each is one statement of the
    source; the callbacks of the page run in other threads, so the
    dashboard is read between any two of them. *)

Definition append_timestamp (x : Z) (s : t) : t :=
  let d := data s in
  mkDashboard
    (mkData (deque_append 100 x (timestamps d)) (network_in d) (packets_in d)
       (network_risks d) (user_risks d) (final_risks d) (threat_levels d)
       (alerts d))
    (stats s) (email_alerts s).

Definition append_network_in (x : Q) (s : t) : t :=
  let d := data s in
  mkDashboard
    (mkData (timestamps d) (deque_append 100 x (network_in d)) (packets_in d)
       (network_risks d) (user_risks d) (final_risks d) (threat_levels d)
       (alerts d))
    (stats s) (email_alerts s).

Definition append_packets_in (x : Q) (s : t) : t :=
  let d := data s in
  mkDashboard
    (mkData (timestamps d) (network_in d) (deque_append 100 x (packets_in d))
       (network_risks d) (user_risks d) (final_risks d) (threat_levels d)
       (alerts d))
    (stats s) (email_alerts s).

Definition append_network_risk (x : Q) (s : t) : t :=
  let d := data s in
  mkDashboard
    (mkData (timestamps d) (network_in d) (packets_in d)
       (deque_append 100 x (network_risks d)) (user_risks d) (final_risks d)
       (threat_levels d) (alerts d))
    (stats s) (email_alerts s).

Definition append_user_risk (x : Q) (s : t) : t :=
  let d := data s in
  mkDashboard
    (mkData (timestamps d) (network_in d) (packets_in d) (network_risks d)
       (deque_append 100 x (user_risks d)) (final_risks d) (threat_levels d)
       (alerts d))
    (stats s) (email_alerts s).

Definition append_final_risk (x : Q) (s : t) : t :=
  let d := data s in
  mkDashboard
    (mkData (timestamps d) (network_in d) (packets_in d) (network_risks d)
       (user_risks d) (deque_append 100 x (final_risks d)) (threat_levels d)
       (alerts d))
    (stats s) (email_alerts s).

Definition append_threat_level (x : ThreatLevel) (s : t) : t :=
  let d := data s in
  mkDashboard
    (mkData (timestamps d) (network_in d) (packets_in d) (network_risks d)
       (user_risks d) (final_risks d) (deque_append 100 x (threat_levels d))
       (alerts d))
    (stats s) (email_alerts s).

(** [self.stats['total_detections'] += 1] *)
Definition count_detection (s : t) : t :=
  let st := stats s in
  mkDashboard (data s)
    (mkStats (total_detections st + 1) (critical_alerts st) (high_alerts st)
       (medium_alerts st) (low_alerts st))
    (email_alerts s).

(** The [if]/[elif] chain on [threat_level] that counts the level. *)
Definition count_level (threat_level : ThreatLevel) (s : t) : t :=
  let st := stats s in
  mkDashboard (data s)
    match threat_level with
    | CRITICAL =>
        mkStats (total_detections st) (critical_alerts st + 1) (high_alerts st)
          (medium_alerts st) (low_alerts st)
    | HIGH =>
        mkStats (total_detections st) (critical_alerts st) (high_alerts st + 1)
          (medium_alerts st) (low_alerts st)
    | MEDIUM =>
        mkStats (total_detections st) (critical_alerts st) (high_alerts st)
          (medium_alerts st + 1) (low_alerts st)
    | LOW =>
        mkStats (total_detections st) (critical_alerts st) (high_alerts st)
          (medium_alerts st) (low_alerts st + 1)
    end
    (email_alerts s).

(** [self.data['alerts'].append(alert)] *)
Definition append_alert (alert : Alert) (s : t) : t :=
  let d := data s in
  mkDashboard
    (mkData (timestamps d) (network_in d) (packets_in d) (network_risks d)
       (user_risks d) (final_risks d) (threat_levels d)
       (deque_append 50 alert (alerts d)))
    (stats s) (email_alerts s).

(** [self.send_email_alert(alert)] is called. *)
Definition hand_to_email (alert : Alert) (s : t) : t :=
  mkDashboard (data s) (stats s) (email_alerts s ++ [alert]).

(** A list of writes, done in order. *)
Definition run_writes (writes : list (t -> t)) (s : t) : t :=
  fold_left (fun s write => write s) writes s.

(** The writes of [create_alert]. *)
Definition create_alert_writes (timestamp : Z) (threat_level : ThreatLevel)
    (final_risk network_risk user_risk : Q) : list (t -> t) :=
  let alert := mkAlert timestamp threat_level final_risk network_risk user_risk in
  append_alert alert ::
  match threat_level with
  | HIGH | CRITICAL => [hand_to_email alert]
  | _ => []
  end.

Definition create_alert (timestamp : Z) (threat_level : ThreatLevel)
    (final_risk network_risk user_risk : Q) (s : t) : t :=
  run_writes
    (create_alert_writes timestamp threat_level final_risk network_risk user_risk) s.

(** [get_network_bytes] and [get_network_packets]: an exception of the
    CloudWatch call gives [0]. *)
Definition get_network_metric (call : Result (option (list Datapoint))) : Q :=
  match call with
  | inr response => get_metric response
  | inl _ => 0%Q
  end.

(** [next((u for u in user_results if u["ip"] == net["ip"]), None)]:
    [net["ip"]] is read once for every behaviour result looked at. *)
Fixpoint next_matching_user (net : NetworkResult) (user_results : list UserResult)
  : Result (option UserResult) :=
  match user_results with
  | [] => ret None
  | u :: rest =>
      u_ip <- getitem "ip" (user_ip u) ;;
      ip <- getitem "ip" (net_ip net) ;;
      if String.eqb u_ip ip then ret (Some u)
      else next_matching_user net rest
  end.

(** What the environment answers while one network result is
    handled. *)
Record EntryEnv : Type := mkEntryEnv {
  entry_now : Z;
  network_in_call : Result (option (list Datapoint));
  packets_in_call : Result (option (list Datapoint))
}.

(** The writes of one iteration of the [for net in network_results]
    loop of [monitor], in the order of the source, once the signals
    were read; each CloudWatch call is made just before its value is
    appended. *)
Definition entry_writes (env : EntryEnv) (network_risk user_risk final_risk : Q)
    (threat_level : ThreatLevel) : list (t -> t) :=
  let timestamp := entry_now env in
  [append_timestamp timestamp;
   append_network_in (get_network_metric (network_in_call env));
   append_packets_in (get_network_metric (packets_in_call env));
   append_network_risk network_risk;
   append_user_risk user_risk;
   append_final_risk final_risk;
   append_threat_level threat_level;
   count_detection;
   count_level threat_level] ++
  (if Qgtb final_risk 0.4
   then create_alert_writes timestamp threat_level final_risk network_risk
          user_risk
   else []).

(** The body of the loop: reading the signals can raise, the writes
    cannot. *)
Definition monitor_body (env : EntryEnv) (user_results : list UserResult)
    (net : NetworkResult) (s : t) : Result t :=
  network_risk <- getitem "network_risk" (net_network_risk net) ;;
  matched_user <- next_matching_user net user_results ;;
  user_risk <- user_risk_of matched_user ;;
  let '(final_risk, threat_level) := combine_risks network_risk user_risk in
  ret (run_writes
         (entry_writes env network_risk user_risk final_risk threat_level) s).

(** The [for] loop inside the [try] of [monitor]: an exception ends it;
    what earlier iterations stored stays stored. *)
Fixpoint monitor_loop (env : nat -> EntryEnv) (i : nat)
    (user_results : list UserResult) (network_results : list NetworkResult)
    (s : t) : t * option PyException :=
  match network_results with
  | [] => (s, None)
  | net :: rest =>
      match monitor_body (env i) user_results net s with
      | inl e => (s, Some e)
      | inr s => monitor_loop env (S i) user_results rest s
      end
  end.

(** One turn of [monitor]: the two [detect()] calls and the loop. *)
Definition monitor_turn (env : nat -> EntryEnv)
    (ids_detect : Result (list NetworkResult))
    (ueba_detect : Result (list UserResult)) (s : t)
  : t * option PyException :=
  match ids_detect with
  | inl e => (s, Some e)
  | inr network_results =>
      match ueba_detect with
      | inl e => (s, Some e)
      | inr user_results => monitor_loop env 0%nat user_results network_results s
      end
  end.

(** The states of the dashboard between two iterations of the loop. *)
Inductive reachable : t -> Prop :=
| reachable_init : reachable setup_data_storage
| reachable_turn env ids_detect ueba_detect s :
    reachable s -> reachable (fst (monitor_turn env ids_detect ueba_detect s)).

(** The states the dashboard goes through: one between two iterations,
    or one after any number of the writes of an iteration under way,
    whose level is that of the fusion function for its two risks.  A
    callback that reads several fields reads each in one of these
    states, not necessarily all in the same one. *)
Inductive observable : t -> Prop :=
| observable_between s : reachable s -> observable s
| observable_within env network_risk user_risk done s :
    reachable s ->
    observable
      (run_writes
         (firstn done
            (entry_writes env network_risk user_risk
               (fst (combine_risks network_risk user_risk))
               (snd (combine_risks network_risk user_risk)))) s).

(** [timedelta.seconds] of a difference in microseconds: the seconds
    left after the whole days. *)
Definition timedelta_seconds (delta : Z) : Z := (delta / 1000000) mod 86400.

(** [(datetime.now() - a['timestamp']).seconds < 3600] *)
Definition recent (now : Z) (a : Alert) : bool :=
  timedelta_seconds (now - timestamp a) <? 3600.

(** The alert count [update_all_components] shows. *)
Definition alert_count (now : Z) (s : t) : nat :=
  List.length (filter (recent now) (alerts (data s))).

End Dashboard.

(** What the dashboard keeps true: the four level counters add up to
    [total_detections]; the seven series have the same length, that of
    [total_detections] up to 100; at most 50 alerts are kept, none of
    level LOW, each with a risk above 0.4; e-mail is asked only for HIGH
    and CRITICAL alerts. *)
Definition dashboard_wf (s : Dashboard.t) : Prop :=
  let d := Dashboard.data s in
  let st := Dashboard.stats s in
  Dashboard.total_detections st =
    Dashboard.critical_alerts st + Dashboard.high_alerts st +
    Dashboard.medium_alerts st + Dashboard.low_alerts st /\
  0 <= Dashboard.total_detections st /\
  Z.of_nat (List.length (Dashboard.timestamps d)) =
    Z.min 100 (Dashboard.total_detections st) /\
  List.length (Dashboard.network_in d) = List.length (Dashboard.timestamps d) /\
  List.length (Dashboard.packets_in d) = List.length (Dashboard.timestamps d) /\
  List.length (Dashboard.network_risks d) = List.length (Dashboard.timestamps d) /\
  List.length (Dashboard.user_risks d) = List.length (Dashboard.timestamps d) /\
  List.length (Dashboard.final_risks d) = List.length (Dashboard.timestamps d) /\
  List.length (Dashboard.threat_levels d) = List.length (Dashboard.timestamps d) /\
  (List.length (Dashboard.alerts d) <= 50)%nat /\
  (forall a, In a (Dashboard.alerts d) ->
     Dashboard.level a <> LOW /\ (0.4 < Dashboard.final_risk a)%Q) /\
  (forall a, In a (Dashboard.email_alerts s) ->
     Dashboard.level a = HIGH \/ Dashboard.level a = CRITICAL).

(** What holds of every state the dashboard goes through, an iteration
    under way included: [total_detections] is the sum of the four level
    counters or one more; no series is longer than one written before
    it in the iteration, and the first is at most one longer than the
    last; their lengths lie between the sum of the level counters and
    one more, up to 100; at most 50 alerts are kept, none of level LOW,
    each with a risk above 0.4; e-mail is asked only for HIGH and
    CRITICAL alerts. *)
Definition dashboard_observed (s : Dashboard.t) : Prop :=
  let d := Dashboard.data s in
  let st := Dashboard.stats s in
  let counted :=
    Dashboard.critical_alerts st + Dashboard.high_alerts st +
    Dashboard.medium_alerts st + Dashboard.low_alerts st in
  0 <= counted /\
  counted <= Dashboard.total_detections st <= counted + 1 /\
  (List.length (Dashboard.network_in d) <= List.length (Dashboard.timestamps d))%nat /\
  (List.length (Dashboard.packets_in d) <= List.length (Dashboard.network_in d))%nat /\
  (List.length (Dashboard.network_risks d) <= List.length (Dashboard.packets_in d))%nat /\
  (List.length (Dashboard.user_risks d) <= List.length (Dashboard.network_risks d))%nat /\
  (List.length (Dashboard.final_risks d) <= List.length (Dashboard.user_risks d))%nat /\
  (List.length (Dashboard.threat_levels d) <= List.length (Dashboard.final_risks d))%nat /\
  (List.length (Dashboard.timestamps d) <=
   List.length (Dashboard.threat_levels d) + 1)%nat /\
  Z.min 100 counted <= Z.of_nat (List.length (Dashboard.threat_levels d)) /\
  Z.of_nat (List.length (Dashboard.timestamps d)) <= Z.min 100 (counted + 1) /\
  (List.length (Dashboard.alerts d) <= 50)%nat /\
  (forall a, In a (Dashboard.alerts d) ->
     Dashboard.level a <> LOW /\ (0.4 < Dashboard.final_risk a)%Q) /\
  (forall a, In a (Dashboard.email_alerts s) ->
     Dashboard.level a = HIGH \/ Dashboard.level a = CRITICAL).

(** * Properties *)

(** ** Facts about the comparisons *)

Lemma Qgeb_true x y : Qgeb x y = true <-> (y <= x)%Q.
Proof. apply Qle_bool_iff. Qed.

Lemma Qleb_true x y : Qleb x y = true <-> (x <= y)%Q.
Proof. apply Qle_bool_iff. Qed.

Lemma Qgeb_false x y : Qgeb x y = false <-> (x < y)%Q.
Proof.
  unfold Qgeb. split; intro H.
  - apply Qnot_le_lt. intro L. apply Qle_bool_iff in L. congruence.
  - destruct (Qle_bool y x) eqn:E; [|reflexivity].
    apply Qle_bool_iff in E. exfalso. exact (Qlt_not_le _ _ H E).
Qed.

Lemma Qleb_false x y : Qleb x y = false <-> (y < x)%Q.
Proof. exact (Qgeb_false y x). Qed.

Lemma Qgtb_true x y : Qgtb x y = true <-> (y < x)%Q.
Proof.
  unfold Qgtb. rewrite negb_true_iff. exact (Qgeb_false y x).
Qed.

Lemma Qgtb_false x y : Qgtb x y = false <-> (x <= y)%Q.
Proof.
  unfold Qgtb. rewrite negb_false_iff. apply Qle_bool_iff.
Qed.

Lemma Qltb_true x y : Qltb x y = true <-> (x < y)%Q.
Proof. exact (Qgtb_true y x). Qed.

Lemma Qltb_false x y : Qltb x y = false <-> (y <= x)%Q.
Proof. exact (Qgtb_false y x). Qed.

(** Turns every boolean comparison in the context into its order fact. *)
Ltac qorder :=
  repeat match goal with
  | H : Qgeb _ _ = true |- _ => apply Qgeb_true in H
  | H : Qgeb _ _ = false |- _ => apply Qgeb_false in H
  | H : Qgtb _ _ = true |- _ => apply Qgtb_true in H
  | H : Qgtb _ _ = false |- _ => apply Qgtb_false in H
  | H : Qltb _ _ = true |- _ => apply Qltb_true in H
  | H : Qltb _ _ = false |- _ => apply Qltb_false in H
  | H : Qleb _ _ = true |- _ => apply Qleb_true in H
  | H : Qleb _ _ = false |- _ => apply Qleb_false in H
  end.

(** Closes a goal whose context holds two order facts on one score that
    contradict each other, directly or through a comparison of the two
    constants. *)
Ltac qabsurd :=
  match goal with
  | H1 : (?a <= ?x)%Q, H2 : (?x < ?b)%Q |- _ =>
      exfalso; apply (Qlt_irrefl x);
      apply (Qlt_le_trans _ _ _ H2);
      apply (Qle_trans _ a); [ discriminate | exact H1 ]
  | H1 : (?a < ?x)%Q, H2 : (?x <= ?b)%Q |- _ =>
      exfalso; apply (Qlt_irrefl x);
      apply (Qle_lt_trans _ _ _ H2);
      apply (Qle_lt_trans _ a); [ discriminate | exact H1 ]
  | H1 : (?a <= ?x)%Q, H2 : (?x < ?a)%Q |- _ =>
      exfalso; exact (Qlt_not_le _ _ H2 H1)
  | H1 : (?a < ?x)%Q, H2 : (?x <= ?a)%Q |- _ =>
      exfalso; exact (Qlt_not_le _ _ H1 H2)
  end.

(** ** Comparisons of binary64 numbers

    The comparisons of primitive floats are those of their
    specification floats, a lexicographic order on sign, exponent and
    mantissa in which NaN compares with nothing. *)

Ltac sf_orders :=
  repeat match goal with
  | H : context [Pos.compare_cont Eq ?a ?b] |- _ =>
      change (Pos.compare_cont Eq a b) with (Pos.compare a b) in H
  | |- context [Pos.compare_cont Eq ?a ?b] =>
      change (Pos.compare_cont Eq a b) with (Pos.compare a b)
  end;
  repeat match goal with
  | H : context [Z.compare ?a ?b] |- _ => destruct (Z.compare_spec a b)
  | |- context [Z.compare ?a ?b] => destruct (Z.compare_spec a b)
  | H : context [Pos.compare ?a ?b] |- _ => destruct (Pos.compare_spec a b)
  | |- context [Pos.compare ?a ?b] => destruct (Pos.compare_spec a b)
  end;
  cbn in *; try discriminate; try reflexivity; try lia.

Lemma SFcompare_opp x y : SFcompare y x = option_map CompOpp (SFcompare x y).
Proof.
  destruct x as [sx|sx| |sx mx ex], y as [sy|sy| |sy my ey]; cbn;
    try reflexivity;
    try (destruct sx; reflexivity); try (destruct sy; reflexivity);
    try (destruct sx, sy; reflexivity).
  destruct sx, sy; try reflexivity; sf_orders.
Qed.

Lemma SFltb_trans x y z : SFltb x y = true -> SFltb y z = true -> SFltb x z = true.
Proof.
  unfold SFltb.
  destruct x as [sx|sx| |sx mx ex], y as [sy|sy| |sy my ey],
    z as [sz|sz| |sz mz ez]; cbn; try discriminate; try reflexivity;
    try (destruct sx); try (destruct sy); try (destruct sz);
    cbn; try discriminate; try reflexivity; intros; sf_orders.
Qed.

Lemma SFleb_trans x y z : SFleb x y = true -> SFleb y z = true -> SFleb x z = true.
Proof.
  unfold SFleb.
  destruct x as [sx|sx| |sx mx ex], y as [sy|sy| |sy my ey],
    z as [sz|sz| |sz mz ez]; cbn; try discriminate; try reflexivity;
    try (destruct sx); try (destruct sy); try (destruct sz);
    cbn; try discriminate; try reflexivity; intros; sf_orders.
Qed.

Lemma is_nan_Prim2SF r : is_nan r = true <-> Prim2SF r = S754_nan.
Proof.
  unfold Prim2SF. destruct (is_nan r); [split; reflexivity|].
  split; [discriminate|].
  destruct (is_zero r); [discriminate|].
  destruct (is_infinity r); [discriminate|].
  destruct (Z.frexp r) as [m e].
  destruct (shr_fexp _ _ _ _ _) as [shr e'].
  destruct (shr_m shr); discriminate.
Qed.

(** NaN fails every comparison. *)
Lemma float_ltb_nan_l r c : is_nan r = true -> (r <? c)%float = false.
Proof. intro H. apply is_nan_Prim2SF in H. rewrite ltb_spec, H. reflexivity. Qed.

Lemma float_ltb_nan_r r c : is_nan r = true -> (c <? r)%float = false.
Proof.
  intro H. apply is_nan_Prim2SF in H. rewrite ltb_spec, H.
  destruct (Prim2SF c); reflexivity.
Qed.

Lemma float_leb_nan_r r c : is_nan r = true -> (c <=? r)%float = false.
Proof.
  intro H. apply is_nan_Prim2SF in H. rewrite leb_spec, H.
  destruct (Prim2SF c); reflexivity.
Qed.

(** Two numbers are ordered one way or the other. *)
Lemma float_ltb_negb_leb r c :
  is_nan r = false -> is_nan c = false -> (r <? c)%float = negb (c <=? r)%float.
Proof.
  intros Hr Hc. rewrite ltb_spec, leb_spec. unfold SFltb, SFleb.
  rewrite (SFcompare_opp (Prim2SF c) (Prim2SF r)).
  assert (Nr : Prim2SF r <> S754_nan)
    by (intro X; apply is_nan_Prim2SF in X; congruence).
  assert (Nc : Prim2SF c <> S754_nan)
    by (intro X; apply is_nan_Prim2SF in X; congruence).
  destruct (Prim2SF r) as [sr|sr| |sr mr er], (Prim2SF c) as [sc|sc| |sc mc ec];
    try congruence; cbn;
    try (destruct sr); try (destruct sc); try reflexivity; sf_orders.
Qed.

Lemma float_leb_trans x y z :
  (x <=? y)%float = true -> (y <=? z)%float = true -> (x <=? z)%float = true.
Proof. rewrite !leb_spec. apply SFleb_trans. Qed.

Lemma float_ltb_trans x y z :
  (x <? y)%float = true -> (y <? z)%float = true -> (x <? z)%float = true.
Proof. rewrite !ltb_spec. apply SFltb_trans. Qed.

(** For a score that is a number the [if]/[elif] chain of [take_action]
    selects the branch of the level [assess_threat_level] returns. *)
Lemma binary64_branch_of_number r :
  is_nan r = false ->
  Binary64.take_action_branch r = Binary64.assess_threat_level r.
Proof.
  intro N. unfold Binary64.take_action_branch, Binary64.assess_threat_level.
  rewrite !(float_ltb_negb_leb r) by (exact N || reflexivity).
  pose proof (float_leb_trans 0.6 0.8 r eq_refl) as T8.
  pose proof (float_leb_trans 0.4 0.6 r eq_refl) as T6.
  destruct (0.8 <=? r)%float; [rewrite T8 in * by reflexivity|].
  - rewrite T6 by reflexivity. reflexivity.
  - destruct (0.6 <=? r)%float; [rewrite T6 by reflexivity; reflexivity|].
    destruct (0.4 <=? r)%float; reflexivity.
Qed.

(** A NaN score is LOW for the classifier and reaches the [else]
    branch of [take_action], the block. *)
Lemma binary64_branch_of_nan r :
  is_nan r = true ->
  Binary64.assess_threat_level r = LOW /\
  Binary64.take_action_branch r = CRITICAL.
Proof.
  intro N. unfold Binary64.take_action_branch, Binary64.assess_threat_level.
  rewrite !(float_ltb_nan_l r) by exact N.
  rewrite !(float_leb_nan_r r) by exact N.
  split; reflexivity.
Qed.

(** The level of the fusion function, by the comparisons of the fused
    value. *)
Lemma binary64_combine_risks_level n u :
  let f := fst (Binary64.combine_risks n u) in
  let l := snd (Binary64.combine_risks n u) in
  (l = CRITICAL <-> (0.8 <? f)%float = true) /\
  (l = HIGH <-> (0.6 <? f)%float = true /\ (0.8 <? f)%float = false) /\
  (l = MEDIUM <-> (0.4 <? f)%float = true /\ (0.6 <? f)%float = false) /\
  (l = LOW <-> (0.4 <? f)%float = false).
Proof.
  unfold Binary64.combine_risks. cbn [fst snd].
  set (f := (0.6 * n + 0.4 * u)%float).
  pose proof (float_ltb_trans 0.6 0.8 f eq_refl) as T8.
  pose proof (float_ltb_trans 0.4 0.6 f eq_refl) as T6.
  destruct (0.8 <? f)%float.
  - specialize (T8 eq_refl). rewrite T8 in *. specialize (T6 eq_refl). rewrite T6.
    repeat split; intros; try discriminate; try tauto;
      repeat match goal with H : _ /\ _ |- _ => destruct H end; discriminate.
  - clear T8. destruct (0.6 <? f)%float.
    + specialize (T6 eq_refl). rewrite T6.
      repeat split; intros; try discriminate; try tauto;
        repeat match goal with H : _ /\ _ |- _ => destruct H end; discriminate.
    + clear T6. destruct (0.4 <? f)%float;
        repeat split; intros; try discriminate; try tauto;
          repeat match goal with H : _ /\ _ |- _ => destruct H end; discriminate.
Qed.

(** ** Properties of the fusion function and of the classifier *)

Lemma combine_risks_level n u :
  let f := fst (combine_risks n u) in
  let l := snd (combine_risks n u) in
  (l = CRITICAL <-> (0.8 < f)%Q) /\
  (l = HIGH <-> (0.6 < f)%Q /\ (f <= 0.8)%Q) /\
  (l = MEDIUM <-> (0.4 < f)%Q /\ (f <= 0.6)%Q) /\
  (l = LOW <-> (f <= 0.4)%Q).
Proof.
  unfold combine_risks; cbn [fst snd].
  set (f := (0.6 * n + 0.4 * u)%Q).
  destruct (Qgtb f 0.8) eqn:E8; [|destruct (Qgtb f 0.6) eqn:E6;
    [|destruct (Qgtb f 0.4) eqn:E4]]; qorder;
  repeat split; intros; try discriminate; try assumption;
  repeat match goal with H : _ /\ _ |- _ => destruct H end;
  try qabsurd.
Qed.

(** The fusion function does not depend on how its arguments are
    written as fractions. *)
Lemma combine_risks_compat n n' u u' :
  (n == n')%Q -> (u == u')%Q ->
  (fst (combine_risks n u) == fst (combine_risks n' u'))%Q /\
  snd (combine_risks n u) = snd (combine_risks n' u').
Proof.
  intros Hn Hu. unfold combine_risks; cbn [fst snd].
  assert (E : (0.6 * n + 0.4 * u == 0.6 * n' + 0.4 * u')%Q)
    by (rewrite Hn, Hu; reflexivity).
  split; [exact E|].
  unfold Qgtb. rewrite !E. reflexivity.
Qed.

(** The fusion function in exact arithmetic: the value is
    [0.6 * network_risk + 0.4 * user_risk], the level that of the
    strict thresholds 0.8, 0.6 and 0.4 on it, and equal inputs give
    equal results, however the numbers are written. *)
Lemma combine_risks_exact :
  (forall network_risk user_risk : Q,
     let final_risk := fst (combine_risks network_risk user_risk) in
     let level := snd (combine_risks network_risk user_risk) in
     final_risk = (0.6 * network_risk + 0.4 * user_risk)%Q /\
     (level = CRITICAL <-> (0.8 < final_risk)%Q) /\
     (level = HIGH <-> (0.6 < final_risk)%Q /\ (final_risk <= 0.8)%Q) /\
     (level = MEDIUM <-> (0.4 < final_risk)%Q /\ (final_risk <= 0.6)%Q) /\
     (level = LOW <-> (final_risk <= 0.4)%Q)) /\
  (forall n n' u u' : Q,
     (n == n')%Q -> (u == u')%Q ->
     (fst (combine_risks n u) == fst (combine_risks n' u'))%Q /\
     snd (combine_risks n u) = snd (combine_risks n' u')).
Proof.
  split.
  - intros n u. split; [reflexivity|]. apply combine_risks_level.
  - exact combine_risks_compat.
Qed.

(** C2 (as amended): for every pair of binary64 inputs [combine_risks]
    returns the binary64 value of [0.6 * network_risk + 0.4 * user_risk],
    each product and the sum rounded, and the level given by the strict
    thresholds 0.8, 0.6 and 0.4 on that computed value, LOW when it is
    NaN; at (1.0, 0.0) the result is 0.6 and MEDIUM, at (0.0, 1.0) it
    is 0.4 and LOW. *)
Theorem combine_risks_spec :
  (forall network_risk user_risk : float,
     let final_risk := fst (Binary64.combine_risks network_risk user_risk) in
     let level := snd (Binary64.combine_risks network_risk user_risk) in
     final_risk = (0.6 * network_risk + 0.4 * user_risk)%float /\
     (level = CRITICAL <-> (0.8 <? final_risk)%float = true) /\
     (level = HIGH <->
      (0.6 <? final_risk)%float = true /\ (0.8 <? final_risk)%float = false) /\
     (level = MEDIUM <->
      (0.4 <? final_risk)%float = true /\ (0.6 <? final_risk)%float = false) /\
     (level = LOW <-> (0.4 <? final_risk)%float = false) /\
     (is_nan final_risk = true -> level = LOW)) /\
  Binary64.combine_risks 1 0 = (0.6%float, MEDIUM) /\
  Binary64.combine_risks 0 1 = (0.4%float, LOW).
Proof.
  split; [|split; reflexivity].
  intros n u. cbv zeta.
  destruct (binary64_combine_risks_level n u) as (C & H & M & L).
  split; [reflexivity|].
  split; [exact C|]. split; [exact H|]. split; [exact M|]. split; [exact L|].
  intro N. apply L. apply float_ltb_nan_r. exact N.
Qed.

(** A network risk that is NaN. *)
Lemma combine_risks_witness :
  snd (Binary64.combine_risks nan 0.5) = LOW.
Proof.
  apply (proj1 combine_risks_spec nan 0.5%float). reflexivity.
Defined.

(** The fusion of 0.4 and 0.9 is 0.6 in exact arithmetic, hence MEDIUM
    by the strict thresholds; the code computes 0.6000000000000001 and
    returns HIGH. *)
Lemma combine_risks_rounds_up :
  (0.6 * 0.4 + 0.4 * 0.9 == 0.6)%Q /\
  snd (combine_risks 0.4 0.9) = MEDIUM /\
  Binary64.combine_risks 0.4 0.9 = (0.6000000000000001%float, HIGH) /\
  (0.6000000000000001 =? 0.6)%float = false.
Proof. repeat split. Qed.

(** The level of a score in a given band. *)
Lemma assess_threat_level_of_band (r : Q) :
  ((0.8 <= r)%Q -> assess_threat_level r = CRITICAL) /\
  ((0.6 <= r)%Q -> (r < 0.8)%Q -> assess_threat_level r = HIGH) /\
  ((0.4 <= r)%Q -> (r < 0.6)%Q -> assess_threat_level r = MEDIUM) /\
  ((r < 0.4)%Q -> assess_threat_level r = LOW).
Proof.
  unfold assess_threat_level. repeat split; intros.
  - apply Qgeb_true in H. rewrite H. reflexivity.
  - apply Qgeb_false in H0. apply Qgeb_true in H. rewrite H0, H. reflexivity.
  - assert (H8 : (r < 0.8)%Q) by (apply (Qlt_trans _ 0.6); [assumption | reflexivity]).
    apply Qgeb_false in H0, H8. apply Qgeb_true in H.
    rewrite H8, H0, H. reflexivity.
  - assert (H6 : (r < 0.6)%Q) by (apply (Qlt_trans _ 0.4); [assumption | reflexivity]).
    assert (H8 : (r < 0.8)%Q) by (apply (Qlt_trans _ 0.4); [assumption | reflexivity]).
    apply Qgeb_false in H, H6, H8. rewrite H8, H6, H. reflexivity.
Qed.

(** C5: for every risk score, inside [0, 1] or not,
    [assess_threat_level] returns CRITICAL iff the score is at least
    0.8, HIGH iff it is in [0.6, 0.8), MEDIUM iff it is in [0.4, 0.6),
    and LOW iff it is below 0.4. *)
Theorem assess_threat_level_spec :
  forall risk_score : Q,
    (assess_threat_level risk_score = CRITICAL <-> (0.8 <= risk_score)%Q) /\
    (assess_threat_level risk_score = HIGH <->
       (0.6 <= risk_score)%Q /\ (risk_score < 0.8)%Q) /\
    (assess_threat_level risk_score = MEDIUM <->
       (0.4 <= risk_score)%Q /\ (risk_score < 0.6)%Q) /\
    (assess_threat_level risk_score = LOW <-> (risk_score < 0.4)%Q).
Proof.
  intro r. unfold assess_threat_level.
  destruct (Qgeb r 0.8) eqn:E8; [|destruct (Qgeb r 0.6) eqn:E6;
    [|destruct (Qgeb r 0.4) eqn:E4]]; qorder;
  repeat split; intros; try discriminate; try assumption;
  repeat match goal with H : _ /\ _ |- _ => destruct H end;
  try qabsurd.
Qed.

(** ** Facts about dictionaries *)

Section DictFacts.
Context {V : Type}.
Implicit Types (d : dict V) (k : string) (v : V).

Lemma dict_in_keys k d : dict_in k d = true <-> In k (dict_keys d).
Proof.
  unfold dict_in. induction d as [|[k' v'] d IH]; cbn.
  - split; [discriminate | tauto].
  - destruct (String.eqb_spec k' k) as [->|Hne].
    + split; auto.
    + rewrite IH. split; [auto | intros [E|H]; [congruence | exact H]].
Qed.

Lemma dict_in_false_keys k d : dict_in k d = false <-> ~ In k (dict_keys d).
Proof.
  rewrite <- dict_in_keys. destruct (dict_in k d); split; congruence.
Qed.

Lemma dict_set_absent k v d :
  dict_in k d = false -> dict_set k v d = d ++ [(k, v)].
Proof.
  unfold dict_in. induction d as [|[k' v'] d IH]; cbn; [reflexivity|].
  destruct (String.eqb k' k); [discriminate|].
  intro H. rewrite (IH H). reflexivity.
Qed.

Lemma dict_len_set_absent k v d :
  dict_in k d = false -> dict_len (dict_set k v d) = dict_len d + 1.
Proof.
  intro H. rewrite (dict_set_absent _ _ _ H). unfold dict_len.
  rewrite length_app. cbn. lia.
Qed.

Lemma dict_wf_set_absent k v d :
  dict_wf d -> dict_in k d = false -> dict_wf (dict_set k v d).
Proof.
  intros W H. rewrite (dict_set_absent _ _ _ H).
  apply dict_in_false_keys in H. unfold dict_wf, dict_keys in *.
  rewrite map_app. cbn.
  apply NoDup_app; [exact W | repeat constructor; auto |].
  intros x Hx [<-|[]]. exact (H Hx).
Qed.

Lemma dict_get_set_same k v d : dict_get k (dict_set k v d) = Some v.
Proof.
  induction d as [|[k' v'] d IH]; cbn.
  - rewrite String.eqb_refl. reflexivity.
  - destruct (String.eqb k' k) eqn:E; cbn; rewrite E; auto.
Qed.

Lemma dict_len_pop_present k d :
  dict_in k d = true -> dict_len (dict_pop k d) = dict_len d - 1.
Proof.
  unfold dict_in, dict_len. induction d as [|[k' v'] d IH]; cbn [dict_get dict_pop].
  - discriminate.
  - destruct (String.eqb k' k).
    + intros _. cbn [List.length]. lia.
    + intro H. specialize (IH H). cbn [List.length]. lia.
Qed.

Lemma dict_keys_pop_incl k k' d :
  In k' (dict_keys (dict_pop k d)) -> In k' (dict_keys d).
Proof.
  induction d as [|[k0 v0] d IH]; cbn; [tauto|].
  destruct (String.eqb k0 k); cbn; [auto|].
  intros [E|H]; auto.
Qed.

Lemma dict_wf_pop k d : dict_wf d -> dict_wf (dict_pop k d).
Proof.
  unfold dict_wf. induction d as [|[k0 v0] d IH]; cbn; [auto|].
  intro W. inversion W as [|? ? Hnin Wd]; subst.
  destruct (String.eqb k0 k); [exact Wd|].
  cbn. constructor; [|auto].
  intro H. apply Hnin. exact (dict_keys_pop_incl _ _ _ H).
Qed.

Lemma dict_in_pop_same k d : dict_wf d -> dict_in k (dict_pop k d) = false.
Proof.
  unfold dict_wf. induction d as [|[k0 v0] d IH]; cbn; [reflexivity|].
  intro W. inversion W as [|? ? Hnin Wd]; subst.
  destruct (String.eqb_spec k0 k) as [->|Hne].
  - apply dict_in_false_keys. exact Hnin.
  - unfold dict_in in *. cbn.
    destruct (String.eqb_spec k0 k); [congruence | auto].
Qed.

Lemma dict_get_pop_other k k' d :
  k' <> k -> dict_get k' (dict_pop k d) = dict_get k' d.
Proof.
  intro Hne. induction d as [|[k0 v0] d IH]; cbn; [reflexivity|].
  destruct (String.eqb_spec k0 k) as [->|Hk]; cbn.
  - destruct (String.eqb_spec k k'); [congruence | reflexivity].
  - rewrite IH. reflexivity.
Qed.

Lemma count_entries_absent k d : dict_in k d = false -> count_entries k d = 0%nat.
Proof.
  unfold dict_in, count_entries. induction d as [|[k' v'] d IH]; cbn; [reflexivity|].
  destruct (String.eqb k' k); [discriminate | auto].
Qed.

Lemma count_entries_wf k d :
  dict_wf d -> count_entries k d = if dict_in k d then 1%nat else 0%nat.
Proof.
  unfold dict_wf. induction d as [|[k' v'] d IH]; cbn; [reflexivity|].
  intro W. inversion W as [|? ? Hnin Wd]; subst.
  unfold count_entries, dict_in in *. cbn.
  destruct (String.eqb_spec k' k) as [->|Hne]; cbn.
  - f_equal. apply (count_entries_absent k d).
    apply dict_in_false_keys. exact Hnin.
  - auto.
Qed.

(** The first entry under a key survives a filter that accepts it. *)
Lemma dict_get_filter_kept (f : string * V -> bool) k v d :
  dict_get k d = Some v -> f (k, v) = true ->
  dict_get k (filter f d) = Some v.
Proof.
  induction d as [|[k' v'] d IH]; cbn; [discriminate|].
  destruct (String.eqb_spec k' k) as [->|Hne].
  - intros [= ->] Hf. rewrite Hf. cbn. rewrite String.eqb_refl. reflexivity.
  - intros Hg Hf. destruct (f (k', v')); cbn; auto.
    destruct (String.eqb_spec k' k); [congruence | auto].
Qed.

Lemma dict_in_filter_incl (f : string * V -> bool) k d :
  dict_in k (filter f d) = true -> dict_in k d = true.
Proof.
  rewrite !dict_in_keys. unfold dict_keys.
  rewrite !in_map_iff. intros [x [E H]]. apply filter_In in H.
  exists x. tauto.
Qed.

(** In a well-formed dictionary, a key whose entry a filter rejects is
    absent afterwards. *)
Lemma dict_in_filter_dropped (f : string * V -> bool) k v d :
  dict_wf d -> dict_get k d = Some v -> f (k, v) = false ->
  dict_in k (filter f d) = false.
Proof.
  unfold dict_wf. induction d as [|[k' v'] d IH]; cbn; [discriminate|].
  intros W. inversion W as [|? ? Hnin Wd]; subst.
  destruct (String.eqb_spec k' k) as [->|Hne].
  - intros [= ->] Hf. rewrite Hf.
    destruct (dict_in k (filter f d)) eqn:E; [|reflexivity].
    apply dict_in_filter_incl, dict_in_keys in E. contradiction.
  - intros Hg Hf. destruct (f (k', v')); [|auto].
    unfold dict_in in *. cbn.
    destruct (String.eqb_spec k' k); [congruence | auto].
Qed.

End DictFacts.

(** ** The branches of [take_action] *)

Lemma take_action_LOW now o ip r n u a :
  (r < 0.4)%Q -> take_action now o ip r n u a = (a, LOG).
Proof.
  intro H. unfold take_action, log_threat.
  apply Qltb_true in H. rewrite H. reflexivity.
Qed.

Lemma take_action_MEDIUM now o ip r n u a :
  (0.4 <= r)%Q -> (r < 0.6)%Q ->
  take_action now o ip r n u a = (send_alert now ip r n u MEDIUM a, ALERT).
Proof.
  intros H4 H6. unfold take_action.
  rewrite (proj1 (proj2 (proj2 (assess_threat_level_of_band r))) H4 H6).
  destruct (Qltb r 0.4) eqn:E; [qorder; qabsurd|].
  apply Qleb_true in H4. apply Qltb_true in H6. rewrite H4, H6. reflexivity.
Qed.

Lemma take_action_HIGH now o ip r n u a :
  (0.6 <= r)%Q -> (r < 0.8)%Q ->
  take_action now o ip r n u a =
  (send_alert now ip r n u HIGH (simulate_rate_limiting now ip r a), RATE_LIMIT).
Proof.
  intros H6 H8. unfold take_action.
  rewrite (proj1 (proj2 (assess_threat_level_of_band r)) H6 H8).
  destruct (Qltb r 0.4) eqn:E4; [qorder; qabsurd|].
  destruct (Qltb r 0.6) eqn:E6; [qorder; qabsurd|].
  rewrite andb_false_r.
  apply Qleb_true in H6. apply Qltb_true in H8. rewrite H6, H8. reflexivity.
Qed.

Lemma take_action_CRITICAL now o ip r n u a :
  (0.8 <= r)%Q ->
  take_action now o ip r n u a =
  (let (a1, success) := block_ip_address now o ip r n u a in
   if success then (send_alert now ip r n u CRITICAL a1, BLOCK)
   else (a1, BLOCK_FAILED)).
Proof.
  intros H8. unfold take_action.
  rewrite (proj1 (assess_threat_level_of_band r) H8).
  destruct (Qltb r 0.4) eqn:E4; [qorder; qabsurd|].
  destruct (Qltb r 0.6) eqn:E6; [qorder; qabsurd|].
  destruct (Qltb r 0.8) eqn:E8; [qorder; qabsurd|].
  rewrite !andb_false_r. reflexivity.
Qed.

(** Every score falls in exactly one band. *)
Lemma risk_bands (r : Q) :
  (r < 0.4)%Q \/ ((0.4 <= r)%Q /\ (r < 0.6)%Q) \/
  ((0.6 <= r)%Q /\ (r < 0.8)%Q) \/ (0.8 <= r)%Q.
Proof.
  destruct (Qlt_le_dec r 0.4); [auto|].
  destruct (Qlt_le_dec r 0.6); [auto|].
  destruct (Qlt_le_dec r 0.8); auto.
Qed.

(** ** What the primitive methods do to the registry *)

Lemma registry_step_refl a : registry_step a a.
Proof. apply registry_kept; reflexivity. Qed.

Lemma send_alert_registry now ip r n u l a :
  registry_step a (send_alert now ip r n u l a).
Proof. apply registry_kept; reflexivity. Qed.

Lemma simulate_rate_limiting_registry now ip r a :
  registry_step a (simulate_rate_limiting now ip r a).
Proof. apply registry_kept; reflexivity. Qed.

Lemma block_ip_address_registry now o ip r n u a :
  registry_step a (fst (block_ip_address now o ip r n u a)).
Proof.
  unfold block_ip_address.
  destruct (dict_in ip (blocked_ips a)) eqn:E; [apply registry_step_refl|].
  destruct o as [|code|]; cbn.
  - eapply registry_added; [exact E | reflexivity | reflexivity | reflexivity].
  - destruct (String.eqb code _); apply registry_kept; reflexivity.
  - apply registry_kept; reflexivity.
Qed.

Lemma unblock_ip_address_registry o ip a :
  registry_step a (fst (unblock_ip_address o ip a)).
Proof.
  unfold unblock_ip_address.
  destruct (dict_in ip (blocked_ips a)) eqn:E; cbn;
    [|apply registry_step_refl].
  destruct o; cbn.
  - eapply registry_popped; [exact E | reflexivity | reflexivity | reflexivity].
  - apply registry_kept; reflexivity.
  - apply registry_kept; reflexivity.
Qed.

(** ** Invariants closed under registry steps *)

Section Preservation.
Variable P : AutonomousResponseAgent -> Prop.
Hypothesis P_step : forall a a', registry_step a a' -> P a -> P a'.

Lemma take_action_preserves now o ip r n u a :
  P a -> P (fst (take_action now o ip r n u a)).
Proof.
  intro H.
  destruct (risk_bands r) as [L|[[M1 M2]|[[H1 H2]|C]]].
  - rewrite take_action_LOW by assumption. exact H.
  - rewrite take_action_MEDIUM by assumption. cbn [fst].
    eapply P_step; [apply send_alert_registry | exact H].
  - rewrite take_action_HIGH by assumption. cbn [fst].
    eapply P_step; [apply send_alert_registry|].
    eapply P_step; [apply simulate_rate_limiting_registry | exact H].
  - rewrite take_action_CRITICAL by assumption.
    pose proof (block_ip_address_registry now o ip r n u a) as S.
    destruct (block_ip_address now o ip r n u a) as [a1 [|]]; cbn [fst] in *.
    + eapply P_step; [apply send_alert_registry|].
      eapply P_step; [exact S | exact H].
    + eapply P_step; [exact S | exact H].
Qed.

Lemma unblock_fold_preserves (revoke : string -> Ec2Outcome) ips a :
  P a ->
  P (fold_left
       (fun a ip => fst (unblock_ip_address (revoke ip) ip a)) ips a).
Proof.
  revert a. induction ips as [|ip ips IH]; intros a H; cbn; [exact H|].
  apply IH. eapply P_step; [apply unblock_ip_address_registry | exact H].
Qed.

Lemma check_and_unblock_expired_preserves now revoke a :
  P a -> P (check_and_unblock_expired now revoke a).
Proof. intro H. unfold check_and_unblock_expired. apply unblock_fold_preserves, H. Qed.

Lemma cycle_loop_preserves f env i users nets a :
  P a -> P (fst (fst (cycle_loop f env i users nets a))).
Proof.
  revert i a. induction nets as [|net nets IH]; intros i a H; cbn; [exact H|].
  destruct (cycle_body f (env i) users net a) as [e|[a1 done]] eqn:B;
    cbn; [exact H|].
  assert (H1 : P a1).
  { unfold cycle_body, bind in B.
    destruct (getitem "ip" (net_ip net)) as [|ip]; [discriminate|].
    destruct (getitem "network_risk" (net_network_risk net)) as [|nr];
      [discriminate|].
    destruct (next_matching_user ip users) as [|mu]; [discriminate|].
    destruct (user_risk_of mu) as [|ur]; [discriminate|].
    destruct (f nr ur) as [fr lv].
    pose proof (take_action_preserves (call_now (env i)) (call_outcome (env i))
                  ip fr nr ur a H) as T.
    destruct (take_action _ _ ip fr nr ur a) as [a2 act].
    injection B as <- _. exact T. }
  specialize (IH (S i) a1 H1).
  destruct (cycle_loop f env (S i) users nets a1) as [[a2 dones] e].
  exact IH.
Qed.

Lemma run_monitoring_cycle_preserves env ids ueba f a :
  P a -> P (fst (fst (run_monitoring_cycle env ids ueba f a))).
Proof.
  intro H. unfold run_monitoring_cycle.
  destruct ids as [e|nets]; [exact H|].
  destruct ueba as [e|users]; [exact H|].
  pose proof (cycle_loop_preserves f (entry_env env) 0%nat users nets a H) as L.
  destruct (cycle_loop f (entry_env env) 0%nat users nets a) as [[a1 dones] [e|]];
    cbn [fst] in *; [exact L|].
  apply check_and_unblock_expired_preserves, L.
Qed.

Lemma run_op_preserves op a : P a -> P (run_op op a).
Proof.
  intro H. destruct op; cbn [run_op].
  - exact H.
  - eapply P_step; [apply send_alert_registry | exact H].
  - eapply P_step; [apply simulate_rate_limiting_registry | exact H].
  - eapply P_step; [apply block_ip_address_registry | exact H].
  - eapply P_step; [apply unblock_ip_address_registry | exact H].
  - apply check_and_unblock_expired_preserves, H.
  - apply take_action_preserves, H.
  - apply run_monitoring_cycle_preserves, H.
Qed.

End Preservation.

Lemma registry_wf_step a a' : registry_step a a' -> registry_wf a -> registry_wf a'.
Proof.
  unfold registry_wf. intros [E _ _|ip b Hin E _ _|ip Hin E _ _] W; rewrite E.
  - exact W.
  - apply dict_wf_set_absent; assumption.
  - apply dict_wf_pop; assumption.
Qed.

Lemma counters_consistent_step a a' :
  registry_step a a' -> counters_consistent a -> counters_consistent a'.
Proof.
  unfold counters_consistent.
  intros [E B U|ip b Hin E B U|ip Hin E B U] C; rewrite E, B, U.
  - exact C.
  - rewrite dict_len_set_absent by assumption. lia.
  - rewrite dict_len_pop_present by assumption. lia.
Qed.

(** ** Blocking *)

Lemma dict_in_set_same {V} k (v : V) d : dict_in k (dict_set k v d) = true.
Proof. unfold dict_in. rewrite dict_get_set_same. reflexivity. Qed.

(** The effect of [block_ip_address] on the registry, the block counter
    and the request log: it acts iff the address has no entry and the
    request returns. *)
Lemma block_ip_address_effect now o ip r n u a :
  let fresh := negb (dict_in ip (blocked_ips a)) && outcome_returns o in
  let a' := fst (block_ip_address now o ip r n u a) in
  snd (block_ip_address now o ip r n u a) = fresh /\
  blocked_ips a' =
    (if fresh
     then dict_set ip (mkBlockedIP ip now r (security_group_id a) None) (blocked_ips a)
     else blocked_ips a) /\
  total_blocks (stats a') = total_blocks (stats a) + (if fresh then 1 else 0) /\
  ec2_client a' =
    (if dict_in ip (blocked_ips a) then ec2_client a
     else ec2_client a ++
          [authorize_security_group_ingress (security_group_id a) (cidr32 ip)]).
Proof.
  unfold block_ip_address.
  destruct (dict_in ip (blocked_ips a)); cbn.
  - repeat split; lia.
  - destruct o as [|code|]; cbn; [| destruct (String.eqb code _) |];
      cbn; repeat split; lia.
Qed.

(** A critical [take_action] acts on the registry exactly as
    [block_ip_address] does, and reports BLOCK iff it blocked. *)
Lemma take_action_CRITICAL_effect now o ip r n u a :
  (0.8 <= r)%Q ->
  let fresh := negb (dict_in ip (blocked_ips a)) && outcome_returns o in
  let a' := fst (take_action now o ip r n u a) in
  snd (take_action now o ip r n u a) = (if fresh then BLOCK else BLOCK_FAILED) /\
  blocked_ips a' =
    (if fresh
     then dict_set ip (mkBlockedIP ip now r (security_group_id a) None) (blocked_ips a)
     else blocked_ips a) /\
  total_blocks (stats a') = total_blocks (stats a) + (if fresh then 1 else 0) /\
  ec2_client a' =
    (if dict_in ip (blocked_ips a) then ec2_client a
     else ec2_client a ++
          [authorize_security_group_ingress (security_group_id a) (cidr32 ip)]).
Proof.
  intros H. rewrite (take_action_CRITICAL _ _ _ _ _ _ _ H).
  pose proof (block_ip_address_effect now o ip r n u a) as (S & B & T & E).
  cbv zeta in *.
  destruct (block_ip_address now o ip r n u a) as [a1 ok]; cbn [fst snd] in *.
  subst ok.
  destruct (negb (dict_in ip (blocked_ips a)) && outcome_returns o);
    cbn [fst snd]; auto.
Qed.

Lemma init_registry_wf now sg rg bt mi a :
  __init__ true now sg rg bt mi = Some a -> registry_wf a.
Proof. intros [= <-]. constructor. Qed.

(** C1 (as amended): two critical [take_action] calls in a row for one
    address leave exactly one entry for it iff it was blocked before
    or one of the two firewall requests returned, and none otherwise;
    together they add one to [total_blocks] iff the address was not
    blocked before and one of the requests returned, and never more
    than one.  When the first request returns, the second call
    reports BLOCK_FAILED, sends no request and leaves the entry of the
    first call as it is.  A fresh agent has, and every operation
    keeps, at most one entry per address, and [block_ip_address] on an
    address that has an entry changes nothing, issues no request and
    returns [False]. *)
Theorem block_is_idempotent :
  (forall now1 now2 o1 o2 ip r n u a,
     (0.8 <= r)%Q -> registry_wf a ->
     let a1 := fst (take_action now1 o1 ip r n u a) in
     let a2 := fst (take_action now2 o2 ip r n u a1) in
     let was_blocked := dict_in ip (blocked_ips a) in
     let accepted := outcome_returns o1 || outcome_returns o2 in
     count_entries ip (blocked_ips a2) =
       (if was_blocked || accepted then 1 else 0)%nat /\
     total_blocks (stats a2) =
       total_blocks (stats a) + (if negb was_blocked && accepted then 1 else 0)) /\
  (forall now1 now2 o2 ip r n u a,
     (0.8 <= r)%Q -> dict_in ip (blocked_ips a) = false ->
     let s1 := take_action now1 Ec2Returns ip r n u a in
     let s2 := take_action now2 o2 ip r n u (fst s1) in
     snd s1 = BLOCK /\ snd s2 = BLOCK_FAILED /\
     blocked_ips (fst s2) = blocked_ips (fst s1) /\
     dict_get ip (blocked_ips (fst s2)) =
       Some (mkBlockedIP ip now1 r (security_group_id a) None) /\
     ec2_client (fst s2) =
       ec2_client a ++
       [authorize_security_group_ingress (security_group_id a) (cidr32 ip)]) /\
  (forall now sg rg bt mi a,
     __init__ true now sg rg bt mi = Some a -> registry_wf a) /\
  (forall op a, registry_wf a -> registry_wf (run_op op a)) /\
  (forall a ip, registry_wf a -> (count_entries ip (blocked_ips a) <= 1)%nat) /\
  (forall now o ip r n u a,
     dict_in ip (blocked_ips a) = true ->
     block_ip_address now o ip r n u a = (a, false)).
Proof.
  repeat apply conj.
  - intros now1 now2 o1 o2 ip r n u a H W. cbv zeta.
    pose proof (take_action_CRITICAL_effect now1 o1 ip r n u a H) as (_ & B1 & T1 & _).
    pose proof (take_action_CRITICAL_effect now2 o2 ip r n u
                  (fst (take_action now1 o1 ip r n u a)) H) as (_ & B2 & T2 & _).
    pose proof (take_action_preserves _ registry_wf_step now1 o1 ip r n u a W) as W1.
    pose proof (take_action_preserves _ registry_wf_step now2 o2 ip r n u _ W1) as W2.
    cbv zeta in *.
    rewrite (count_entries_wf _ _ W2), T2, T1, B2, B1.
    destruct (dict_in ip (blocked_ips a)) eqn:E, (outcome_returns o1),
      (outcome_returns o2);
      cbn [negb andb orb]; rewrite ?dict_in_set_same, ?E;
      cbn [negb andb orb]; rewrite ?dict_in_set_same, ?E;
      (split; [reflexivity | lia]).
  - intros now1 now2 o2 ip r n u a H E. cbv zeta.
    pose proof (take_action_CRITICAL_effect now1 Ec2Returns ip r n u a H)
      as (A1 & B1 & _ & C1).
    pose proof (take_action_CRITICAL_effect now2 o2 ip r n u
                  (fst (take_action now1 Ec2Returns ip r n u a)) H)
      as (A2 & B2 & _ & C2).
    cbv zeta in *. rewrite E in *. cbn [negb andb outcome_returns] in *.
    rewrite B1 in A2, B2, C2. rewrite dict_in_set_same in A2, B2, C2.
    cbn [negb andb] in *.
    rewrite A1, A2, B2, C2, C1, B1, dict_get_set_same. repeat split.
  - exact init_registry_wf.
  - intros op a. apply run_op_preserves. exact registry_wf_step.
  - intros a ip W. rewrite (count_entries_wf _ _ W).
    destruct (dict_in ip (blocked_ips a)); lia.
  - intros now o ip r n u a E. unfold block_ip_address. rewrite E. reflexivity.
Qed.

(** Two critical calls whose firewall requests are both rejected, as
    with the test suite's security group, leave no entry and do not
    count a block. *)
Lemma block_twice_rejected :
  let o := Ec2ClientError "InvalidGroup.NotFound" in
  let a1 := fst (take_action 1 o example_ip 0.92 0.95 0.85 example_agent) in
  let a2 := fst (take_action 2 o example_ip 0.92 0.95 0.85 a1) in
  (0.8 <= 0.92)%Q /\
  count_entries example_ip (blocked_ips a2) = 0%nat /\
  total_blocks (stats a2) = total_blocks (stats example_agent) /\
  ~ (count_entries example_ip (blocked_ips a2) = 1%nat /\
     total_blocks (stats a2) = total_blocks (stats example_agent) + 1).
Proof.
  cbv zeta. split; [discriminate|]. split; [reflexivity|]. split; [reflexivity|].
  intros [H _]. vm_compute in H. discriminate H.
Qed.

(** Two critical calls for the test suite's address that the firewall
    accepts. *)
Lemma block_is_idempotent_witness :
  let a1 := fst (take_action 1 Ec2Returns example_ip 0.92 0.95 0.85 example_agent) in
  let a2 := fst (take_action 2 Ec2Returns example_ip 0.92 0.95 0.85 a1) in
  count_entries example_ip (blocked_ips a2) = 1%nat /\
  total_blocks (stats a2) = total_blocks (stats example_agent) + 1.
Proof.
  apply (proj1 block_is_idempotent 1 2 Ec2Returns Ec2Returns example_ip
           0.92%Q 0.95%Q 0.85%Q example_agent).
  - discriminate.
  - constructor.
Defined.

(** ** Counters *)

Lemma init_counters_consistent now sg rg bt mi a :
  __init__ true now sg rg bt mi = Some a ->
  total_blocks (stats a) = 0 /\ total_unblocks (stats a) = 0 /\
  counters_consistent a.
Proof. intros [= <-]. repeat split. Qed.

Lemma reachable_counters_consistent a : reachable a -> counters_consistent a.
Proof.
  induction 1 as [now sg rg bt mi a H|op a _ IH].
  - apply (init_counters_consistent _ _ _ _ _ _ H).
  - apply run_op_preserves; [exact counters_consistent_step | exact IH].
Qed.

(** C10: both counters start at zero with an empty registry; every
    operation of the agent keeps the number of registry entries equal
    to [total_blocks - total_unblocks]; so in every state the agent
    reaches, [get_statistics] reports [currently_blocked] equal to
    [total_blocks - total_unblocks]. *)
Theorem currently_blocked_is_blocks_minus_unblocks :
  (forall now sg rg bt mi a,
     __init__ true now sg rg bt mi = Some a ->
     total_blocks (stats a) = 0 /\ total_unblocks (stats a) = 0 /\
     counters_consistent a) /\
  (forall op a, counters_consistent a -> counters_consistent (run_op op a)) /\
  (forall a now,
     reachable a ->
     stat_currently_blocked (get_statistics now a) =
     stat_total_blocks (get_statistics now a) -
     stat_total_unblocks (get_statistics now a)).
Proof.
  repeat apply conj.
  - exact init_counters_consistent.
  - intros op a. apply run_op_preserves. exact counters_consistent_step.
  - intros a now R. exact (reachable_counters_consistent a R).
Qed.

(** The statistics of the example agent after one block. *)
Lemma currently_blocked_witness :
  stat_currently_blocked (get_statistics (seconds 5) example_blocked) =
  stat_total_blocks (get_statistics (seconds 5) example_blocked) -
  stat_total_unblocks (get_statistics (seconds 5) example_blocked).
Proof.
  apply (proj2 (proj2 currently_blocked_is_blocks_minus_unblocks)).
  apply (reachable_step
           (op_take_action 0 Ec2Returns example_ip 0.92 0.95 0.85) example_agent).
  apply (reachable_init 0 "sg-test-only" "ap-south-1" 10 60).
  reflexivity.
Defined.

(** ** Construction *)

(** C7 (as amended): the constructor inspects none of its arguments.
    Whenever the EC2 client can be created it returns an agent that
    holds the security group, region, block timeout and monitoring
    interval exactly as given, a negative monitoring interval included,
    with empty tables and zero counters; it fails only when the client
    cannot be created. *)
Theorem init_accepts_any_configuration :
  forall now sg rg bt mi,
    __init__ true now sg rg bt mi =
      Some (mkAgent sg rg bt mi [] [] [] [] (mkStats 0 0 0 0 now)) /\
    __init__ false now sg rg bt mi = None.
Proof. intros. split; reflexivity. Qed.

(** A monitoring interval of -60 seconds is accepted and stored. *)
Lemma init_accepts_negative_interval :
  -60 < 0 /\
  exists a,
    __init__ true 0 "sg-test-only" "ap-south-1" 10 (-60) = Some a /\
    monitoring_interval a = -60.
Proof. split; [lia|]. eexists. split; reflexivity. Qed.

(** ** Unblocking *)

(** C8 (as amended): on an address that has an entry,
    [unblock_ip_address] issues the revoke request; when the request
    returns it pops the entry, adds one to [total_unblocks] and returns
    [True]; when the request raises it returns [False] and leaves the
    registry and [total_unblocks] as they were.  On an address without
    an entry it returns [False] and changes nothing, issuing no
    request. *)
Theorem unblock_ip_address_spec :
  forall o ip a,
    let a' := fst (unblock_ip_address o ip a) in
    let ok := snd (unblock_ip_address o ip a) in
    let revoke :=
      revoke_security_group_ingress (security_group_id a) (cidr32 ip) in
    (dict_in ip (blocked_ips a) = true -> o = Ec2Returns ->
       ok = true /\
       blocked_ips a' = dict_pop ip (blocked_ips a) /\
       (registry_wf a -> dict_in ip (blocked_ips a') = false) /\
       (forall ip', ip' <> ip ->
          dict_get ip' (blocked_ips a') = dict_get ip' (blocked_ips a)) /\
       dict_len (blocked_ips a') = dict_len (blocked_ips a) - 1 /\
       total_unblocks (stats a') = total_unblocks (stats a) + 1 /\
       ec2_client a' = ec2_client a ++ [revoke]) /\
    (dict_in ip (blocked_ips a) = true -> o <> Ec2Returns ->
       ok = false /\
       blocked_ips a' = blocked_ips a /\
       total_unblocks (stats a') = total_unblocks (stats a) /\
       ec2_client a' = ec2_client a ++ [revoke]) /\
    (dict_in ip (blocked_ips a) = false ->
       unblock_ip_address o ip a = (a, false)).
Proof.
  intros o ip a. cbv zeta. unfold unblock_ip_address.
  destruct (dict_in ip (blocked_ips a)) eqn:E; cbn [negb].
  - repeat apply conj.
    + intros _ ->. cbn. repeat apply conj; try reflexivity.
      * intro W. apply dict_in_pop_same. exact W.
      * intros ip' Hne. apply dict_get_pop_other. exact Hne.
      * apply dict_len_pop_present. exact E.
    + intros _ Ho. destruct o; [congruence| |]; cbn; repeat split.
    + discriminate.
  - repeat apply conj; try discriminate. reflexivity.
Qed.

(** A revoke request that raises leaves the entry in place:
    [unblock_ip_address] on a blocked address returns [False]. *)
Lemma unblock_fails_when_revoke_raises :
  let r := unblock_ip_address (Ec2ClientError "RequestLimitExceeded")
             example_ip example_blocked in
  dict_in example_ip (blocked_ips example_blocked) = true /\
  snd r = false /\
  dict_in example_ip (blocked_ips (fst r)) = true /\
  total_unblocks (stats (fst r)) = total_unblocks (stats example_blocked).
Proof. cbv zeta. repeat split. Qed.

(** Unblocking the blocked example address, and an address that was
    never blocked. *)
Lemma unblock_ip_address_witness :
  let r := unblock_ip_address Ec2Returns example_ip example_blocked in
  snd r = true /\
  dict_in example_ip (blocked_ips (fst r)) = false /\
  total_unblocks (stats (fst r)) = total_unblocks (stats example_blocked) + 1 /\
  unblock_ip_address Ec2Returns "never-blocked" example_blocked =
    (example_blocked, false).
Proof.
  cbv zeta.
  destruct (unblock_ip_address_spec Ec2Returns example_ip example_blocked)
    as (S & _ & _).
  destruct (S eq_refl eq_refl) as (Hok & _ & Hin & _ & _ & Hu & _).
  destruct (unblock_ip_address_spec Ec2Returns "never-blocked" example_blocked)
    as (_ & _ & N).
  repeat apply conj.
  - exact Hok.
  - apply Hin. repeat constructor; intros [].
  - exact Hu.
  - apply N. reflexivity.
Defined.

(** ** The expiry sweep *)

Lemma dict_wf_filter {V} (f : string * V -> bool) (d : dict V) :
  dict_wf d -> dict_wf (filter f d).
Proof.
  unfold dict_wf. induction d as [|[k v] d IH]; cbn; [auto|].
  intro W. inversion W as [|? ? Hnin Wd]; subst.
  destruct (f (k, v)); [|auto].
  cbn. constructor; [|auto].
  intro H. apply Hnin. apply dict_in_keys.
  apply (dict_in_filter_incl f). apply dict_in_keys. exact H.
Qed.

Lemma dict_in_pop_other {V} k k' (d : dict V) :
  k' <> k -> dict_in k' (dict_pop k d) = dict_in k' d.
Proof. intro H. unfold dict_in. rewrite dict_get_pop_other by exact H. reflexivity. Qed.

Lemma fold_pop_revoked_cons revoke k v ks d :
  ~ In k ks ->
  fold_left (pop_revoked revoke) ks ((k, v) :: d) =
  (k, v) :: fold_left (pop_revoked revoke) ks d.
Proof.
  revert d. induction ks as [|k1 ks IH]; intros d Hnin; cbn; [reflexivity|].
  assert (Hne : k <> k1) by (intro; subst; apply Hnin; left; reflexivity).
  assert (Hnin' : ~ In k ks) by (intro; apply Hnin; right; assumption).
  unfold pop_revoked at 2 4. destruct (outcome_returns (revoke k1)).
  - cbn. destruct (String.eqb_spec k k1); [contradiction|]. apply IH, Hnin'.
  - apply IH, Hnin'.
Qed.

(** Popping the revoked ones among the keys a filter selects is
    filtering them out. *)
Lemma fold_pop_revoked_filter revoke (f : string * BlockedIP -> bool) d :
  dict_wf d ->
  fold_left (pop_revoked revoke) (map fst (filter f d)) d =
  filter (fun item => negb (f item && outcome_returns (revoke (fst item)))) d.
Proof.
  unfold dict_wf. induction d as [|[k v] d IH]; cbn; [reflexivity|].
  intro W. inversion W as [|? ? Hnin Wd]; subst.
  assert (Hks : ~ In k (map fst (filter f d))).
  { intro H. apply Hnin. apply dict_in_keys.
    apply (dict_in_filter_incl f). apply dict_in_keys. exact H. }
  destruct (f (k, v)); cbn.
  - unfold pop_revoked at 2. destruct (outcome_returns (revoke k)); cbn.
    + rewrite String.eqb_refl. apply IH, Wd.
    + rewrite fold_pop_revoked_cons by exact Hks. f_equal. apply IH, Wd.
  - rewrite fold_pop_revoked_cons by exact Hks. f_equal. apply IH, Wd.
Qed.

(** One unblock of an address that has an entry. *)
Lemma unblock_present_effect o ip a :
  dict_in ip (blocked_ips a) = true ->
  let a' := fst (unblock_ip_address o ip a) in
  blocked_ips a' = (if outcome_returns o then dict_pop ip (blocked_ips a)
                    else blocked_ips a) /\
  ec2_client a' =
    ec2_client a ++
    [revoke_security_group_ingress (security_group_id a) (cidr32 ip)] /\
  total_unblocks (stats a') =
    total_unblocks (stats a) + (if outcome_returns o then 1 else 0) /\
  security_group_id a' = security_group_id a.
Proof.
  intro E. unfold unblock_ip_address. rewrite E. cbn [negb].
  destruct o; cbn; repeat split; lia.
Qed.

(** Unblocking a list of distinct addresses that all have an entry. *)
Lemma unblock_fold_effect revoke ips a :
  NoDup ips ->
  (forall ip, In ip ips -> dict_in ip (blocked_ips a) = true) ->
  let a' :=
    fold_left (fun a ip => fst (unblock_ip_address (revoke ip) ip a)) ips a in
  blocked_ips a' = fold_left (pop_revoked revoke) ips (blocked_ips a) /\
  ec2_client a' =
    ec2_client a ++
    map (fun ip => revoke_security_group_ingress (security_group_id a) (cidr32 ip))
      ips /\
  total_unblocks (stats a') =
    total_unblocks (stats a) +
    Z.of_nat (List.length (filter (fun ip => outcome_returns (revoke ip)) ips)).
Proof.
  cbv zeta. revert a. induction ips as [|ip ips IH]; intros a ND Hin.
  - cbn. rewrite app_nil_r. repeat split. lia.
  - inversion ND as [|? ? Hnin ND']; subst.
    pose proof (unblock_present_effect (revoke ip) ip a (Hin ip (or_introl eq_refl)))
      as (B & C & U & G).
    cbv zeta in *. cbn [fold_left map filter].
    set (a1 := fst (unblock_ip_address (revoke ip) ip a)) in *.
    assert (Hin1 : forall ip', In ip' ips -> dict_in ip' (blocked_ips a1) = true).
    { intros ip' H'. rewrite B.
      assert (ip' <> ip) by (intro; subst; contradiction).
      destruct (outcome_returns (revoke ip));
        [rewrite dict_in_pop_other by assumption|]; apply Hin; right; exact H'. }
    destruct (IH a1 ND' Hin1) as (B1 & C1 & U1).
    rewrite B1, C1, U1, B, C, U, G. unfold pop_revoked.
    destruct (outcome_returns (revoke ip)); cbn [List.length];
      rewrite <- app_assoc; repeat split; lia.
Qed.

(** The sweep pops exactly the expired entries whose revoke request
    returns, sends one revoke request per expired entry, in registry
    order, and counts the entries it popped. *)
Lemma check_and_unblock_expired_effect now revoke a :
  registry_wf a ->
  let a' := check_and_unblock_expired now revoke a in
  blocked_ips a' = filter (sweep_keeps now revoke a) (blocked_ips a) /\
  ec2_client a' =
    ec2_client a ++
    map (fun ip => revoke_security_group_ingress (security_group_id a) (cidr32 ip))
      (expired_ips now a) /\
  total_unblocks (stats a') =
    total_unblocks (stats a) +
    Z.of_nat (List.length
                (filter (fun ip => outcome_returns (revoke ip)) (expired_ips now a))).
Proof.
  intro W. cbv zeta. unfold check_and_unblock_expired.
  fold (expired_ips now a).
  assert (ND : NoDup (expired_ips now a)).
  { apply (dict_wf_filter (fun item => block_expired now a (snd item))) in W.
    exact W. }
  assert (Hin : forall ip, In ip (expired_ips now a) ->
                           dict_in ip (blocked_ips a) = true).
  { intros ip H.
    apply (dict_in_filter_incl (fun item => block_expired now a (snd item))).
    apply dict_in_keys. exact H. }
  destruct (unblock_fold_effect revoke _ a ND Hin) as (B & C & U).
  rewrite B, C, U. repeat split.
  unfold expired_ips. rewrite fold_pop_revoked_filter by exact W. reflexivity.
Qed.

Lemma dict_get_In {V} k (v : V) d :
  dict_wf d -> (In (k, v) d <-> dict_get k d = Some v).
Proof.
  unfold dict_wf. induction d as [|[k' v'] d IH]; cbn.
  - intros _. split; [tauto | discriminate].
  - intro W. inversion W as [|? ? Hnin Wd]; subst.
    destruct (String.eqb_spec k' k) as [->|Hne].
    + split.
      * intros [[= ->]|H]; [reflexivity|].
        exfalso. apply Hnin. apply (in_map fst) in H. exact H.
      * intros [= ->]. left. reflexivity.
    + rewrite <- (IH Wd). split; [intros [[= ? ?]|H] | intro H]; auto.
      contradiction.
Qed.

(** The addresses the sweep hands to [unblock_ip_address] are those of
    the entries whose age exceeds the timeout. *)
Lemma expired_ips_spec now a ip :
  registry_wf a ->
  (In ip (expired_ips now a) <->
   exists b, dict_get ip (blocked_ips a) = Some b /\
             now - blocked_at b > timedelta_minutes (block_timeout_minutes a)).
Proof.
  intro W. unfold expired_ips. rewrite in_map_iff. split.
  - intros [[k b] [E H]]. cbn in E. subst k.
    apply filter_In in H. destruct H as [H X]. exists b. split.
    + apply dict_get_In; assumption.
    + unfold block_expired in X. cbn in X. lia.
  - intros [b [G X]]. exists (ip, b). split; [reflexivity|].
    apply filter_In. split.
    + apply dict_get_In; assumption.
    + unfold block_expired. cbn. lia.
Qed.

(** C4 (as amended): with a block timeout that [timedelta] can
    represent, or an empty registry, the sweep hands to
    [unblock_ip_address] exactly the entries whose age strictly exceeds
    the block timeout, sending one revoke request for each, and the
    registry keeps the entries that are not expired together with the
    expired ones whose revoke request raised; [total_unblocks] grows by
    the number of entries popped.  With a timeout of 10 minutes, an
    entry blocked at T is still in the registry after a sweep at
    T+9m59s, and after a sweep at T+10m01s it is absent provided its
    revoke request returns. *)
Theorem expiry_sweep_spec :
  forall now revoke a,
    registry_wf a ->
    sweep_returns a ->
    let a' := check_and_unblock_expired now revoke a in
    let timeout := timedelta_minutes (block_timeout_minutes a) in
    (forall ip,
       In ip (expired_ips now a) <->
       exists b, dict_get ip (blocked_ips a) = Some b /\
                 now - blocked_at b > timeout) /\
    a' = fold_left
           (fun a ip => fst (unblock_ip_address (revoke ip) ip a))
           (expired_ips now a) a /\
    blocked_ips a' = filter (sweep_keeps now revoke a) (blocked_ips a) /\
    ec2_client a' =
      ec2_client a ++
      map (fun ip => revoke_security_group_ingress (security_group_id a) (cidr32 ip))
        (expired_ips now a) /\
    total_unblocks (stats a') =
      total_unblocks (stats a) +
      Z.of_nat (List.length
                  (filter (fun ip => outcome_returns (revoke ip))
                     (expired_ips now a))) /\
    (forall ip b,
       dict_get ip (blocked_ips a) = Some b ->
       (now - blocked_at b <= timeout ->
        dict_get ip (blocked_ips a') = Some b) /\
       (now - blocked_at b > timeout -> revoke ip = Ec2Returns ->
        dict_in ip (blocked_ips a') = false) /\
       (revoke ip <> Ec2Returns -> dict_get ip (blocked_ips a') = Some b) /\
       (block_timeout_minutes a = 10 ->
        now = blocked_at b + seconds (9 * 60 + 59) ->
        dict_get ip (blocked_ips a') = Some b) /\
       (block_timeout_minutes a = 10 ->
        now = blocked_at b + seconds (10 * 60 + 1) ->
        revoke ip = Ec2Returns ->
        dict_in ip (blocked_ips a') = false)).
Proof.
  intros now revoke a W _. cbv zeta.
  destruct (check_and_unblock_expired_effect now revoke a W) as (B & C & U).
  cbv zeta in B, C, U.
  assert (Kept : forall ip b,
            dict_get ip (blocked_ips a) = Some b ->
            now - blocked_at b <= timedelta_minutes (block_timeout_minutes a) ->
            dict_get ip (blocked_ips (check_and_unblock_expired now revoke a)) = Some b).
  { intros ip b G L. rewrite B. apply dict_get_filter_kept; [exact G|].
    unfold sweep_keeps, block_expired. cbn.
    destruct (Z.gtb_spec (now - blocked_at b)
                (timedelta_minutes (block_timeout_minutes a))); [lia | reflexivity]. }
  assert (Gone : forall ip b,
            dict_get ip (blocked_ips a) = Some b ->
            now - blocked_at b > timedelta_minutes (block_timeout_minutes a) ->
            revoke ip = Ec2Returns ->
            dict_in ip (blocked_ips (check_and_unblock_expired now revoke a)) = false).
  { intros ip b G L R. rewrite B.
    apply (dict_in_filter_dropped _ ip b); [exact W | exact G |].
    unfold sweep_keeps, block_expired. cbn. rewrite R. cbn.
    destruct (Z.gtb_spec (now - blocked_at b)
                (timedelta_minutes (block_timeout_minutes a))); [reflexivity | lia]. }
  repeat apply conj.
  - intro ip. apply expired_ips_spec, W.
  - reflexivity.
  - exact B.
  - exact C.
  - exact U.
  - intros ip b G. repeat apply conj.
    + apply Kept, G.
    + apply Gone, G.
    + intro R. rewrite B. apply dict_get_filter_kept; [exact G|].
      unfold sweep_keeps. cbn.
      destruct (revoke ip); [congruence | |]; cbn; rewrite andb_false_r; reflexivity.
    + intros T N. apply (Kept ip b G). rewrite T, N.
      unfold timedelta_minutes, seconds. lia.
    + intros T N. apply (Gone ip b G). rewrite T, N.
      unfold timedelta_minutes, seconds. lia.
Qed.

(** A sweep at T+10m01s whose revoke request raises leaves the entry in
    the registry. *)
Lemma sweep_keeps_entry_when_revoke_raises :
  let T := 0 in
  let now := T + seconds (10 * 60 + 1) in
  let a' := check_and_unblock_expired now (fun _ => Ec2OtherException)
              example_blocked in
  block_timeout_minutes example_blocked = 10 /\
  (exists b, dict_get example_ip (blocked_ips example_blocked) = Some b /\
             blocked_at b = T) /\
  dict_in example_ip (blocked_ips a') = true.
Proof. cbv zeta. repeat split. eexists. split; reflexivity. Qed.

(** Sweeps at T+9m59s and at T+10m01s over an entry blocked at T = 0,
    with a revoke request that returns. *)
Lemma expiry_sweep_witness :
  let b := mkBlockedIP example_ip 0 0.92 "sg-test-only" None in
  let at_9m59s :=
    check_and_unblock_expired (0 + seconds (9 * 60 + 59)) (fun _ => Ec2Returns)
      example_blocked in
  let at_10m01s :=
    check_and_unblock_expired (0 + seconds (10 * 60 + 1)) (fun _ => Ec2Returns)
      example_blocked in
  dict_get example_ip (blocked_ips at_9m59s) = Some b /\
  dict_in example_ip (blocked_ips at_10m01s) = false.
Proof.
  cbv zeta.
  assert (W : registry_wf example_blocked)
    by (repeat constructor; intros []).
  assert (R : sweep_returns example_blocked)
    by (right; unfold timedelta_representable; cbn; lia).
  destruct (expiry_sweep_spec (0 + seconds (9 * 60 + 59)) (fun _ => Ec2Returns)
              example_blocked W R) as (_ & _ & _ & _ & _ & Early).
  destruct (expiry_sweep_spec (0 + seconds (10 * 60 + 1)) (fun _ => Ec2Returns)
              example_blocked W R) as (_ & _ & _ & _ & _ & Late).
  destruct (Early example_ip (mkBlockedIP example_ip 0 0.92 "sg-test-only" None)
              eq_refl) as (_ & _ & _ & Kept & _).
  destruct (Late example_ip (mkBlockedIP example_ip 0 0.92 "sg-test-only" None)
              eq_refl) as (_ & _ & _ & _ & Gone).
  split.
  - apply Kept; reflexivity.
  - apply Gone; reflexivity.
Defined.

(** ** Alerts *)

(** An alert-eligible [take_action] (score at least 0.4) that does not
    end in BLOCK_FAILED appends one record, whatever the history holds,
    and counts it; it counts a rate limit iff the level is HIGH. *)
Lemma take_action_alert_effect now o ip r n u a :
  (0.4 <= r)%Q ->
  snd (take_action now o ip r n u a) <> BLOCK_FAILED ->
  let a' := fst (take_action now o ip r n u a) in
  alert_history a' =
    alert_history a ++ [mkAlertRecord now ip r n u (assess_threat_level r)] /\
  total_alerts (stats a') = total_alerts (stats a) + 1 /\
  total_rate_limits (stats a') = total_rate_limits (stats a) + rate_limited_at r.
Proof.
  intros H4 NF. cbv zeta. unfold rate_limited_at.
  destruct (risk_bands r) as [L|[[M1 M2]|[[H1 H2]|C]]].
  - qabsurd.
  - rewrite take_action_MEDIUM in * by assumption.
    rewrite (proj1 (proj2 (proj2 (assess_threat_level_of_band r))) M1 M2). cbn. repeat split. lia.
  - rewrite take_action_HIGH in * by assumption.
    rewrite (proj1 (proj2 (assess_threat_level_of_band r)) H1 H2). cbn. repeat split.
  - rewrite take_action_CRITICAL in * by assumption.
    rewrite (proj1 (assess_threat_level_of_band r) C).
    unfold block_ip_address in *.
    destruct (dict_in ip (blocked_ips a)); [cbn in NF; congruence|].
    destruct o as [|code|]; cbn in *;
      [| destruct (String.eqb code _); cbn in NF; congruence | congruence].
    repeat split. lia.
Qed.

(** [create_alert] appends its alert to the history before the rate
    limiter is looked at, whatever the limit and the history are. *)
Lemma create_alert_always_recorded now smtp l f n u b p s :
  AlertSystem.alert_history (fst (AlertSystem.create_alert now smtp l f n u b p s)) =
  AlertSystem.alert_history s ++ [snd (AlertSystem.create_alert now smtp l f n u b p s)].
Proof.
  unfold AlertSystem.create_alert, AlertSystem.process_alert,
    AlertSystem.send_email_alert. cbn [fst snd].
  repeat match goal with |- context [if ?c then _ else _] => destruct c end;
    reflexivity.
Qed.

(** C3 (as amended): the agent has no alert limit and [send_alert]
    consults no rate limiter.  Three MEDIUM-or-higher [take_action]
    calls, none of which ends in BLOCK_FAILED, append exactly three
    records to the alert history, whatever the times of the calls; they
    add three to [total_alerts] and one to [total_rate_limits] per HIGH
    call.  The hourly limiter of the alert system bounds e-mails only:
    [create_alert] always appends its alert to the history. *)
Theorem alerts_are_never_rate_limited :
  (forall (e1 e2 e3 : CallEnv) ip1 ip2 ip3 r1 r2 r3 n1 n2 n3 u1 u2 u3 a,
     let s1 := take_action (call_now e1) (call_outcome e1) ip1 r1 n1 u1 a in
     let s2 := take_action (call_now e2) (call_outcome e2) ip2 r2 n2 u2 (fst s1) in
     let s3 := take_action (call_now e3) (call_outcome e3) ip3 r3 n3 u3 (fst s2) in
     (0.4 <= r1)%Q -> (0.4 <= r2)%Q -> (0.4 <= r3)%Q ->
     snd s1 <> BLOCK_FAILED -> snd s2 <> BLOCK_FAILED -> snd s3 <> BLOCK_FAILED ->
     alert_history (fst s3) =
       alert_history a ++
       [mkAlertRecord (call_now e1) ip1 r1 n1 u1 (assess_threat_level r1);
        mkAlertRecord (call_now e2) ip2 r2 n2 u2 (assess_threat_level r2);
        mkAlertRecord (call_now e3) ip3 r3 n3 u3 (assess_threat_level r3)] /\
     total_alerts (stats (fst s3)) = total_alerts (stats a) + 3 /\
     total_rate_limits (stats (fst s3)) =
       total_rate_limits (stats a) +
       rate_limited_at r1 + rate_limited_at r2 + rate_limited_at r3) /\
  (forall now smtp l f n u b p s,
     AlertSystem.alert_history
       (fst (AlertSystem.create_alert now smtp l f n u b p s)) =
     AlertSystem.alert_history s ++
     [snd (AlertSystem.create_alert now smtp l f n u b p s)]).
Proof.
  split; [|exact create_alert_always_recorded].
  intros e1 e2 e3 ip1 ip2 ip3 r1 r2 r3 n1 n2 n3 u1 u2 u3 a.
  cbv zeta. intros R1 R2 R3 F1 F2 F3.
  destruct (take_action_alert_effect _ _ _ _ _ _ _ R1 F1) as (A1 & T1 & L1).
  destruct (take_action_alert_effect _ _ _ _ _ _ _ R2 F2) as (A2 & T2 & L2).
  destruct (take_action_alert_effect _ _ _ _ _ _ _ R3 F3) as (A3 & T3 & L3).
  cbv zeta in *.
  rewrite A3, A2, A1, T3, T2, T1, L3, L2, L1.
  rewrite <- !app_assoc. cbn [app]. repeat split; lia.
Qed.

(** Three alert-eligible actions within one clock hour leave three
    records in the alert history, not two; so do three alerts of the
    alert system configured with a limit of two per hour. *)
Lemma three_alerts_in_one_hour :
  let a1 := fst (take_action (seconds 60) Ec2Returns "10.0.2.2" 0.5 0.55 0.45
                   example_agent) in
  let a2 := fst (take_action (seconds 120) Ec2Returns "10.0.2.3" 0.7 0.8 0.55 a1) in
  let a3 := fst (take_action (seconds 180) Ec2Returns "10.0.2.2" 0.5 0.55 0.45 a2) in
  let s0 := AlertSystem.mkAlertSystem (AlertSystem.mkConfig true 0.6 2) [] [] in
  let s1 := fst (AlertSystem.create_alert (seconds 60) true HIGH 0.7 0.8 0.55 0 0 s0) in
  let s2 := fst (AlertSystem.create_alert (seconds 120) true HIGH 0.7 0.8 0.55 0 0 s1) in
  let s3 := fst (AlertSystem.create_alert (seconds 180) true HIGH 0.7 0.8 0.55 0 0 s2) in
  AlertSystem.hour_start (seconds 60) = AlertSystem.hour_start (seconds 180) /\
  List.length (alert_history a3) = 3%nat /\
  List.length (alert_history a3) <> 2%nat /\
  total_alerts (stats a3) = 3 /\
  total_rate_limits (stats a3) = 1 /\
  List.length (AlertSystem.alert_history s3) = 3%nat.
Proof. cbv zeta. repeat split. vm_compute. discriminate. Qed.

(** A MEDIUM, a HIGH and a CRITICAL action within three minutes. *)
Lemma alerts_are_never_rate_limited_witness :
  let e1 := mkCallEnv (seconds 60) Ec2Returns in
  let e2 := mkCallEnv (seconds 120) Ec2Returns in
  let e3 := mkCallEnv (seconds 180) Ec2Returns in
  let s1 := take_action (call_now e1) (call_outcome e1) "10.0.2.2" 0.5 0.55 0.45
              example_agent in
  let s2 := take_action (call_now e2) (call_outcome e2) "10.0.2.3" 0.7 0.8 0.55
              (fst s1) in
  let s3 := take_action (call_now e3) (call_outcome e3) example_ip 0.92 0.95 0.85
              (fst s2) in
  total_alerts (stats (fst s3)) = total_alerts (stats example_agent) + 3 /\
  total_rate_limits (stats (fst s3)) =
    total_rate_limits (stats example_agent) +
    rate_limited_at 0.5 + rate_limited_at 0.7 + rate_limited_at 0.92.
Proof.
  cbv zeta.
  apply (proj1 alerts_are_never_rate_limited
           (mkCallEnv (seconds 60) Ec2Returns)
           (mkCallEnv (seconds 120) Ec2Returns)
           (mkCallEnv (seconds 180) Ec2Returns)
           "10.0.2.2"%string "10.0.2.3"%string example_ip 0.5%Q 0.7%Q 0.92%Q
           0.55%Q 0.8%Q 0.95%Q 0.45%Q 0.55%Q 0.85%Q example_agent);
    discriminate.
Defined.

(** ** The monitoring cycle *)

(** The loop body reads its signals, then acts; it raises iff reading
    the signals raises. *)
Lemma cycle_body_signals f env users net a :
  cycle_body f env users net a =
  match entry_signals users net with
  | inl e => inl e
  | inr (ip, network_risk, user_risk) =>
      inr (fst (take_action (call_now env) (call_outcome env) ip
                  (fst (f network_risk user_risk)) network_risk user_risk a),
           (ip, snd (take_action (call_now env) (call_outcome env) ip
                       (fst (f network_risk user_risk)) network_risk user_risk a)))
  end.
Proof.
  unfold cycle_body, entry_signals, bind.
  destruct (getitem "ip" (net_ip net)) as [e|ip]; [reflexivity|].
  destruct (getitem "network_risk" (net_network_risk net)) as [e|nr]; [reflexivity|].
  destruct (next_matching_user ip users) as [e|mu]; [reflexivity|].
  destruct (user_risk_of mu) as [e|ur]; [reflexivity|].
  cbn. destruct (f nr ur) as [fr lv]. cbn.
  destruct (take_action (call_now env) (call_outcome env) ip fr nr ur a).
  reflexivity.
Qed.







(** ** Unmatched entities *)

Lemma next_matching_user_none ip users :
  (forall u, In u users -> exists u_ip, user_ip u = Some u_ip /\ u_ip <> ip) ->
  next_matching_user ip users = ret None.
Proof.
  induction users as [|u users IH]; intro H; cbn; [reflexivity|].
  destruct (H u (or_introl eq_refl)) as [u_ip [E Hne]]. rewrite E. cbn.
  destruct (String.eqb_spec u_ip ip); [contradiction|].
  apply IH. intros u' Hu'. apply H. right. exact Hu'.
Qed.

(** C9 (as amended): for a network result whose address no behaviour
    result carries, no user is matched and the user risk handed to the
    fusion function and to [take_action] is the fallback 0.1; whenever
    the fused risk is below 0.4 the action is LOG and the agent is left
    exactly as it was: registry, alert history and counters included.
    With a network risk of 0.5 the code computes the fused risk
    0.33999999999999997, within 2^-54 of 0.34; it is below 0.4, its
    level is LOW and [take_action] takes its LOG branch, as it does
    for the 0.34 of exact arithmetic. *)
Theorem unmatched_entity_is_logged :
  forall env users net ip network_risk a,
    net_ip net = Some ip ->
    net_network_risk net = Some network_risk ->
    (forall u, In u users -> exists u_ip, user_ip u = Some u_ip /\ u_ip <> ip) ->
    next_matching_user ip users = ret None /\
    user_risk_of None = ret 0.1%Q /\
    (forall f,
       cycle_body f env users net a =
       ret (fst (take_action (call_now env) (call_outcome env) ip
                   (fst (f network_risk 0.1%Q)) network_risk 0.1%Q a),
            (ip, snd (take_action (call_now env) (call_outcome env) ip
                        (fst (f network_risk 0.1%Q)) network_risk 0.1%Q a)))) /\
    (forall f,
       (fst (f network_risk 0.1%Q) < 0.4)%Q ->
       cycle_body f env users net a = ret (a, (ip, LOG)) /\
       cycle_loop f (fun _ => env) 0%nat users [net] a = (a, [(ip, LOG)], None)) /\
    (Binary64.combine_risks 0.5 0.1 = (0.33999999999999997%float, LOW) /\
     (abs (0.33999999999999997 - 0.34) <=? 0x1p-54)%float = true /\
     (0.33999999999999997 <? 0.4)%float = true /\
     Binary64.assess_threat_level 0.33999999999999997 = LOW /\
     Binary64.take_action_branch 0.33999999999999997 = LOW) /\
    ((network_risk == 0.5)%Q ->
     snd (combine_risks network_risk 0.1) = LOW /\
     assess_threat_level (fst (combine_risks network_risk 0.1)) = LOW /\
     cycle_body combine_risks env users net a = ret (a, (ip, LOG)) /\
     cycle_loop combine_risks (fun _ => env) 0%nat users [net] a =
       (a, [(ip, LOG)], None)).
Proof.
  intros env users net ip nr a Hip Hnr Hu.
  assert (S : entry_signals users net = ret (ip, nr, 0.1%Q)).
  { unfold entry_signals. rewrite Hip, Hnr. cbn.
    rewrite (next_matching_user_none ip users Hu). reflexivity. }
  assert (Low : forall f,
            (fst (f nr 0.1%Q) < 0.4)%Q ->
            cycle_body f env users net a = ret (a, (ip, LOG)) /\
            cycle_loop f (fun _ => env) 0%nat users [net] a =
              (a, [(ip, LOG)], None)).
  { intros f L.
    assert (B : cycle_body f env users net a = ret (a, (ip, LOG))).
    { rewrite cycle_body_signals, S. unfold ret.
      rewrite take_action_LOW by exact L. reflexivity. }
    split; [exact B|]. cbn [cycle_loop]. rewrite B. reflexivity. }
  split; [exact (next_matching_user_none ip users Hu)|].
  split; [reflexivity|].
  split; [intro f; rewrite cycle_body_signals, S; reflexivity|].
  split; [exact Low|].
  split; [repeat split|].
  intro E.
  assert (F : (fst (combine_risks nr 0.1) == 0.34)%Q).
  { unfold combine_risks; cbn [fst]. rewrite E. reflexivity. }
  assert (L : (fst (combine_risks nr 0.1) < 0.4)%Q)
    by (rewrite F; reflexivity).
  repeat apply conj.
  - apply combine_risks_level. apply Qlt_le_weak. exact L.
  - apply assess_threat_level_of_band. exact L.
  - apply (Low combine_risks L).
  - apply (Low combine_risks L).
Qed.

(** The fused risk the code computes for 0.5 and the fallback 0.1 is
    not 0.34. *)
Lemma unmatched_final_risk_is_rounded :
  fst (Binary64.combine_risks 0.5 0.1) = 0.33999999999999997%float /\
  (fst (Binary64.combine_risks 0.5 0.1) =? 0.34)%float = false /\
  (0.6 * 0.5 + 0.4 * 0.1 == 0.34)%Q.
Proof. repeat split. Qed.

(** The end-to-end scenario: entity X with network risk 0.5 and no
    behaviour result of its own. *)
Lemma unmatched_entity_witness :
  let net := mkNetworkResult (Some "X"%string) (Some 0.5%Q) in
  let users := [mkUserResult (Some "Y"%string) (Some 0.9%Q)] in
  let env := mkCallEnv (seconds 60) Ec2Returns in
  next_matching_user "X" users = ret None /\
  cycle_body combine_risks env users net example_blocked =
    ret (example_blocked, ("X"%string, LOG)).
Proof.
  cbv zeta.
  destruct (unmatched_entity_is_logged (mkCallEnv (seconds 60) Ec2Returns)
              [mkUserResult (Some "Y"%string) (Some 0.9%Q)]
              (mkNetworkResult (Some "X"%string) (Some 0.5%Q))
              "X"%string 0.5%Q example_blocked eq_refl eq_refl)
    as (S & _ & _ & _ & _ & R).
  - intros u [<-|[]]. exists "Y"%string. split; [reflexivity | discriminate].
  - destruct (R (Qeq_refl 0.5)) as (_ & _ & B & _).
    split; assumption.
Defined.

(** ** The boundary cases in binary64 arithmetic *)

(** In binary64 arithmetic the two boundary evaluations of the fusion
    function give exactly 0.6 with MEDIUM and 0.4 with LOW; the fusion
    of 0.5 and the fallback 0.1 is within 2^-54 of 0.34, its level is
    LOW and [take_action] takes its LOG branch; the fusion of 0.95 and
    0.8 is 0.89, CRITICAL. *)
Lemma binary64_boundary_cases :
  Binary64.combine_risks 1 0 = (0.6%float, MEDIUM) /\
  Binary64.combine_risks 0 1 = (0.4%float, LOW) /\
  snd (Binary64.combine_risks 0.5 0.1) = LOW /\
  (abs (fst (Binary64.combine_risks 0.5 0.1) - 0.34) <=? 0x1p-54)%float = true /\
  Binary64.take_action_branch (fst (Binary64.combine_risks 0.5 0.1)) = LOW /\
  Binary64.combine_risks 0.95 0.8 = (0.89%float, CRITICAL) /\
  Binary64.take_action_branch (fst (Binary64.combine_risks 0.95 0.8)) = CRITICAL.
Proof. repeat split. Qed.

(** The test suite's table for the classifier, in binary64. *)
Lemma binary64_test_table :
  map Binary64.assess_threat_level
    [0.1; 0.3; 0.45; 0.6; 0.75; 0.8; 0.95; 1]%float =
  [LOW; LOW; MEDIUM; HIGH; HIGH; CRITICAL; CRITICAL; CRITICAL].
Proof. reflexivity. Qed.

(** ** The two sets of thresholds *)


(** ** The action table *)

(** X2: for a score that is a number [take_action] selects its action
    by the level [assess_threat_level] gives the score: LOG and no
    change for LOW, an alert for MEDIUM, a rate limit and an alert for
    HIGH, and for CRITICAL a block attempt, with an alert iff it
    blocked; on binary64 scores the branch taken is that of the level
    for every score but NaN.  A NaN score fails every comparison: the
    classifier calls it LOW and [take_action] takes its [else] branch,
    the block. *)
Theorem take_action_follows_level :
  (forall now o ip r n u a,
     match assess_threat_level r with
     | LOW => take_action now o ip r n u a = (a, LOG)
     | MEDIUM =>
         take_action now o ip r n u a = (send_alert now ip r n u MEDIUM a, ALERT)
     | HIGH =>
         take_action now o ip r n u a =
         (send_alert now ip r n u HIGH (simulate_rate_limiting now ip r a),
          RATE_LIMIT)
     | CRITICAL =>
         take_action now o ip r n u a =
         (if snd (block_ip_address now o ip r n u a)
          then (send_alert now ip r n u CRITICAL
                  (fst (block_ip_address now o ip r n u a)), BLOCK)
          else (fst (block_ip_address now o ip r n u a), BLOCK_FAILED))
     end) /\
  (forall r : float,
     is_nan r = false ->
     Binary64.take_action_branch r = Binary64.assess_threat_level r) /\
  (forall r : float,
     is_nan r = true ->
     Binary64.assess_threat_level r = LOW /\
     Binary64.take_action_branch r = CRITICAL).
Proof.
  split; [|split; [exact binary64_branch_of_number | exact binary64_branch_of_nan]].
  intros now o ip r n u a.
  destruct (risk_bands r) as [L|[[M1 M2]|[[H1 H2]|C]]].
  - rewrite (proj2 (proj2 (proj2 (assess_threat_level_of_band r))) L).
    apply take_action_LOW, L.
  - rewrite (proj1 (proj2 (proj2 (assess_threat_level_of_band r))) M1 M2).
    apply take_action_MEDIUM; assumption.
  - rewrite (proj1 (proj2 (assess_threat_level_of_band r)) H1 H2).
    apply take_action_HIGH; assumption.
  - rewrite (proj1 (assess_threat_level_of_band r) C).
    rewrite take_action_CRITICAL by exact C.
    destruct (block_ip_address now o ip r n u a) as [a1 [|]]; reflexivity.
Qed.

(** The branch of a score of 0.7 and that of NaN. *)
Lemma take_action_follows_level_witness :
  Binary64.take_action_branch 0.7 = Binary64.assess_threat_level 0.7 /\
  Binary64.take_action_branch nan = CRITICAL.
Proof.
  split.
  - apply (proj1 (proj2 take_action_follows_level) 0.7%float). reflexivity.
  - apply (proj2 (proj2 take_action_follows_level) nan). reflexivity.
Defined.

(** The end-to-end scenario of the specification: network risk 0.95
    and user risk 0.8 fuse to 0.89, CRITICAL; when the firewall accepts
    the request the action is BLOCK, the registry gains one entry and
    one alert is recorded. *)
Lemma critical_scenario :
  let env :=
    mkCycleEnv (fun _ => mkCallEnv (seconds 30) Ec2Returns) (seconds 31)
      (fun _ => Ec2Returns) in
  let nets := [mkNetworkResult (Some example_ip) (Some 0.95%Q)] in
  let users := [mkUserResult (Some example_ip) (Some 0.8%Q)] in
  let result :=
    run_monitoring_cycle env (inr nets) (inr users) combine_risks example_agent in
  (fst (combine_risks 0.95 0.8) == 0.89)%Q /\
  snd (combine_risks 0.95 0.8) = CRITICAL /\
  snd result = None /\
  snd (fst result) = [(example_ip, BLOCK)] /\
  dict_keys (blocked_ips (fst (fst result))) = [example_ip] /\
  List.length (alert_history (fst (fst result))) = 1%nat /\
  total_blocks (stats (fst (fst result))) = 1 /\
  total_alerts (stats (fst (fst result))) = 1.
Proof. cbv zeta. repeat split. Qed.

(** ** The e-mail rate limiter *)

Lemma hour_start_bounds now :
  AlertSystem.hour_start now <= now < AlertSystem.hour_start now + 3600000000.
Proof.
  unfold AlertSystem.hour_start.
  pose proof (Z.mod_pos_bound now 3600000000). lia.
Qed.

(** X3: [create_alert] hands an e-mail to the SMTP server iff the risk
    reaches the e-mail threshold, e-mail is enabled, the SMTP calls
    return, and the alerts of the history that reach the threshold and
    are stamped in the clock hour of the rate limiter's own reading of
    the clock are fewer than [max_emails_per_hour]; the new alert,
    already in the history, is among them iff its stamp is of that
    hour.  The hour is the wall-clock hour: an alert stamped in the
    last minute of an hour is not counted two minutes later.  With a
    limit of one, an alert stamped and checked in the same hour is
    never mailed, and one stamped just before the hour tick and
    checked just after it is.  With a limit of two, three HIGH alerts
    within one hour send one e-mail. *)
Theorem create_alert_email :
  (forall now check_now smtp l f n u b p s,
     let r := AlertSystem.create_alert_at now check_now smtp l f n u b p s in
     let cfg := AlertSystem.config s in
     AlertSystem.emails_sent (fst r) =
     AlertSystem.emails_sent s ++
     (if Qgeb f (AlertSystem.email_threshold cfg) &&
         AlertSystem.email_enabled cfg &&
         (Z.of_nat (List.length (AlertSystem.recent_emails check_now s)) +
          (if now >=? AlertSystem.hour_start check_now then 1 else 0) <?
          AlertSystem.max_emails_per_hour cfg) &&
         smtp
      then [snd r] else [])) /\
  (forall now smtp l f n u b p s,
     AlertSystem.create_alert_at now now smtp l f n u b p s =
     AlertSystem.create_alert now smtp l f n u b p s) /\
  (let s0 := AlertSystem.mkAlertSystem (AlertSystem.mkConfig true 0.6 1) [] [] in
   AlertSystem.emails_sent
     (fst (AlertSystem.create_alert_at (seconds 3599) (seconds 3599) true HIGH
             0.7 0.8 0.55 0 0 s0)) = [] /\
   List.length
     (AlertSystem.emails_sent
        (fst (AlertSystem.create_alert_at (seconds 3599) (seconds 3601) true HIGH
                0.7 0.8 0.55 0 0 s0))) = 1%nat) /\
  (let s0 := AlertSystem.mkAlertSystem (AlertSystem.mkConfig true 0.6 2) [] [] in
   let late := fst (AlertSystem.create_alert_at (seconds 3599) (seconds 3599) true
                      HIGH 0.7 0.8 0.55 0 0 s0) in
   let s1 := fst (AlertSystem.create_alert_at (seconds 60) (seconds 61) true HIGH
                    0.7 0.8 0.55 0 0 s0) in
   let s2 := fst (AlertSystem.create_alert_at (seconds 120) (seconds 121) true HIGH
                    0.7 0.8 0.55 0 0 s1) in
   let s3 := fst (AlertSystem.create_alert_at (seconds 180) (seconds 181) true HIGH
                    0.7 0.8 0.55 0 0 s2) in
   AlertSystem.recent_emails (seconds 3601) late = [] /\
   List.length (AlertSystem.emails_sent s3) = 1%nat).
Proof.
  split; [|split; [reflexivity | split; cbv zeta; split; reflexivity]].
  intros now check_now smtp l f n u b p s. cbv zeta.
  unfold AlertSystem.create_alert_at, AlertSystem.process_alert,
    AlertSystem.send_email_alert, AlertSystem.check_rate_limit,
    AlertSystem.recent_emails.
  cbn [fst snd AlertSystem.config AlertSystem.alert_history
       AlertSystem.emails_sent AlertSystem.final_risk AlertSystem.timestamp].
  destruct (Qgeb f (AlertSystem.email_threshold (AlertSystem.config s))) eqn:T;
    cbn [andb]; [|rewrite app_nil_r; reflexivity].
  destruct (AlertSystem.email_enabled (AlertSystem.config s));
    cbn [andb]; [|rewrite app_nil_r; reflexivity].
  rewrite filter_app, length_app. cbn [filter AlertSystem.timestamp
    AlertSystem.final_risk]. rewrite T, andb_true_r.
  rewrite Nat2Z.inj_add.
  destruct (now >=? AlertSystem.hour_start check_now);
    cbn [List.length Z.of_nat Pos.of_succ_nat];
    (destruct (_ <? _); cbn [negb andb]; [|rewrite app_nil_r; reflexivity];
     destruct smtp; [reflexivity | rewrite app_nil_r; reflexivity]).
Qed.

(** ** Induction over the operations *)

(** A property kept by the four methods that write the agent is kept by
    every operation. *)
Section Primitives.
Variable P : AutonomousResponseAgent -> Prop.
Hypothesis P_send_alert :
  forall now ip r n u l a, P a -> P (send_alert now ip r n u l a).
Hypothesis P_simulate_rate_limiting :
  forall now ip r a, P a -> P (simulate_rate_limiting now ip r a).
Hypothesis P_block_ip_address :
  forall now o ip r n u a, P a -> P (fst (block_ip_address now o ip r n u a)).
Hypothesis P_unblock_ip_address :
  forall o ip a, P a -> P (fst (unblock_ip_address o ip a)).

Lemma take_action_keeps now o ip r n u a :
  P a -> P (fst (take_action now o ip r n u a)).
Proof.
  intro H.
  destruct (risk_bands r) as [L|[[M1 M2]|[[H1 H2]|C]]].
  - rewrite take_action_LOW by assumption. exact H.
  - rewrite take_action_MEDIUM by assumption. apply P_send_alert, H.
  - rewrite take_action_HIGH by assumption.
    apply P_send_alert, P_simulate_rate_limiting, H.
  - rewrite take_action_CRITICAL by assumption.
    pose proof (P_block_ip_address now o ip r n u a H) as B.
    destruct (block_ip_address now o ip r n u a) as [a1 [|]]; cbn [fst] in *.
    + apply P_send_alert, B.
    + exact B.
Qed.

Lemma unblock_fold_keeps (revoke : string -> Ec2Outcome) ips a :
  P a ->
  P (fold_left
       (fun a ip => fst (unblock_ip_address (revoke ip) ip a)) ips a).
Proof.
  revert a. induction ips as [|ip ips IH]; intros a H; cbn; [exact H|].
  apply IH, P_unblock_ip_address, H.
Qed.

Lemma check_and_unblock_expired_keeps now revoke a :
  P a -> P (check_and_unblock_expired now revoke a).
Proof. intro H. unfold check_and_unblock_expired. apply unblock_fold_keeps, H. Qed.

Lemma cycle_loop_keeps f env i users nets a :
  P a -> P (fst (fst (cycle_loop f env i users nets a))).
Proof.
  revert i a. induction nets as [|net nets IH]; intros i a H; cbn; [exact H|].
  rewrite cycle_body_signals.
  destruct (entry_signals users net) as [e|[[ip nr] ur]]; cbn; [exact H|].
  specialize (IH (S i) _
                (take_action_keeps (call_now (env i)) (call_outcome (env i)) ip
                   (fst (f nr ur)) nr ur a H)).
  destruct (cycle_loop f env (S i) users nets _) as [[a2 dones] e].
  exact IH.
Qed.

Lemma run_monitoring_cycle_keeps env ids ueba f a :
  P a -> P (fst (fst (run_monitoring_cycle env ids ueba f a))).
Proof.
  intro H. unfold run_monitoring_cycle.
  destruct ids as [e|nets]; [exact H|].
  destruct ueba as [e|users]; [exact H|].
  pose proof (cycle_loop_keeps f (entry_env env) 0%nat users nets a H) as L.
  destruct (cycle_loop f (entry_env env) 0%nat users nets a) as [[a1 dones] [e|]];
    cbn [fst] in *; [exact L|].
  apply check_and_unblock_expired_keeps, L.
Qed.

Lemma run_op_keeps op a : P a -> P (run_op op a).
Proof.
  intro H. destruct op; cbn [run_op].
  - exact H.
  - apply P_send_alert, H.
  - apply P_simulate_rate_limiting, H.
  - apply P_block_ip_address, H.
  - apply P_unblock_ip_address, H.
  - apply check_and_unblock_expired_keeps, H.
  - apply take_action_keeps, H.
  - apply run_monitoring_cycle_keeps, H.
Qed.

Lemma reachable_keeps :
  (forall now sg rg bt mi a, __init__ true now sg rg bt mi = Some a -> P a) ->
  forall a, reachable a -> P a.
Proof.
  intros I a R. induction R as [now sg rg bt mi a H|op a _ IH].
  - exact (I _ _ _ _ _ _ H).
  - apply run_op_keeps, IH.
Qed.

End Primitives.

(** ** More facts about dictionaries *)

Lemma dict_keys_set_present {V} k (v : V) d :
  dict_in k d = true -> dict_keys (dict_set k v d) = dict_keys d.
Proof.
  unfold dict_in, dict_keys. induction d as [|[k' v'] d IH]; cbn; [discriminate|].
  destruct (String.eqb k' k); cbn; [reflexivity|].
  intro H. rewrite (IH H). reflexivity.
Qed.

Lemma dict_wf_set {V} k (v : V) d : dict_wf d -> dict_wf (dict_set k v d).
Proof.
  intro W. destruct (dict_in k d) eqn:E.
  - unfold dict_wf. rewrite (dict_keys_set_present _ _ _ E). exact W.
  - apply dict_wf_set_absent; assumption.
Qed.

Lemma dict_len_keys {V} (d : dict V) :
  dict_len d = Z.of_nat (List.length (dict_keys d)).
Proof. unfold dict_len, dict_keys. rewrite length_map. reflexivity. Qed.

Lemma dict_len_set {V} k (v : V) d :
  dict_len (dict_set k v d) = dict_len d + (if dict_in k d then 0 else 1).
Proof.
  destruct (dict_in k d) eqn:E.
  - rewrite !dict_len_keys, (dict_keys_set_present _ _ _ E). lia.
  - apply dict_len_set_absent, E.
Qed.

Lemma dict_in_set_keeps {V} k k' (v : V) d :
  dict_in k' d = true -> dict_in k' (dict_set k v d) = true.
Proof.
  intro H. destruct (dict_in k d) eqn:E.
  - apply dict_in_keys. rewrite (dict_keys_set_present _ _ _ E).
    apply dict_in_keys, H.
  - rewrite (dict_set_absent _ _ _ E). apply dict_in_keys.
    unfold dict_keys. rewrite map_app. apply in_or_app. left.
    apply dict_in_keys, H.
Qed.

Lemma dict_pop_incl {V} k (item : string * V) d :
  In item (dict_pop k d) -> In item d.
Proof.
  induction d as [|[k' v'] d IH]; cbn; [tauto|].
  destruct (String.eqb k' k); cbn; [auto|].
  intros [E|H]; auto.
Qed.

(** ** Operations only extend the agent *)

Lemma continues_refl a : continues a a.
Proof.
  unfold continues. repeat split; try lia; try (exists []; rewrite app_nil_r; reflexivity).
  auto.
Qed.

Lemma continues_trans a b c : continues a b -> continues b c -> continues a c.
Proof.
  unfold continues.
  intros (S1 & R1 & B1 & M1 & T1 & K1 & U1 & A1 & L1 & [h1 H1] & [q1 Q1] & X1)
         (S2 & R2 & B2 & M2 & T2 & K2 & U2 & A2 & L2 & [h2 H2] & [q2 Q2] & X2).
  repeat split; try congruence; try lia.
  - exists (h1 ++ h2). rewrite H2, H1, app_assoc. reflexivity.
  - exists (q1 ++ q2). rewrite Q2, Q1, app_assoc. reflexivity.
  - auto.
Qed.

Lemma send_alert_continues now ip r n u l a :
  continues a (send_alert now ip r n u l a).
Proof.
  unfold continues. cbn. repeat split; try lia; eauto.
  exists []. rewrite app_nil_r. reflexivity.
Qed.

Lemma simulate_rate_limiting_continues now ip r a :
  continues a (simulate_rate_limiting now ip r a).
Proof.
  unfold continues. cbn. repeat split; try lia;
    try (exists []; rewrite app_nil_r; reflexivity).
  intros k H. apply dict_in_set_keeps, H.
Qed.

Lemma block_ip_address_continues now o ip r n u a :
  continues a (fst (block_ip_address now o ip r n u a)).
Proof.
  unfold block_ip_address.
  destruct (dict_in ip (blocked_ips a)); [apply continues_refl|].
  unfold continues.
  destruct o as [|code|]; [| destruct (String.eqb code _) |]; cbn;
    repeat split; try lia; eauto; exists []; rewrite app_nil_r; reflexivity.
Qed.

Lemma unblock_ip_address_continues o ip a :
  continues a (fst (unblock_ip_address o ip a)).
Proof.
  unfold unblock_ip_address.
  destruct (dict_in ip (blocked_ips a)); cbn [negb]; [|apply continues_refl].
  unfold continues.
  destruct o; cbn; repeat split; try lia; eauto;
    exists []; rewrite app_nil_r; reflexivity.
Qed.

Lemma operations_continue_aux op a : continues a (run_op op a).
Proof.
  apply (run_op_keeps (continues a)); try apply continues_refl;
    intros; eapply continues_trans; try eassumption.
  - apply send_alert_continues.
  - apply simulate_rate_limiting_continues.
  - apply block_ip_address_continues.
  - apply unblock_ip_address_continues.
Qed.

(** X4: no operation undoes what the agent recorded: the configuration and
    the start time stay as constructed, the four counters never
    decrease, the alert history and the log of firewall requests only
    grow at their end, and an address once in the rate-limit table is
    never taken out of it. *)
Theorem operations_continue :
  forall op a, continues a (run_op op a).
Proof.
  intros op a. revert op.
  assert (K : forall a', continues a a' -> forall op, continues a (run_op op a')).
  { intros a' H op. revert a' H. apply run_op_keeps; intros;
      eapply continues_trans; try eassumption.
    - apply send_alert_continues.
    - apply simulate_rate_limiting_continues.
    - apply block_ip_address_continues.
    - apply unblock_ip_address_continues. }
  apply K, continues_refl.
Qed.

(** ** The alert counter *)

(** X5: [total_alerts] is the length of the alert history: at construction
    both are zero, every operation keeps them equal, and
    [get_statistics] reports the length of the history as
    [total_alerts] in every state the agent reaches. *)
Theorem total_alerts_is_history_length :
  (forall now sg rg bt mi a,
     __init__ true now sg rg bt mi = Some a ->
     alert_history a = [] /\ alerts_counted a) /\
  (forall op a, alerts_counted a -> alerts_counted (run_op op a)) /\
  (forall a now,
     reachable a ->
     stat_total_alerts (get_statistics now a) =
     Z.of_nat (List.length (alert_history a))).
Proof.
  assert (Init : forall now sg rg bt mi a,
            __init__ true now sg rg bt mi = Some a ->
            alert_history a = [] /\ alerts_counted a)
    by (intros now sg rg bt mi a [= <-]; split; reflexivity).
  assert (Step : forall op a, alerts_counted a -> alerts_counted (run_op op a)).
  { intro op. apply run_op_keeps; unfold alerts_counted.
    - intros now ip r n u l a H. cbn. rewrite length_app. cbn. lia.
    - intros now ip r a H. exact H.
    - intros now o ip r n u a H. unfold block_ip_address.
      destruct (dict_in ip (blocked_ips a)); [exact H|].
      destruct o as [|code|]; [| destruct (String.eqb code _) |]; exact H.
    - intros o ip a H. unfold unblock_ip_address.
      destruct (dict_in ip (blocked_ips a)); [|exact H].
      destruct o; exact H. }
  repeat apply conj; [exact Init | exact Step |].
  intros a now R. cbn. symmetry.
  induction R as [now' sg rg bt mi a H|op a _ IH].
  - apply (Init _ _ _ _ _ _ H).
  - apply Step, IH.
Qed.

(** The alerts of a fresh agent after one MEDIUM action. *)
Lemma total_alerts_witness :
  stat_total_alerts
    (get_statistics (seconds 9)
       (run_op (op_take_action (seconds 5) Ec2Returns example_ip 0.5 0.5 0.5)
          example_agent)) = 1.
Proof.
  rewrite (proj2 (proj2 total_alerts_is_history_length)).
  - reflexivity.
  - apply reachable_step.
    apply (reachable_init 0 "sg-test-only" "ap-south-1" 10 60). reflexivity.
Defined.

(** ** The log of firewall requests *)

Lemma requests_consistent_block now o ip r n u a :
  requests_consistent a ->
  requests_consistent (fst (block_ip_address now o ip r n u a)).
Proof.
  unfold requests_consistent, block_ip_address. intros (F & B & U).
  destruct (dict_in ip (blocked_ips a)); [auto|].
  assert (F' : Forall (request_of_agent a)
                 (ec2_client a ++
                  [authorize_security_group_ingress (security_group_id a) (cidr32 ip)])).
  { apply Forall_app. split; [exact F|]. constructor; [|constructor].
    exists ip. left. reflexivity. }
  destruct o as [|code|]; [| destruct (String.eqb code _) |]; cbn;
    rewrite !filter_app, !length_app; cbn; (split; [exact F' | split; lia]).
Qed.

Lemma requests_consistent_unblock o ip a :
  requests_consistent a ->
  requests_consistent (fst (unblock_ip_address o ip a)).
Proof.
  unfold requests_consistent, unblock_ip_address. intros (F & B & U).
  destruct (dict_in ip (blocked_ips a)); cbn [negb]; [|auto].
  assert (F' : Forall (request_of_agent a)
                 (ec2_client a ++
                  [revoke_security_group_ingress (security_group_id a) (cidr32 ip)])).
  { apply Forall_app. split; [exact F|]. constructor; [|constructor].
    exists ip. right. reflexivity. }
  destruct o; cbn; rewrite !filter_app, !length_app; cbn;
    (split; [exact F' | split; lia]).
Qed.

(** X6: every firewall request the agent has sent names its own security
    group and a single address ([/32]); it has counted no more blocks
    than it sent authorize requests and no more unblocks than it sent
    revoke requests.  This holds at construction, is kept by every
    operation, and so holds in every state the agent reaches. *)
Theorem firewall_requests_consistent :
  (forall op a, requests_consistent a -> requests_consistent (run_op op a)) /\
  (forall a, reachable a -> requests_consistent a).
Proof.
  assert (Step : forall op a,
            requests_consistent a -> requests_consistent (run_op op a)).
  { intro op. apply run_op_keeps.
    - intros now ip r n u l a H. exact H.
    - intros now ip r a H. exact H.
    - apply requests_consistent_block.
    - apply requests_consistent_unblock. }
  split; [exact Step|].
  intros a R. induction R as [now sg rg bt mi a H|op a _ IH].
  - injection H as <-. repeat split; cbn; [constructor | lia | lia].
  - apply Step, IH.
Qed.

(** The request log of the example agent after one block. *)
Lemma firewall_requests_witness : requests_consistent example_blocked.
Proof.
  apply (proj2 firewall_requests_consistent).
  apply (reachable_step
           (op_take_action 0 Ec2Returns example_ip 0.92 0.95 0.85) example_agent).
  apply (reachable_init 0 "sg-test-only" "ap-south-1" 10 60). reflexivity.
Defined.

(** ** The entries of the registry *)

Lemma entries_well_formed_block now o ip r n u a :
  entries_well_formed a ->
  entries_well_formed (fst (block_ip_address now o ip r n u a)).
Proof.
  unfold entries_well_formed, block_ip_address. intro F.
  destruct (dict_in ip (blocked_ips a)) eqn:E; [exact F|].
  destruct o as [|code|]; [| destruct (String.eqb code _) |]; cbn; try exact F.
  rewrite (dict_set_absent _ _ _ E). apply Forall_app. split; [exact F|].
  constructor; [|constructor]. repeat split.
Qed.

Lemma entries_well_formed_unblock o ip a :
  entries_well_formed a ->
  entries_well_formed (fst (unblock_ip_address o ip a)).
Proof.
  unfold entries_well_formed, unblock_ip_address. intro F.
  destruct (dict_in ip (blocked_ips a)); cbn [negb]; [|exact F].
  destruct o; cbn; try exact F.
  rewrite Forall_forall in *. intros item H.
  apply (F item). exact (dict_pop_incl _ _ _ H).
Qed.

(** X7: in every state the agent reaches, each registry entry is stored
    under the address it records, names the agent's security group and
    has no rule id; looking up a blocked address therefore returns the
    entry of that very address. *)
Theorem registry_entries_well_formed :
  (forall op a, entries_well_formed a -> entries_well_formed (run_op op a)) /\
  (forall a, reachable a -> entries_well_formed a) /\
  (forall a ip b,
     reachable a -> dict_get ip (blocked_ips a) = Some b ->
     ip_address b = ip /\
     blocked_security_group_id b = security_group_id a /\
     rule_id b = None).
Proof.
  assert (Step : forall op a,
            entries_well_formed a -> entries_well_formed (run_op op a)).
  { intro op. apply run_op_keeps.
    - intros now ip r n u l a H. exact H.
    - intros now ip r a H. exact H.
    - apply entries_well_formed_block.
    - apply entries_well_formed_unblock. }
  assert (Reach : forall a, reachable a -> entries_well_formed a).
  { intros a R. induction R as [now sg rg bt mi a H|op a _ IH].
    - injection H as <-. constructor.
    - apply Step, IH. }
  repeat apply conj; [exact Step | exact Reach |].
  intros a ip b R G.
  assert (W : registry_wf a).
  { clear G. induction R as [now sg rg bt mi a H|op a _ IH].
    - exact (init_registry_wf _ _ _ _ _ _ H).
    - apply run_op_preserves; [exact registry_wf_step | exact IH]. }
  apply (dict_get_In ip b _ W) in G.
  pose proof (Reach a R) as F. unfold entries_well_formed in F.
  rewrite Forall_forall in F. exact (F _ G).
Qed.

(** The entry of the example agent's blocked address. *)
Lemma registry_entries_witness :
  ip_address (mkBlockedIP example_ip 0 0.92 "sg-test-only" None) = example_ip /\
  blocked_security_group_id (mkBlockedIP example_ip 0 0.92 "sg-test-only" None) =
    security_group_id example_blocked /\
  rule_id (mkBlockedIP example_ip 0 0.92 "sg-test-only" None) = None.
Proof.
  apply (proj2 (proj2 registry_entries_well_formed) example_blocked).
  - apply (reachable_step
             (op_take_action 0 Ec2Returns example_ip 0.92 0.95 0.85) example_agent).
    apply (reachable_init 0 "sg-test-only" "ap-south-1" 10 60). reflexivity.
  - reflexivity.
Defined.

(** ** The rate-limit table *)

(** X8: the rate-limit table never holds an address twice nor more
    addresses than [total_rate_limits]; a HIGH action stores the time of
    the call under the address, replacing an earlier time, and no
    operation removes an address from the table. *)
Theorem rate_limit_table :
  (forall a, reachable a -> rate_limits_counted a) /\
  (forall now o ip r n u a,
     (0.6 <= r)%Q -> (r < 0.8)%Q ->
     dict_get ip (rate_limited_ips (fst (take_action now o ip r n u a))) =
       Some now /\
     dict_len (rate_limited_ips (fst (take_action now o ip r n u a))) =
       dict_len (rate_limited_ips a) +
       (if dict_in ip (rate_limited_ips a) then 0 else 1)) /\
  (forall op a ip,
     dict_in ip (rate_limited_ips a) = true ->
     dict_in ip (rate_limited_ips (run_op op a)) = true).
Proof.
  repeat apply conj.
  - apply reachable_keeps; unfold rate_limits_counted.
    + intros now ip r n u l a H. exact H.
    + intros now ip r a [W L]. cbn. split; [apply dict_wf_set, W|].
      rewrite dict_len_set. destruct (dict_in ip (rate_limited_ips a)); lia.
    + intros now o ip r n u a H. unfold block_ip_address.
      destruct (dict_in ip (blocked_ips a)); [exact H|].
      destruct o as [|code|]; [| destruct (String.eqb code _) |]; exact H.
    + intros o ip a H. unfold unblock_ip_address.
      destruct (dict_in ip (blocked_ips a)); [|exact H].
      destruct o; exact H.
    + intros now sg rg bt mi a [= <-]. split; [constructor | reflexivity].
  - intros now o ip r n u a H6 H8. rewrite take_action_HIGH by assumption.
    cbn. split; [apply dict_get_set_same | apply dict_len_set].
  - intros op a ip H.
    destruct (operations_continue_aux op a) as (_ & _ & _ & _ & _ & _ & _ & _ & _ & _ & _ & K).
    apply K, H.
Qed.

(** A HIGH action on a fresh agent, then the same address again. *)
Lemma rate_limit_table_witness :
  let a1 := fst (take_action (seconds 5) Ec2Returns example_ip 0.7 0.8 0.55
                   example_agent) in
  let a2 := fst (take_action (seconds 9) Ec2Returns example_ip 0.7 0.8 0.55 a1) in
  dict_get example_ip (rate_limited_ips a2) = Some (seconds 9) /\
  dict_len (rate_limited_ips a2) = dict_len (rate_limited_ips a1) + 0 /\
  rate_limits_counted a1.
Proof.
  cbv zeta. destruct rate_limit_table as (Reach & High & _).
  split; [|split].
  - apply High; [discriminate | reflexivity].
  - apply (High (seconds 9) Ec2Returns example_ip 0.7%Q 0.8%Q 0.55%Q);
      [discriminate | reflexivity].
  - apply Reach.
    apply (reachable_step
             (op_take_action (seconds 5) Ec2Returns example_ip 0.7 0.8 0.55)
             example_agent).
    apply (reachable_init 0 "sg-test-only" "ap-south-1" 10 60). reflexivity.
Defined.

(** ** What [take_action] does to the registry *)

(** X9: for a score that is a number [take_action] writes the registry
    and talks to the firewall only for a score of at least 0.8: below
    it, the registry, the request log and [total_blocks] are
    untouched.  It returns BLOCK exactly when the score is at least
    0.8, the address has no entry and the authorize request returns.
    At no score does it remove or replace an entry or count an
    unblock.  On binary64 scores the block branch is taken exactly
    when the score is not below 0.8: when it is 0.8 or more, or NaN. *)
Theorem take_action_blocks_only_when_critical :
  (forall now o ip r n u a,
     let a' := fst (take_action now o ip r n u a) in
     ((r < 0.8)%Q ->
      blocked_ips a' = blocked_ips a /\
      ec2_client a' = ec2_client a /\
      total_blocks (stats a') = total_blocks (stats a)) /\
     (snd (take_action now o ip r n u a) = BLOCK <->
      (0.8 <= r)%Q /\ dict_in ip (blocked_ips a) = false /\ o = Ec2Returns) /\
     (forall k b, dict_get k (blocked_ips a) = Some b ->
                  dict_get k (blocked_ips a') = Some b) /\
     total_unblocks (stats a') = total_unblocks (stats a)) /\
  (forall r : float,
     (Binary64.take_action_branch r = CRITICAL <-> (r <? 0.8)%float = false) /\
     ((r <? 0.8)%float = false <->
      (0.8 <=? r)%float = true \/ is_nan r = true)).
Proof.
  split.
  2:{ intro r. destruct (is_nan r) eqn:N.
      - destruct (binary64_branch_of_nan r N) as [_ B].
        rewrite B, (float_ltb_nan_l r 0.8 N). split; [tauto|].
        split; [auto | reflexivity].
      - rewrite (binary64_branch_of_number r N).
        rewrite (float_ltb_negb_leb r 0.8 N eq_refl).
        unfold Binary64.assess_threat_level.
        destruct (0.8 <=? r)%float; cbn [negb].
        + split; split; intros; auto.
        + split; split; try discriminate.
          * destruct (0.6 <=? r)%float; [discriminate|].
            destruct (0.4 <=? r)%float; discriminate.
          * intros [X|X]; discriminate. }
  intros now o ip r n u a. cbv zeta.
  destruct (risk_bands r) as [L|[[M1 M2]|[[H1 H2]|C]]].
  - rewrite take_action_LOW by assumption. cbn.
    repeat split; auto; try discriminate.
    intros (C & _). qabsurd.
  - rewrite take_action_MEDIUM by assumption. cbn.
    repeat split; auto; try discriminate.
    intros (C & _). exfalso. lra.
  - rewrite take_action_HIGH by assumption. cbn.
    repeat split; auto; try discriminate.
    intros (C & _). qabsurd.
  - pose proof (take_action_CRITICAL_effect now o ip r n u a C) as (A & B & T & E).
    cbv zeta in *. rewrite A, B.
    assert (U : total_unblocks (stats (fst (take_action now o ip r n u a))) =
                total_unblocks (stats a)).
    { rewrite take_action_CRITICAL by exact C. unfold block_ip_address.
      destruct (dict_in ip (blocked_ips a)); [reflexivity|].
      destruct o as [|code|]; [| destruct (String.eqb code _) |]; reflexivity. }
    split; [|split; [|split]].
    + intro L. qabsurd.
    + destruct (dict_in ip (blocked_ips a)), o; cbn; split;
        try discriminate; try (intros (_ & X & Y); discriminate); auto.
    + intros k b G.
      destruct (dict_in ip (blocked_ips a)) eqn:I; cbn [negb andb]; [exact G|].
      destruct (outcome_returns o); [|exact G].
      rewrite (dict_set_absent _ _ _ I).
      clear - G. induction (blocked_ips a) as [|[k' v'] d IH]; cbn in *;
        [discriminate|].
      destruct (String.eqb k' k); [exact G | auto].
    + exact U.
Qed.

(** ** Block, then unblock *)

Lemma dict_pop_set_absent {V} k (v : V) d :
  dict_in k d = false -> dict_pop k (dict_set k v d) = d.
Proof.
  unfold dict_in. induction d as [|[k' v'] d IH]; cbn.
  - intros _. rewrite String.eqb_refl. reflexivity.
  - destruct (String.eqb k' k) eqn:E; [discriminate|].
    intro H. cbn. rewrite E, (IH H). reflexivity.
Qed.

(** X10: blocking an address that has no entry and then unblocking it, both
    requests returning, gives back the registry exactly as it was; both
    calls return [True], [total_blocks] and [total_unblocks] grow by one
    each, the two requests are logged in order, and the alert history
    and the rate-limit table are untouched. *)
Theorem block_then_unblock :
  forall now ip r n u a,
    dict_in ip (blocked_ips a) = false ->
    let b := block_ip_address now Ec2Returns ip r n u a in
    let ub := unblock_ip_address Ec2Returns ip (fst b) in
    snd b = true /\ snd ub = true /\
    blocked_ips (fst ub) = blocked_ips a /\
    total_blocks (stats (fst ub)) = total_blocks (stats a) + 1 /\
    total_unblocks (stats (fst ub)) = total_unblocks (stats a) + 1 /\
    ec2_client (fst ub) =
      ec2_client a ++
      [authorize_security_group_ingress (security_group_id a) (cidr32 ip);
       revoke_security_group_ingress (security_group_id a) (cidr32 ip)] /\
    alert_history (fst ub) = alert_history a /\
    rate_limited_ips (fst ub) = rate_limited_ips a.
Proof.
  intros now ip r n u a E. cbv zeta.
  unfold block_ip_address. rewrite E. cbn [fst snd].
  unfold unblock_ip_address.
  cbn [blocked_ips with_stats with_blocked_ips with_ec2_client].
  rewrite dict_in_set_same. cbn.
  rewrite (dict_pop_set_absent _ _ _ E), <- app_assoc.
  repeat split.
Qed.

(** Blocking and unblocking the test suite's address on a fresh agent. *)
Lemma block_then_unblock_witness :
  blocked_ips
    (fst (unblock_ip_address Ec2Returns example_ip
            (fst (block_ip_address 0 Ec2Returns example_ip 0.92 0.95 0.85
                    example_agent)))) =
  blocked_ips example_agent.
Proof.
  apply (block_then_unblock 0 example_ip 0.92 0.95 0.85 example_agent).
  reflexivity.
Defined.

(** ** Sweeping twice *)

Lemma unblock_fold_config revoke ips a :
  block_timeout_minutes
    (fold_left (fun a ip => fst (unblock_ip_address (revoke ip) ip a)) ips a) =
  block_timeout_minutes a.
Proof.
  apply (unblock_fold_keeps
           (fun a' => block_timeout_minutes a' = block_timeout_minutes a));
    [|reflexivity].
  intros o ip a' H. unfold unblock_ip_address.
  destruct (dict_in ip (blocked_ips a')); cbn [negb]; [|exact H].
  destruct o; exact H.
Qed.

(** X11: with a block timeout that [timedelta] can represent, or an
    empty registry, a sweep that finds no expired entry changes nothing
    and sends no request.  After a sweep whose revoke requests all
    return, no entry is expired at that time, so a second sweep at the
    same time, which returns as well, changes nothing. *)
Theorem sweep_twice :
  (forall now revoke a,
     sweep_returns a ->
     expired_ips now a = [] -> check_and_unblock_expired now revoke a = a) /\
  (forall now revoke revoke' a,
     registry_wf a ->
     sweep_returns a ->
     (forall ip, revoke ip = Ec2Returns) ->
     sweep_returns (check_and_unblock_expired now revoke a) /\
     expired_ips now (check_and_unblock_expired now revoke a) = [] /\
     check_and_unblock_expired now revoke'
       (check_and_unblock_expired now revoke a) =
     check_and_unblock_expired now revoke a).
Proof.
  assert (Idle : forall now revoke a,
            expired_ips now a = [] -> check_and_unblock_expired now revoke a = a).
  { intros now revoke a H. unfold check_and_unblock_expired.
    fold (expired_ips now a). rewrite H. reflexivity. }
  split; [intros now revoke a _; apply Idle|].
  intros now revoke revoke' a W S R.
  assert (S' : sweep_returns (check_and_unblock_expired now revoke a)).
  { destruct S as [S|S].
    - left. rewrite Idle; [exact S|]. unfold expired_ips. rewrite S. reflexivity.
    - right. unfold check_and_unblock_expired.
      rewrite unblock_fold_config. exact S. }
  split; [exact S'|].
  assert (E : expired_ips now (check_and_unblock_expired now revoke a) = []).
  { destruct (check_and_unblock_expired_effect now revoke a W) as (B & _ & _).
    cbv zeta in B. unfold expired_ips. rewrite B. clear B.
    assert (T : block_timeout_minutes (check_and_unblock_expired now revoke a) =
                block_timeout_minutes a)
      by apply unblock_fold_config.
    generalize (blocked_ips a) as d.
    induction d as [|[k v] d IH]; [reflexivity|].
    cbn [filter]. unfold sweep_keeps at 1. cbn [fst snd].
    rewrite (R k). cbn [outcome_returns]. rewrite andb_true_r.
    destruct (block_expired now a v) eqn:X; cbn [negb]; [exact IH|].
    cbn [filter snd].
    assert (X' : block_expired now (check_and_unblock_expired now revoke a) v =
                 false)
      by (unfold block_expired in *; rewrite T; exact X).
    rewrite X'. exact IH. }
  split; [exact E | apply Idle, E].
Qed.

(** Two sweeps at T+10m01s over the example agent's entry. *)
Lemma sweep_twice_witness :
  let swept :=
    check_and_unblock_expired (seconds 601) (fun _ => Ec2Returns) example_blocked in
  check_and_unblock_expired (seconds 601) (fun _ => Ec2OtherException) swept = swept.
Proof.
  cbv zeta.
  apply (proj2 sweep_twice (seconds 601) (fun _ => Ec2Returns)
           (fun _ => Ec2OtherException) example_blocked).
  - repeat constructor; intros [].
  - right. unfold timedelta_representable. cbn. lia.
  - reflexivity.
Defined.

(** A LOW, a HIGH and a CRITICAL call on the example agent. *)
Lemma take_action_blocks_witness :
  blocked_ips (fst (take_action 5 Ec2Returns example_ip 0.7 0.8 0.55 example_agent)) =
    blocked_ips example_agent /\
  snd (take_action 5 Ec2Returns example_ip 0.92 0.95 0.85 example_agent) = BLOCK.
Proof.
  split.
  - apply (proj1 take_action_blocks_only_when_critical 5 Ec2Returns example_ip
             0.7%Q 0.8%Q 0.55%Q example_agent). reflexivity.
  - apply (proj1 take_action_blocks_only_when_critical 5 Ec2Returns example_ip
             0.92%Q 0.95%Q 0.85%Q example_agent).
    repeat split. discriminate.
Defined.

(** ** The statistics report *)

Lemma reachable_registry_wf a : reachable a -> registry_wf a.
Proof.
  induction 1 as [now sg rg bt mi a H|op a _ IH].
  - exact (init_registry_wf _ _ _ _ _ _ H).
  - apply run_op_preserves; [exact registry_wf_step | exact IH].
Qed.

(** X12: in every state the agent reaches, the [blocked_ips] list of
    [get_statistics] names each blocked address exactly once and
    nothing else; its length is [currently_blocked].  The uptime is
    the time since construction, in seconds. *)
Theorem get_statistics_blocked_ips :
  forall a now,
    reachable a ->
    let report := get_statistics now a in
    NoDup (stat_blocked_ips report) /\
    Z.of_nat (List.length (stat_blocked_ips report)) = stat_currently_blocked report /\
    (forall ip, In ip (stat_blocked_ips report) <->
                dict_in ip (blocked_ips a) = true) /\
    (stat_uptime_seconds report * 1000000 == inject_Z (now - start_time (stats a)))%Q.
Proof.
  intros a now R. cbv zeta. cbn. repeat apply conj.
  - exact (reachable_registry_wf a R).
  - symmetry. apply dict_len_keys.
  - intro ip. symmetry. apply dict_in_keys.
  - unfold Qeq, Qmult, inject_Z. cbn. lia.
Qed.

(** The report on the example agent after one block. *)
Lemma get_statistics_witness :
  stat_blocked_ips (get_statistics (seconds 5) example_blocked) = [example_ip] /\
  NoDup (stat_blocked_ips (get_statistics (seconds 5) example_blocked)).
Proof.
  split; [reflexivity|].
  apply (get_statistics_blocked_ips example_blocked (seconds 5)).
  apply (reachable_step
           (op_take_action 0 Ec2Returns example_ip 0.92 0.95 0.85) example_agent).
  apply (reachable_init 0 "sg-test-only" "ap-south-1" 10 60). reflexivity.
Defined.

(** ** Matching behaviour results *)

(** X13: the behaviour result used for an address is the first one that
    carries it; later results for the same address are ignored.  A
    result without ["ip"] in front of the first match raises
    [KeyError], and so does a matched result without ["user_risk"]. *)
Theorem first_matching_user_wins :
  forall ip before u after,
    (forall v, In v before -> exists v_ip, user_ip v = Some v_ip /\ v_ip <> ip) ->
    (user_ip u = Some ip ->
     next_matching_user ip (before ++ u :: after) = ret (Some u) /\
     bind (next_matching_user ip (before ++ u :: after)) user_risk_of =
       getitem "user_risk" (user_user_risk u)) /\
    (user_ip u = None ->
     next_matching_user ip (before ++ u :: after) = raise (KeyError "ip")).
Proof.
  intros ip before u after H.
  induction before as [|v before IH]; cbn.
  - split; intro E; rewrite E; cbn.
    + rewrite String.eqb_refl. split; reflexivity.
    + reflexivity.
  - destruct (H v (or_introl eq_refl)) as [v_ip [E Hne]]. rewrite E. cbn.
    destruct (String.eqb_spec v_ip ip); [contradiction|].
    apply IH. intros w Hw. apply H. right. exact Hw.
Qed.

(** Two results for one address: the first one's risk is used. *)
Lemma first_matching_user_witness :
  bind (next_matching_user "X"
          ([mkUserResult (Some "Y"%string) (Some 0.9%Q)] ++
           mkUserResult (Some "X"%string) (Some 0.3%Q) ::
           [mkUserResult (Some "X"%string) (Some 0.7%Q)]))
    user_risk_of = ret 0.3%Q.
Proof.
  apply (first_matching_user_wins "X"
           [mkUserResult (Some "Y"%string) (Some 0.9%Q)]
           (mkUserResult (Some "X"%string) (Some 0.3%Q))
           [mkUserResult (Some "X"%string) (Some 0.7%Q)]).
  - intros v [<-|[]]. exists "Y"%string. split; [reflexivity | discriminate].
  - reflexivity.
Defined.

(** ** Cycles without results *)

(** When either [detect()] call raises, the cycle leaves the agent as
    it was: no result is handled and the expiry sweep is not run; the
    exception is logged.  A failing first call hides the second.  With
    no network result the cycle is the expiry sweep alone, whatever the
    behaviour results are. *)
Theorem cycle_without_results :
  forall env f a,
    (forall e ueba,
       run_monitoring_cycle env (inl e) ueba f a = (a, [], Some e)) /\
    (forall e nets,
       run_monitoring_cycle env (inr nets) (inl e) f a = (a, [], Some e)) /\
    (forall users,
       run_monitoring_cycle env (inr []) (inr users) f a =
       (check_and_unblock_expired (sweep_now env) (sweep_revoke env) a, [], None)).
Proof. intros env f a. repeat split. Qed.

(** ** Order and range of the fusion function *)

Lemma combine_risks_rank n u :
  let f := fst (combine_risks n u) in
  (level_rank (snd (combine_risks n u)) >= 3 <-> (0.8 < f)%Q) /\
  (level_rank (snd (combine_risks n u)) >= 2 <-> (0.6 < f)%Q) /\
  (level_rank (snd (combine_risks n u)) >= 1 <-> (0.4 < f)%Q).
Proof.
  cbv zeta. destruct (combine_risks_level n u) as (C & H & M & L).
  cbv zeta in *.
  destruct (snd (combine_risks n u)); cbn [level_rank];
    repeat split; intros; try lia; try lra;
    try (destruct (proj1 L eq_refl)); try (destruct (proj1 M eq_refl));
    try (destruct (proj1 H eq_refl)); try (pose proof (proj1 C eq_refl));
    try (pose proof (proj1 L eq_refl)); try lra.
Qed.

(** X14: the fused risk and its level grow with either input.  Inputs in
    [0, 1] give a fused risk in [0, 1].  With inputs of at most 1, a
    fused risk of 0.8 or more, the score at which the agent blocks,
    needs a network risk above 0.66 together with a user risk above
    0.49: neither signal alone reaches it.  The bounds 2/3 and 1/2 of
    exact arithmetic are not those of the code: in binary64 the network
    risk 0.6666666666666666, below 2/3, with a user risk of 1 fuses to
    0.8, where [take_action] blocks, while 0.66 with 1 and 1 with 0.49
    fuse to 0.796 there, where it does not. *)
Theorem combine_risks_monotone :
  (forall n n' u u' : Q,
     (n <= n')%Q -> (u <= u')%Q ->
     (fst (combine_risks n u) <= fst (combine_risks n' u'))%Q /\
     level_rank (snd (combine_risks n u)) <=
     level_rank (snd (combine_risks n' u'))) /\
  (forall n u : Q,
     (0 <= n)%Q -> (n <= 1)%Q -> (0 <= u)%Q -> (u <= 1)%Q ->
     (0 <= fst (combine_risks n u))%Q /\ (fst (combine_risks n u) <= 1)%Q) /\
  (forall n u : Q,
     (n <= 1)%Q -> (u <= 1)%Q -> (0.8 <= fst (combine_risks n u))%Q ->
     (0.66 < n)%Q /\ (0.49 < u)%Q) /\
  ((0.6666666666666666 <? 0.6666666666666667)%float = true /\
   fst (Binary64.combine_risks 0.6666666666666666 1) = 0.8%float /\
   Binary64.take_action_branch
     (fst (Binary64.combine_risks 0.6666666666666666 1)) = CRITICAL /\
   Binary64.combine_risks 0.66 1 = (0.796%float, HIGH) /\
   Binary64.combine_risks 1 0.49 = (0.796%float, HIGH) /\
   Binary64.take_action_branch 0.796 = HIGH).
Proof.
  split; [|split; [|split; [|repeat split]]].
  - intros n n' u u' Hn Hu.
    assert (F : (fst (combine_risks n u) <= fst (combine_risks n' u'))%Q)
      by (unfold combine_risks; cbn [fst]; lra).
    split; [exact F|].
    destruct (combine_risks_rank n u) as (C & H & M).
    destruct (combine_risks_rank n' u') as (C' & H' & M').
    cbv zeta in *.
    remember (fst (combine_risks n u)) as x.
    remember (fst (combine_risks n' u')) as x'.
    remember (snd (combine_risks n u)) as l.
    remember (snd (combine_risks n' u')) as l'.
    destruct l, l'; cbn [level_rank] in *; try lia; exfalso;
      repeat match goal with
      | K : (?z >= ?k <-> ?q) |- _ =>
          first [ assert q by (apply K; lia)
                | assert (~ q) by (intro Q; apply K in Q; lia) ];
          clear K
      end; lra.
  - intros n u. unfold combine_risks; cbn [fst]. lra.
  - intros n u. unfold combine_risks; cbn [fst]. lra.
Qed.

(** The fusion function on two ordered pairs of risks. *)
Lemma combine_risks_monotone_witness :
  (fst (combine_risks 0.2 0.3) <= fst (combine_risks 0.9 0.8))%Q /\
  level_rank (snd (combine_risks 0.2 0.3)) <=
  level_rank (snd (combine_risks 0.9 0.8)).
Proof.
  apply (proj1 combine_risks_monotone 0.2 0.9 0.3 0.8)%Q; discriminate.
Defined.

(** ** Entities without a behaviour result *)

(** X15: an entity no behaviour result matches is never blocked by the
    cycle as long as its network risk is at most 1: with the fallback
    user risk the fused risk is at most 0.64, so the loop body logs
    LOG, ALERT or RATE_LIMIT, sends no firewall request and leaves the
    registry and [total_blocks] as they were. *)
Theorem unmatched_entity_is_never_blocked :
  forall env users net ip network_risk a,
    net_ip net = Some ip ->
    net_network_risk net = Some network_risk ->
    (forall u, In u users -> exists u_ip, user_ip u = Some u_ip /\ u_ip <> ip) ->
    (network_risk <= 1)%Q ->
    exists a' action,
      cycle_body combine_risks env users net a = ret (a', (ip, action)) /\
      (action = LOG \/ action = ALERT \/ action = RATE_LIMIT) /\
      blocked_ips a' = blocked_ips a /\
      ec2_client a' = ec2_client a /\
      total_blocks (stats a') = total_blocks (stats a).
Proof.
  intros env users net ip nr a Hip Hnr Hu Hle.
  assert (S : entry_signals users net = ret (ip, nr, 0.1%Q)).
  { unfold entry_signals. rewrite Hip, Hnr. cbn.
    rewrite (next_matching_user_none ip users Hu). reflexivity. }
  rewrite cycle_body_signals, S. unfold ret.
  set (f := fst (combine_risks nr 0.1)).
  assert (F : (f < 0.8)%Q) by (unfold f, combine_risks; cbn [fst]; lra).
  eexists. eexists. split; [reflexivity|].
  destruct (risk_bands f) as [L|[[M1 M2]|[[H1 H2]|C]]]; [| | |exfalso; lra].
  - rewrite take_action_LOW by assumption. cbn. auto.
  - rewrite take_action_MEDIUM by assumption. cbn. auto 6.
  - rewrite take_action_HIGH by assumption. cbn. auto 6.
Qed.

(** The strongest network signal alone: a rate limit, no block. *)
Lemma unmatched_never_blocked_witness :
  exists a' action,
    cycle_body combine_risks (mkCallEnv (seconds 60) Ec2Returns) []
      (mkNetworkResult (Some example_ip) (Some 1%Q)) example_agent =
      ret (a', (example_ip, action)) /\
    (action = LOG \/ action = ALERT \/ action = RATE_LIMIT) /\
    blocked_ips a' = blocked_ips example_agent /\
    ec2_client a' = ec2_client example_agent /\
    total_blocks (stats a') = total_blocks (stats example_agent).
Proof.
  apply (unmatched_entity_is_never_blocked (mkCallEnv (seconds 60) Ec2Returns) []
           (mkNetworkResult (Some example_ip) (Some 1%Q)) example_ip 1%Q
           example_agent eq_refl eq_refl).
  - intros u [].
  - discriminate.
Defined.

(** ** The loop of [start] *)

Lemma run_monitoring_cycle_interval env ids ueba f a :
  monitoring_interval (fst (fst (run_monitoring_cycle env ids ueba f a))) =
  monitoring_interval a.
Proof.
  destruct (operations_continue_aux (op_run_monitoring_cycle env ids ueba f) a)
    as (_ & _ & _ & M & _).
  exact M.
Qed.

Lemma tenth_cycle_count (c : Z) :
  (c + 1) / 10 - c / 10 = if (c + 1) mod 10 =? 0 then 1 else 0.
Proof.
  destruct (Z.eqb_spec ((c + 1) mod 10) 0) as [E|E];
    Z.div_mod_to_equations; lia.
Qed.

Lemma start_loop_running fuel turns f c a :
  sleep_accepts (monitoring_interval a) = true ->
  let '(a', shown, e) := start_loop fuel turns f c a in
  e = loop_running /\
  monitoring_interval a' = monitoring_interval a /\
  Z.of_nat (List.length shown) = (c + Z.of_nat fuel) / 10 - c / 10 /\
  (reachable a -> reachable a').
Proof.
  revert c a. induction fuel as [|fuel IH]; intros c a H.
  - cbn. rewrite Z.add_0_r. repeat split; [lia | auto].
  - cbn [start_loop].
    set (t := turns (c + 1)).
    set (a1 := fst (fst (run_monitoring_cycle (turn_cycle t) (turn_ids t)
                           (turn_ueba t) f a))).
    assert (M : monitoring_interval a1 = monitoring_interval a)
      by apply run_monitoring_cycle_interval.
    assert (H1 : sleep_accepts (monitoring_interval a1) = true)
      by (rewrite M; exact H).
    rewrite H1. cbn [negb].
    specialize (IH (c + 1) a1 H1).
    destruct (start_loop fuel turns f (c + 1) a1) as [[a2 shown'] e].
    destruct IH as (E & M2 & L & R). repeat split.
    + exact E.
    + congruence.
    + rewrite length_app, Nat2Z.inj_add, L.
      pose proof (tenth_cycle_count c) as T.
      destruct ((c + 1) mod 10 =? 0); cbn [List.length]; 
        replace (c + Z.of_nat (S fuel)) with (c + 1 + Z.of_nat fuel) by lia; lia.
    + intro Ra. apply R.
      exact (reachable_step
               (op_run_monitoring_cycle (turn_cycle t) (turn_ids t) (turn_ueba t) f)
               a Ra).
Qed.

(** X16: with a monitoring interval that is negative or above
    9223372036 seconds, both of which the constructor accepts, [start]
    runs exactly one monitoring cycle, firewall requests included, then
    leaves the loop on the exception of [time.sleep] and displays the
    statistics once.  With an interval from 0 to 9223372036 seconds
    the loop never ends by itself: after any number of cycles it is
    still running, it has displayed the statistics once per ten cycles,
    and the agent is in a state the operations reach. *)
Theorem start_loop_behaviour :
  (forall fuel turns final_now f a,
     monitoring_interval a < 0 \/ 9223372036 < monitoring_interval a ->
     let t := turns 1 in
     let a1 :=
       fst (fst (run_monitoring_cycle (turn_cycle t) (turn_ids t) (turn_ueba t)
                   f a)) in
     start (S fuel) turns final_now f a =
     (a1, [get_statistics final_now a1], loop_sleep_raised)) /\
  (forall fuel turns final_now f a,
     0 <= monitoring_interval a <= 9223372036 ->
     snd (start fuel turns final_now f a) = loop_running /\
     Z.of_nat (List.length (snd (fst (start fuel turns final_now f a)))) =
       Z.of_nat fuel / 10 /\
     (reachable a -> reachable (fst (fst (start fuel turns final_now f a))))).
Proof.
  split.
  - intros fuel turns final_now f a H. cbv zeta. unfold start.
    cbn [start_loop]. rewrite run_monitoring_cycle_interval.
    assert (X : sleep_accepts (monitoring_interval a) = false)
      by (unfold sleep_accepts; apply andb_false_iff;
          destruct H; [left | right]; apply Z.leb_gt; lia).
    rewrite X. reflexivity.
  - intros fuel turns final_now f a H. unfold start.
    assert (X : sleep_accepts (monitoring_interval a) = true)
      by (unfold sleep_accepts; apply andb_true_iff; split; apply Z.leb_le; lia).
    pose proof (start_loop_running fuel turns f 0 a X) as L.
    destruct (start_loop fuel turns f 0 a) as [[a' shown] e].
    destruct L as (-> & _ & L & R). cbn [fst snd].
    repeat split; [|exact R]. rewrite L. cbn. rewrite Z.sub_0_r. reflexivity.
Qed.

(** An agent built with an interval of -60 seconds, and the example
    agent over 25 cycles, both without results. *)
Lemma start_loop_witness :
  let quiet :=
    mkTurnEnv (mkCycleEnv (fun _ => mkCallEnv 0 Ec2Returns) 0 (fun _ => Ec2Returns))
      (inr []) (inr []) 0 in
  let negative := mkAgent "sg-test-only" "ap-south-1" 10 (-60) [] [] [] []
                    (mkStats 0 0 0 0 0) in
  snd (start 5%nat (fun _ => quiet) 0 combine_risks negative) = loop_sleep_raised /\
  Z.of_nat (List.length (snd (fst (start 25%nat (fun _ => quiet) 0 combine_risks
                                     example_agent)))) = 25 / 10.
Proof.
  cbv zeta. split.
  - rewrite (proj1 start_loop_behaviour 4%nat); [reflexivity | left; reflexivity].
  - apply (proj2 start_loop_behaviour 25%nat). cbn. lia.
Defined.

(** ** The intrusion detection engine *)

Lemma insert_datapoint_In x y l :
  In y (insert_datapoint x l) <-> y = x \/ In y l.
Proof.
  induction l as [|z l IH]; cbn.
  - split; [intros [E|[]]; auto | intros [E|[]]; auto].
  - destruct (dp_timestamp x <=? dp_timestamp z); cbn.
    + split; [intros [E|H]; auto | intros [E|H]; auto].
    + rewrite IH. split; [intros [E|[E|H]]; auto | intros [E|[E|H]]; auto].
Qed.

Lemma sorted_by_timestamp_In y l : In y (sorted_by_timestamp l) <-> In y l.
Proof.
  induction l as [|x l IH]; cbn; [tauto|].
  rewrite insert_datapoint_In, IH. split; intros [E|H]; auto.
Qed.

Lemma insert_datapoint_nonempty x s : insert_datapoint x s <> [].
Proof.
  destruct s as [|y s]; cbn; [discriminate|].
  destruct (dp_timestamp x <=? dp_timestamp y); discriminate.
Qed.

Lemma last_cons_nonempty {A} (y : A) l d : l <> [] -> List.last (y :: l) d = List.last l d.
Proof. destruct l; [contradiction | reflexivity]. Qed.

Lemma last_insert_datapoint x s d :
  List.last (insert_datapoint x s) d =
  if forallb (fun y => dp_timestamp y <? dp_timestamp x) s then x
  else List.last s d.
Proof.
  induction s as [|y s IH]; [reflexivity|].
  cbn [insert_datapoint forallb].
  destruct (Z.leb_spec (dp_timestamp x) (dp_timestamp y)) as [L|L].
  - destruct (Z.ltb_spec (dp_timestamp y) (dp_timestamp x)); [lia|]. reflexivity.
  - destruct (Z.ltb_spec (dp_timestamp y) (dp_timestamp x)); [|lia].
    cbn [andb].
    rewrite last_cons_nonempty by apply insert_datapoint_nonempty.
    rewrite IH. destruct (forallb _ s) eqn:A; [reflexivity|].
    symmetry. apply last_cons_nonempty. intros ->. discriminate A.
Qed.

Lemma forallb_false_witness {A} (p : A -> bool) l :
  forallb p l = false -> exists y, In y l /\ p y = false.
Proof.
  induction l as [|z l IH]; cbn; [discriminate|].
  destruct (p z) eqn:E; cbn.
  - intro H. destruct (IH H) as (y & Hy & Py). exists y. auto.
  - intros _. exists z. auto.
Qed.

(** The last datapoint of the sorted list is the last one of the
    response among those with the greatest timestamp. *)
Lemma last_sorted_by_timestamp x l d :
  exists before latest after,
    x :: l = before ++ latest :: after /\
    List.last (sorted_by_timestamp (x :: l)) d = latest /\
    (forall y, In y before -> dp_timestamp y <= dp_timestamp latest) /\
    (forall y, In y after -> dp_timestamp y < dp_timestamp latest).
Proof.
  revert x. induction l as [|z l IH]; intro x.
  - exists [], x, []. cbn. repeat split; intros y [].
  - change (sorted_by_timestamp (x :: z :: l)) with
      (insert_datapoint x (sorted_by_timestamp (z :: l))).
    rewrite last_insert_datapoint.
    destruct (forallb _ (sorted_by_timestamp (z :: l))) eqn:A.
    + exists [], x, (z :: l). repeat split; [intros y []|].
      intros y H. rewrite forallb_forall in A.
      apply Z.ltb_lt, A, sorted_by_timestamp_In, H.
    + destruct (IH z) as (before & latest & after & E & L & B & Af).
      assert (M : dp_timestamp x <= dp_timestamp latest).
      { destruct (forallb_false_witness _ _ A) as (y & Hy & Py).
        apply Z.ltb_ge in Py. apply (proj1 (sorted_by_timestamp_In y (z :: l))) in Hy.
        rewrite E in Hy. apply in_app_or in Hy. destruct Hy as [Hy|[<-|Hy]].
        - specialize (B y Hy). lia.
        - exact Py.
        - specialize (Af y Hy). lia. }
      exists (x :: before), latest, after. repeat split.
      * rewrite E. reflexivity.
      * exact L.
      * intros y [<-|H]; [exact M | exact (B y H)].
      * exact Af.
Qed.


(** X17: [get_metric] returns 0 when the response has no datapoint or no
    ['Datapoints'] at all; otherwise it returns the sum of the datapoint
    with the greatest timestamp, the last such one in the order of the
    response, wherever it stands in the response. *)
Theorem get_metric_latest :
  get_metric None = 0%Q /\
  get_metric (Some []) = 0%Q /\
  (forall x l,
     exists before latest after,
       x :: l = before ++ latest :: after /\
       get_metric (Some (x :: l)) = dp_sum latest /\
       (forall y, In y before -> dp_timestamp y <= dp_timestamp latest) /\
       (forall y, In y after -> dp_timestamp y < dp_timestamp latest)).
Proof.
  split; [reflexivity|]. split; [reflexivity|].
  intros x l.
  destruct (last_sorted_by_timestamp x l x) as (before & latest & after & E & L & B & A).
  exists before, latest, after. repeat split; try assumption.
  unfold get_metric. rewrite L. reflexivity.
Qed.

Lemma detect_risk_cases n p :
  ((8000000 < n)%Q \/ (15000 < p)%Q) /\ detect_risk n p = 0.95%Q \/
  ((n <= 8000000)%Q /\ (p <= 15000)%Q /\ ((4000000 < n)%Q \/ (8000 < p)%Q)) /\
    detect_risk n p = 0.85%Q \/
  ((n <= 4000000)%Q /\ (p <= 8000)%Q /\ ((1500000 < n)%Q \/ (3000 < p)%Q)) /\
    detect_risk n p = 0.60%Q \/
  ((n <= 1500000)%Q /\ (p <= 3000)%Q) /\ detect_risk n p = 0.05%Q.
Proof.
  unfold detect_risk.
  destruct (Qgtb n 8000000) eqn:N8, (Qgtb p 15000) eqn:P15,
    (Qgtb n 4000000) eqn:N4, (Qgtb p 8000) eqn:P8,
    (Qgtb n 1500000) eqn:N1, (Qgtb p 3000) eqn:P3;
    cbn [orb]; qorder; try (exfalso; lra); auto 10.
Qed.

(** X18: [detect] returns one of four risks: 0.95 exactly when more than
    8,000,000 bytes or more than 15,000 packets came in, 0.05 exactly
    when at most 1,500,000 bytes and at most 3,000 packets did; the
    risk grows with either metric.  When both CloudWatch calls return,
    the result is a single network result for ["EC2_INSTANCE"] that
    carries that risk; when one raises, [detect] raises. *)
Theorem detect_risk_bands :
  (forall n p : Q,
     (detect_risk n p = 0.95%Q \/ detect_risk n p = 0.85%Q \/
      detect_risk n p = 0.60%Q \/ detect_risk n p = 0.05%Q) /\
     (detect_risk n p = 0.95%Q <-> (8000000 < n)%Q \/ (15000 < p)%Q) /\
     (detect_risk n p = 0.05%Q <-> (n <= 1500000)%Q /\ (p <= 3000)%Q)) /\
  (forall n n' p p' : Q,
     (n <= n')%Q -> (p <= p')%Q -> (detect_risk n p <= detect_risk n' p')%Q) /\
  (forall rn rp,
     ids_detect (inr rn) (inr rp) =
     ret [mkNetworkResult (Some "EC2_INSTANCE"%string)
            (Some (detect_risk (get_metric rn) (get_metric rp)))]) /\
  (forall e rp, ids_detect (inl e) rp = raise e) /\
  (forall e rn, ids_detect (inr rn) (inl e) = raise e).
Proof.
  repeat apply conj; try reflexivity.
  - intros n p.
    destruct (detect_risk_cases n p) as [[C E]|[[C E]|[[C E]|[C E]]]];
      rewrite E; repeat split; auto; intros; try discriminate; try lra.
  - intros n n' p p' Hn Hp.
    destruct (detect_risk_cases n p) as [[C E]|[[C E]|[[C E]|[C E]]]];
    destruct (detect_risk_cases n' p') as [[C' E']|[[C' E']|[[C' E']|[C' E']]]];
      rewrite E, E'; try discriminate; exfalso; lra.
Qed.

(** The risks at two traffic levels. *)
Lemma detect_risk_witness :
  (detect_risk 2000000 100 <= detect_risk 9000000 100)%Q.
Proof.
  apply (proj1 (proj2 detect_risk_bands) 2000000 9000000 100 100)%Q; discriminate.
Defined.

(** X19: with the intrusion detection engine as the network source and no
    behaviour result for ["EC2_INSTANCE"], the cycle never blocks: the
    risk 0.95 is rate limited, the risks 0.85 and 0.60 raise an alert,
    the fused 0.40 of the latter being LOW for the fusion function, and
    the risk 0.05 is logged; the registry and the request log stay as
    they were. *)
Theorem ids_alone_never_blocks :
  forall env users n p a,
    (forall u, In u users ->
       exists u_ip, user_ip u = Some u_ip /\ u_ip <> "EC2_INSTANCE"%string) ->
    let risk := detect_risk n p in
    let net := mkNetworkResult (Some "EC2_INSTANCE"%string) (Some risk) in
    exists a',
      cycle_body combine_risks env users net a =
        ret (a', ("EC2_INSTANCE"%string,
                  if Qgtb n 8000000 || Qgtb p 15000 then RATE_LIMIT
                  else if Qgtb n 1500000 || Qgtb p 3000 then ALERT
                  else LOG)) /\
      blocked_ips a' = blocked_ips a /\
      ec2_client a' = ec2_client a /\
      (risk = 0.60%Q -> snd (combine_risks risk 0.1) = LOW).
Proof.
  intros env users n p a Hu. cbv zeta.
  assert (S : entry_signals users
                (mkNetworkResult (Some "EC2_INSTANCE"%string) (Some (detect_risk n p))) =
              ret ("EC2_INSTANCE"%string, detect_risk n p, 0.1%Q)).
  { unfold entry_signals. cbn.
    rewrite (next_matching_user_none _ users Hu). reflexivity. }
  rewrite cycle_body_signals, S. unfold ret.
  unfold detect_risk.
  destruct (Qgtb n 8000000 || Qgtb p 15000).
  - rewrite take_action_HIGH by (cbn; lra). eexists. repeat split. discriminate.
  - destruct (Qgtb n 4000000 || Qgtb p 8000) eqn:X.
    + assert (Y : Qgtb n 1500000 || Qgtb p 3000 = true).
      { apply orb_true_iff in X. apply orb_true_iff.
        destruct X as [X|X]; qorder; [left|right];
          [apply Qgtb_true | apply Qgtb_true]; lra. }
      rewrite Y. rewrite take_action_MEDIUM by (cbn; lra).
      eexists. repeat split. discriminate.
    + destruct (Qgtb n 1500000 || Qgtb p 3000).
      * rewrite take_action_MEDIUM by (cbn; lra). eexists. repeat split.
      * rewrite take_action_LOW by (cbn; lra). eexists. repeat split.
Qed.

(** A traffic spike of nine million bytes with unrelated behaviour
    results. *)
Lemma ids_alone_witness :
  exists a',
    cycle_body combine_risks (mkCallEnv (seconds 60) Ec2Returns)
      [mkUserResult (Some "10.0.0.7"%string) (Some 1%Q)]
      (mkNetworkResult (Some "EC2_INSTANCE"%string) (Some (detect_risk 9000000 100)))
      example_agent =
      ret (a', ("EC2_INSTANCE"%string, RATE_LIMIT)) /\
    blocked_ips a' = blocked_ips example_agent.
Proof.
  destruct (ids_alone_never_blocks (mkCallEnv (seconds 60) Ec2Returns)
              [mkUserResult (Some "10.0.0.7"%string) (Some 1%Q)]
              9000000 100 example_agent) as (a' & B & R & _).
  - intros u [<-|[]]. exists "10.0.0.7"%string. split; [reflexivity | discriminate].
  - exists a'. split; [exact B | exact R].
Defined.

(** ** The behaviour risks *)

Lemma score_min_fold_spec rest first :
  let m := fold_left score_min rest first in
  In m (first :: rest) /\ forall x, In x (first :: rest) -> (m <= x)%Q.
Proof.
  cbv zeta. revert first. induction rest as [|y rest IH]; intro first; cbn [fold_left].
  - split; [left; reflexivity|]. intros x [<-|[]]. apply Qle_refl.
  - destruct (IH (score_min first y)) as [I L]. split.
    + destruct I as [E|I]; [|right; right; exact I].
      rewrite <- E. unfold score_min. destruct (Qle_bool first y); cbn; auto.
    + assert (A : (score_min first y <= first)%Q /\ (score_min first y <= y)%Q).
      { unfold score_min. destruct (Qle_bool first y) eqn:E.
        - apply Qle_bool_iff in E. split; [apply Qle_refl | exact E].
        - split; [|apply Qle_refl]. apply Qlt_le_weak, Qleb_false. exact E. }
      assert (M : (fold_left score_min rest (score_min first y) <= score_min first y)%Q)
        by (apply L; left; reflexivity).
      intros x [<-|[<-|H]].
      * apply (Qle_trans _ _ _ M), A.
      * apply (Qle_trans _ _ _ M), A.
      * apply L. right. exact H.
Qed.

Lemma score_max_fold_spec rest first :
  let m := fold_left score_max rest first in
  In m (first :: rest) /\ forall x, In x (first :: rest) -> (x <= m)%Q.
Proof.
  cbv zeta. revert first. induction rest as [|y rest IH]; intro first; cbn [fold_left].
  - split; [left; reflexivity|]. intros x [<-|[]]. apply Qle_refl.
  - destruct (IH (score_max first y)) as [I L]. split.
    + destruct I as [E|I]; [|right; right; exact I].
      rewrite <- E. unfold score_max. destruct (Qle_bool first y); cbn; auto.
    + assert (A : (first <= score_max first y)%Q /\ (y <= score_max first y)%Q).
      { unfold score_max. destruct (Qle_bool first y) eqn:E.
        - apply Qle_bool_iff in E. split; [exact E | apply Qle_refl].
        - split; [apply Qle_refl|]. apply Qlt_le_weak, Qleb_false. exact E. }
      assert (M : (score_max first y <= fold_left score_max rest (score_max first y))%Q)
        by (apply L; left; reflexivity).
      intros x [<-|[<-|H]].
      * apply (Qle_trans _ _ _ (proj1 A) M).
      * apply (Qle_trans _ _ _ (proj2 A) M).
      * apply L. right. exact H.
Qed.

(** The risk of a score between a minimum and a larger maximum. *)
Lemma scaled_risk_bounds (lo hi x : Q) :
  (lo < hi)%Q -> (lo <= x)%Q -> (x <= hi)%Q ->
  (0 <= 1 - (x - lo) / (hi - lo))%Q /\ (1 - (x - lo) / (hi - lo) <= 1)%Q.
Proof.
  intros H L U.
  assert (P : (0 < hi - lo)%Q) by lra.
  assert (D0 : (0 <= (x - lo) / (hi - lo))%Q).
  { apply Qle_shift_div_l; [exact P | lra]. }
  assert (D1 : ((x - lo) / (hi - lo) <= 1)%Q).
  { apply Qle_shift_div_r; [exact P | lra]. }
  split; lra.
Qed.

Lemma scaled_risk_antitone (lo hi x y : Q) :
  (lo < hi)%Q -> (x <= y)%Q ->
  (1 - (y - lo) / (hi - lo) <= 1 - (x - lo) / (hi - lo))%Q.
Proof.
  intros H L.
  assert (P : (0 < hi - lo)%Q) by lra.
  assert (D : ((x - lo) / (hi - lo) <= (y - lo) / (hi - lo))%Q).
  { unfold Qdiv. apply Qmult_le_compat_r; [lra|].
    apply Qlt_le_weak, Qinv_lt_0_compat, P. }
  lra.
Qed.


(** The risk column is the score column under one map, and on the
    scores of the column that map stays within [0, 1]. *)
Lemma user_risks_map scores :
  exists risk : Q -> Q,
    user_risks scores = map risk scores /\
    forall x, In x scores -> (0 <= risk x)%Q /\ (risk x <= 1)%Q.
Proof.
  destruct scores as [|first rest].
  - exists (fun x => x). split; [reflexivity | intros x []].
  - unfold user_risks.
    destruct (score_min_fold_spec rest first) as [Imin Lmin].
    destruct (score_max_fold_spec rest first) as [Imax Lmax].
    cbv zeta in *.
    set (lo := fold_left score_min rest first) in *.
    set (hi := fold_left score_max rest first) in *.
    destruct (Qeq_bool (hi - lo) 0) eqn:E.
    + exists (fun _ => 0.1%Q). split; [reflexivity|]. intros x _. split; lra.
    + exists (fun score => (1 - (score - lo) / (hi - lo))%Q).
      split; [reflexivity|]. intros x Hx.
      apply Qeq_bool_neq in E.
      assert (lo <= hi)%Q by (apply Lmin, Imax).
      assert (lo < hi)%Q.
      { destruct (Qlt_le_dec lo hi) as [L|L]; [exact L|].
        exfalso. apply E. lra. }
      apply scaled_risk_bounds; [assumption | apply Lmin, Hx | apply Lmax, Hx].
Qed.

Lemma user_risks_length scores : List.length (user_risks scores) = List.length scores.
Proof.
  destruct (user_risks_map scores) as (g & -> & _). apply length_map.
Qed.


(** X20: the behaviour engine's risk is relative to the batch of log
    records it was computed from.  [lo] and [hi] being the smallest and
    the largest anomaly score of the batch: when they are equal (one
    record, or all scores alike) every record gets the risk 0.1; when
    they differ, the records with the smallest score get the risk 1 and
    those with the largest get 0, every risk lies in [0, 1], and a
    larger score never gets a larger risk. *)
Theorem user_risks_normalised :
  forall scores lo hi,
    In lo scores -> In hi scores ->
    (forall x, In x scores -> (lo <= x)%Q /\ (x <= hi)%Q) ->
    List.length (user_risks scores) = List.length scores /\
    ((lo == hi)%Q -> user_risks scores = map (fun _ => 0.1%Q) scores) /\
    ((lo < hi)%Q ->
     exists risk : Q -> Q,
       user_risks scores = map risk scores /\
       (risk lo == 1)%Q /\ (risk hi == 0)%Q /\
       (forall x, In x scores -> (0 <= risk x)%Q /\ (risk x <= 1)%Q) /\
       (forall x y, (x <= y)%Q -> (risk y <= risk x)%Q)).
Proof.
  intros scores lo hi Hlo Hhi B.
  split; [apply user_risks_length|].
  destruct scores as [|first rest]; [destruct Hlo|].
  unfold user_risks.
  destruct (score_min_fold_spec rest first) as [Imin Lmin].
  destruct (score_max_fold_spec rest first) as [Imax Lmax].
  cbv zeta in *.
  set (m := fold_left score_min rest first) in *.
  set (M := fold_left score_max rest first) in *.
  assert (Em : (m == lo)%Q).
  { apply Qle_antisym; [apply Lmin, Hlo | apply B, Imin]. }
  assert (EM : (M == hi)%Q).
  { apply Qle_antisym; [apply B, Imax | apply Lmax, Hhi]. }
  split.
  - intro E.
    assert (Z0 : (M - m == 0)%Q) by lra.
    apply Qeq_bool_iff in Z0. rewrite Z0. reflexivity.
  - intro L.
    assert (P : (m < M)%Q) by lra.
    destruct (Qeq_bool (M - m) 0) eqn:E.
    { apply Qeq_bool_iff in E. exfalso. lra. }
    exists (fun score => (1 - (score - m) / (M - m))%Q).
    split; [reflexivity|].
    assert (NZ : ~ (M - m == 0)%Q) by lra.
    split; [|split; [|split]].
    + rewrite <- Em. field_simplify_eq; [lra | exact NZ].
    + rewrite <- EM. field_simplify_eq; [lra | exact NZ].
    + intros x Hx. apply scaled_risk_bounds;
        [exact P | apply Lmin, Hx | apply Lmax, Hx].
    + intros x y Hxy. apply scaled_risk_antitone; assumption.
Qed.

(** Three records with the scores 0.2, -0.1 and 0.05. *)
Lemma user_risks_witness :
  List.length (user_risks [0.2%Q; (-0.1)%Q; 0.05%Q]) = 3%nat /\
  exists risk : Q -> Q,
    user_risks [0.2%Q; (-0.1)%Q; 0.05%Q] = map risk [0.2%Q; (-0.1)%Q; 0.05%Q] /\
    (risk (-0.1) == 1)%Q /\ (risk 0.2 == 0)%Q.
Proof.
  destruct (user_risks_normalised [0.2%Q; (-0.1)%Q; 0.05%Q] (-0.1)%Q 0.2%Q)
    as (Len & _ & R).
  - simpl. auto.
  - simpl. auto.
  - intros x [<-|[<-|[<-|[]]]]; split; lra.
  - destruct R as (risk & E & R1 & R0 & _); [lra|].
    split; [exact Len|]. exists risk. auto.
Defined.









(** ** The detection system around the agent *)

(** [take_action] counts one alert exactly when its action is ALERT,
    RATE_LIMIT or BLOCK. *)
Lemma take_action_counted now o ip r n u a :
  total_alerts (stats (fst (take_action now o ip r n u a))) =
  total_alerts (stats a) +
  (if EnhancedSystem.counted_action (snd (take_action now o ip r n u a))
   then 1 else 0).
Proof.
  destruct (risk_bands r) as [L|[[M1 M2]|[[H1 H2]|C]]].
  - rewrite take_action_LOW by assumption. cbn. lia.
  - rewrite take_action_MEDIUM by assumption. reflexivity.
  - rewrite take_action_HIGH by assumption. reflexivity.
  - rewrite take_action_CRITICAL by assumption.
    unfold block_ip_address.
    destruct (dict_in ip (blocked_ips a)); [cbn; lia|].
    destruct o as [|code|]; [| destruct (String.eqb code _) |]; cbn; lia.
Qed.

(** The expiry sweep sends no alert. *)
Lemma check_and_unblock_expired_total_alerts now revoke a :
  total_alerts (stats (check_and_unblock_expired now revoke a)) =
  total_alerts (stats a).
Proof.
  apply (check_and_unblock_expired_keeps
           (fun a' => total_alerts (stats a') = total_alerts (stats a)));
    [|reflexivity].
  intros o ip a' H. unfold unblock_ip_address.
  destruct (dict_in ip (blocked_ips a')); cbn [negb]; [|exact H].
  destruct o; exact H.
Qed.

Lemma enhanced_cycle_body_counters env users net s s' :
  EnhancedSystem.cycle_body env users net s = inr s' ->
  system_counters s -> system_counters s'.
Proof.
  unfold EnhancedSystem.cycle_body, bind, ret.
  destruct (getitem "ip" (net_ip net)) as [e|ip]; [discriminate|].
  destruct (getitem "network_risk" (net_network_risk net)) as [e|nr]; [discriminate|].
  destruct (next_matching_user ip users) as [e|mu]; [discriminate|].
  destruct (user_risk_of mu) as [e|ur]; [discriminate|].
  destruct (combine_risks nr ur) as [final level].
  destruct (EnhancedSystem.network_in_call env) as [e|nin]; [discriminate|].
  destruct (EnhancedSystem.packets_in_call env) as [e|pin]; [discriminate|].
  intros E [T A].
  apply (f_equal (fun r => match r with inr x => x | inl _ => s end)) in E.
  cbv beta iota in E. subst s'.
  set (s1 := if Qgtb final 0.3 then _ else s).
  assert (I1 : system_counters s1).
  { unfold s1. destruct (Qgtb final 0.3); [|split; assumption].
    split; [|exact A].
    cbn [EnhancedSystem.threats_detected EnhancedSystem.stats
         EnhancedSystem.alert_system].
    rewrite create_alert_always_recorded, length_app, T. cbn. lia. }
  destruct I1 as [T1 A1].
  destruct (EnhancedSystem.response_agent s1) as [agent|] eqn:Eagent.
  - destruct A1 as (En & Ac & R). rewrite En.
    pose proof (take_action_counted
                  (call_now (EnhancedSystem.action_env env))
                  (call_outcome (EnhancedSystem.action_env env))
                  ip final nr ur agent) as C.
    pose proof (reachable_step
                  (op_take_action (call_now (EnhancedSystem.action_env env))
                     (call_outcome (EnhancedSystem.action_env env))
                     ip final nr ur) agent R) as R1.
    cbn [run_op] in R1.
    destruct (take_action _ _ _ _ _ _ agent) as [agent1 action].
    cbn [fst snd] in *.
    split; [exact T1|]. cbn.
    split; [reflexivity|]. split.
    + rewrite check_and_unblock_expired_total_alerts, C, Ac.
      destruct (EnhancedSystem.counted_action action); lia.
    + exact (reachable_step
               (op_check_and_unblock_expired (EnhancedSystem.expiry_now env)
                  (EnhancedSystem.expiry_revoke env)) agent1 R1).
  - destruct A1 as (En & Ac). rewrite En. split; [exact T1|].
    rewrite Eagent. auto.
Qed.

Lemma enhanced_cycle_loop_counters env i users nets s :
  system_counters s ->
  system_counters (fst (EnhancedSystem.cycle_loop env i users nets s)).
Proof.
  revert i s. induction nets as [|net nets IH]; intros i s H; cbn; [exact H|].
  destruct (EnhancedSystem.cycle_body (env i) users net s) as [e|s1] eqn:E;
    [exact H|].
  apply IH, (enhanced_cycle_body_counters _ _ _ _ _ E H).
Qed.

Lemma run_detection_cycle_counters env ids ueba s :
  system_counters s ->
  system_counters (fst (fst (EnhancedSystem.run_detection_cycle env ids ueba s))).
Proof.
  intro H. unfold EnhancedSystem.run_detection_cycle.
  destruct ids as [e|nets]; [exact H|].
  destruct ueba as [e|users]; [exact H|].
  pose proof (enhanced_cycle_loop_counters env 0%nat users nets s H) as L.
  destruct (EnhancedSystem.cycle_loop env 0 users nets s) as [s1 [e|]];
    [exact L|].
  exact L.
Qed.

(** X22: the counters of the detection system.  In every state the
    system reaches from its constructor by running detection cycles,
    whatever the engines, CloudWatch, the SMTP server and the firewall
    answer: [threats_detected] is the number of alerts in the alert
    system's history; with autonomous response enabled the agent is in
    a state the agent's own operations reach, [autonomous_actions] is
    the agent's [total_alerts], and the agent's registry holds
    [total_blocks - total_unblocks] entries; without it no agent
    exists and [autonomous_actions] stays zero. *)
Theorem detection_system_counters :
  forall s,
    EnhancedSystem.reachable s ->
    system_counters s /\
    forall agent,
      EnhancedSystem.response_agent s = Some agent ->
      EnhancedSystem.autonomous_actions (EnhancedSystem.stats s) =
        Z.of_nat (List.length (alert_history agent)) /\
      counters_consistent agent.
Proof.
  intros s R.
  assert (I : system_counters s).
  { induction R as [config now sg enable s E|env ids ueba s R IH].
    - unfold EnhancedSystem.__init__ in E. destruct enable.
      + cbn in E. injection E as <-. split; [reflexivity|]. cbn.
        split; [reflexivity|]. split; [reflexivity|].
        apply (reachable_init now sg "ap-south-1" 10 60). reflexivity.
      + injection E as <-. split; [reflexivity|]. cbn. auto.
    - apply run_detection_cycle_counters, IH. }
  split; [exact I|].
  intros agent E. destruct I as [_ A]. rewrite E in A.
  destruct A as (_ & Ac & Ra). split.
  - rewrite Ac. clear - Ra.
    induction Ra as [now sg rg bt mi a H|op a _ IH].
    + injection H as <-. reflexivity.
    + revert IH. apply (run_op_keeps
        (fun a => total_alerts (stats a) = Z.of_nat (List.length (alert_history a)))).
      * intros now ip r n u l a0 H. cbn. rewrite length_app, H. cbn. lia.
      * intros now ip r a0 H. exact H.
      * intros now o ip r n u a0 H. unfold block_ip_address.
        destruct (dict_in ip (blocked_ips a0)); [exact H|].
        destruct o as [|code|]; [| destruct (String.eqb code _) |]; exact H.
      * intros o ip a0 H. unfold unblock_ip_address.
        destruct (dict_in ip (blocked_ips a0)); [|exact H].
        destruct o; exact H.
  - apply reachable_counters_consistent, Ra.
Qed.

(** A system with autonomous response after one cycle whose one
    network result fuses to 0.5. *)
Lemma detection_system_witness :
  system_counters
    (fst (fst (EnhancedSystem.run_detection_cycle
                 (fun _ => EnhancedSystem.mkEntryEnv (ret None) (ret None)
                             (seconds 60) true
                             (mkCallEnv (seconds 61) Ec2Returns)
                             (seconds 62) (fun _ => Ec2Returns))
                 (ret [mkNetworkResult (Some example_ip) (Some 0.5%Q)])
                 (ret [mkUserResult (Some example_ip) (Some 0.5%Q)])
                 (EnhancedSystem.mkSystem
                    (AlertSystem.mkAlertSystem AlertSystem.default_config [] [])
                    true (Some example_agent)
                    (EnhancedSystem.mkSystemStats 0 0 0))))).
Proof.
  apply detection_system_counters.
  apply EnhancedSystem.reachable_cycle.
  apply (EnhancedSystem.reachable_init AlertSystem.default_config 0
           "sg-test-only" true).
  reflexivity.
Defined.


(** X23: what the detection system does with one network result whose
    signals are read without an exception, the fused risk being
    [final].  An alert is created exactly when [final > 0.3], and then
    [threats_detected] grows by one; the alert carries the level of the
    fusion function, which is LOW up to a risk of 0.4, and names
    ["EC2_INSTANCE"] whatever the address of the result.  Below 0.4 the
    agent only logs, so [autonomous_actions] stays; from 0.4 to below
    0.8 a system with an agent counts one autonomous action. *)
Theorem detection_alert_threshold :
  forall env users net s ip nr ur nin pin,
    entry_signals users net = ret (ip, nr, ur) ->
    EnhancedSystem.network_in_call env = ret nin ->
    EnhancedSystem.packets_in_call env = ret pin ->
    let final := fst (combine_risks nr ur) in
    let level := snd (combine_risks nr ur) in
    exists s',
      EnhancedSystem.cycle_body env users net s = ret s' /\
      ((final <= 0.3)%Q ->
       EnhancedSystem.alert_system s' = EnhancedSystem.alert_system s /\
       EnhancedSystem.threats_detected (EnhancedSystem.stats s') =
         EnhancedSystem.threats_detected (EnhancedSystem.stats s)) /\
      ((0.3 < final)%Q ->
       AlertSystem.alert_history (EnhancedSystem.alert_system s') =
         AlertSystem.alert_history (EnhancedSystem.alert_system s) ++
         [AlertSystem.mkAlert (EnhancedSystem.alert_now env) level final nr ur
            (get_metric nin) (get_metric pin) "EC2_INSTANCE"] /\
       EnhancedSystem.threats_detected (EnhancedSystem.stats s') =
         EnhancedSystem.threats_detected (EnhancedSystem.stats s) + 1 /\
       ((final <= 0.4)%Q -> level = LOW)) /\
      ((final < 0.4)%Q ->
       EnhancedSystem.autonomous_actions (EnhancedSystem.stats s') =
         EnhancedSystem.autonomous_actions (EnhancedSystem.stats s)) /\
      ((0.4 <= final)%Q -> (final < 0.8)%Q ->
       EnhancedSystem.enable_autonomous_response s = true ->
       EnhancedSystem.response_agent s <> None ->
       EnhancedSystem.autonomous_actions (EnhancedSystem.stats s') =
         EnhancedSystem.autonomous_actions (EnhancedSystem.stats s) + 1).
Proof.
  intros env users net s ip nr ur nin pin S Nin Pin. cbv zeta.
  unfold EnhancedSystem.cycle_body.
  unfold entry_signals in S. unfold bind, ret in *.
  destruct (getitem "ip" (net_ip net)) as [e|ip']; [discriminate|].
  destruct (getitem "network_risk" (net_network_risk net)) as [e|nr']; [discriminate|].
  destruct (next_matching_user ip' users) as [e|mu]; [discriminate|].
  destruct (user_risk_of mu) as [e|ur']; [discriminate|].
  injection S as -> -> ->.
  rewrite Nin, Pin.
  pose proof (combine_risks_level nr ur) as Lv.
  destruct (combine_risks nr ur) as [final level]. cbn [fst snd] in *.
  eexists. split; [reflexivity|].
  set (s1 := if Qgtb final 0.3 then _ else s).
  assert (A1 : EnhancedSystem.autonomous_actions (EnhancedSystem.stats s1) =
               EnhancedSystem.autonomous_actions (EnhancedSystem.stats s) /\
               EnhancedSystem.enable_autonomous_response s1 =
               EnhancedSystem.enable_autonomous_response s /\
               EnhancedSystem.response_agent s1 = EnhancedSystem.response_agent s).
  { unfold s1. destruct (Qgtb final 0.3); repeat split. }
  destruct A1 as (A1 & E1 & G1).
  assert (K : forall s2 : EnhancedSystem.t,
            s2 = match EnhancedSystem.enable_autonomous_response s1,
                       EnhancedSystem.response_agent s1 with
                 | true, Some agent =>
                     let (agent0, action) :=
                       take_action (call_now (EnhancedSystem.action_env env))
                         (call_outcome (EnhancedSystem.action_env env)) ip final
                         nr ur agent in
                     EnhancedSystem.mkSystem (EnhancedSystem.alert_system s1)
                       (EnhancedSystem.enable_autonomous_response s1)
                       (Some (check_and_unblock_expired
                                (EnhancedSystem.expiry_now env)
                                (EnhancedSystem.expiry_revoke env) agent0))
                       (EnhancedSystem.mkSystemStats
                          (EnhancedSystem.total_cycles (EnhancedSystem.stats s1))
                          (EnhancedSystem.threats_detected (EnhancedSystem.stats s1))
                          (if EnhancedSystem.counted_action action
                           then EnhancedSystem.autonomous_actions
                                  (EnhancedSystem.stats s1) + 1
                           else EnhancedSystem.autonomous_actions
                                  (EnhancedSystem.stats s1)))
                 | _, _ => s1
                 end ->
            EnhancedSystem.alert_system s2 = EnhancedSystem.alert_system s1 /\
            EnhancedSystem.threats_detected (EnhancedSystem.stats s2) =
              EnhancedSystem.threats_detected (EnhancedSystem.stats s1)).
  { intros s2 ->.
    destruct (EnhancedSystem.enable_autonomous_response s1); [|split; reflexivity].
    destruct (EnhancedSystem.response_agent s1) as [agent|]; [|split; reflexivity].
    destruct (take_action _ _ _ _ _ _ agent). split; reflexivity. }
  match goal with |- context [?x = EnhancedSystem.alert_system s /\ _] =>
    match x with EnhancedSystem.alert_system ?s2 =>
      destruct (K s2 eq_refl) as [KA KT] end end.
  split; [|split; [|split]].
  - intro L. rewrite KA, KT. unfold s1.
    destruct (Qgtb final 0.3) eqn:G; [qorder; exfalso; lra|]. split; reflexivity.
  - intro L. rewrite KA, KT. unfold s1.
    destruct (Qgtb final 0.3) eqn:G; [|qorder; exfalso; lra].
    cbn [EnhancedSystem.alert_system EnhancedSystem.stats
         EnhancedSystem.threats_detected].
    split; [apply create_alert_always_recorded|]. split; [reflexivity|].
    intro L4. destruct Lv as (C & H & M & Lw). apply Lw. exact L4.
  - intro L. rewrite G1, E1.
    destruct (EnhancedSystem.enable_autonomous_response s); [|exact A1].
    destruct (EnhancedSystem.response_agent s) as [agent|]; [|exact A1].
    rewrite take_action_LOW by exact L. cbn. exact A1.
  - intros L4 L8 En Ag. rewrite G1, E1, En.
    destruct (EnhancedSystem.response_agent s) as [agent|]; [|contradiction].
    destruct (Qlt_le_dec final 0.6) as [L6|L6].
    + rewrite take_action_MEDIUM by assumption. cbn. rewrite A1. reflexivity.
    + rewrite take_action_HIGH by assumption. cbn. rewrite A1. reflexivity.
Qed.


(** A network risk of 0.5 with no behaviour result fuses to 0.34: a
    threat is counted and the agent takes no action. *)
Lemma detection_alert_threshold_witness :
  exists s',
    EnhancedSystem.cycle_body
      (EnhancedSystem.mkEntryEnv (ret None) (ret None) (seconds 60) true
         (mkCallEnv (seconds 61) Ec2Returns) (seconds 62) (fun _ => Ec2Returns))
      [] (mkNetworkResult (Some example_ip) (Some 0.5%Q))
      (EnhancedSystem.mkSystem
         (AlertSystem.mkAlertSystem AlertSystem.default_config [] [])
         true (Some example_agent) (EnhancedSystem.mkSystemStats 0 0 0)) =
    ret s' /\
    EnhancedSystem.threats_detected (EnhancedSystem.stats s') = 1 /\
    EnhancedSystem.autonomous_actions (EnhancedSystem.stats s') = 0.
Proof.
  destruct (detection_alert_threshold
              (EnhancedSystem.mkEntryEnv (ret None) (ret None) (seconds 60) true
                 (mkCallEnv (seconds 61) Ec2Returns) (seconds 62)
                 (fun _ => Ec2Returns))
              [] (mkNetworkResult (Some example_ip) (Some 0.5%Q))
              (EnhancedSystem.mkSystem
                 (AlertSystem.mkAlertSystem AlertSystem.default_config [] [])
                 true (Some example_agent) (EnhancedSystem.mkSystemStats 0 0 0))
              example_ip 0.5%Q 0.1%Q None None)
    as (s' & E & _ & T & A & _).
  - reflexivity.
  - reflexivity.
  - reflexivity.
  - exists s'. split; [exact E|]. split.
    + destruct T as (_ & T & _); [cbn; lra | exact T].
    + apply A. cbn. lra.
Defined.


(** ** The e-mails of one clock hour *)

Lemma hour_start_same now ts :
  AlertSystem.hour_start now <= ts -> ts <= now ->
  AlertSystem.hour_start ts = AlertSystem.hour_start now.
Proof.
  unfold AlertSystem.hour_start. intros L U.
  pose proof (Z.mod_pos_bound now 3600000000 eq_refl) as Bn.
  pose proof (Z.mod_pos_bound ts 3600000000 eq_refl) as Bt.
  pose proof (Z.div_mod now 3600000000) as Dn.
  pose proof (Z.div_mod ts 3600000000) as Dt.
  assert (ts / 3600000000 = now / 3600000000) by nia.
  nia.
Qed.

Lemma hour_start_monotone t t' :
  t <= t' -> AlertSystem.hour_start t <= AlertSystem.hour_start t'.
Proof.
  unfold AlertSystem.hour_start. intro L.
  pose proof (Z.div_le_mono t t' 3600000000 eq_refl L) as D.
  pose proof (Z.div_mod t 3600000000) as Dt.
  pose proof (Z.div_mod t' 3600000000) as Dt'.
  lia.
Qed.

(** What one [create_alert] does to the three fields of the alert
    system. *)
Lemma create_alert_call_effect s c :
  let alert :=
    AlertSystem.mkAlert (alert_call_now c) (alert_call_threat_level c)
      (alert_call_final_risk c) (alert_call_network_risk c)
      (alert_call_user_risk c) (alert_call_network_bytes c)
      (alert_call_network_packets c) "EC2_INSTANCE" in
  let s' := create_alert_call s c in
  AlertSystem.config s' = AlertSystem.config s /\
  AlertSystem.alert_history s' = AlertSystem.alert_history s ++ [alert] /\
  (AlertSystem.emails_sent s' = AlertSystem.emails_sent s \/
   AlertSystem.emails_sent s' = AlertSystem.emails_sent s ++ [alert] /\
   Qgeb (alert_call_final_risk c)
     (AlertSystem.email_threshold (AlertSystem.config s)) = true /\
   Z.of_nat (List.length
               (AlertSystem.recent_emails (alert_call_check_now c)
                  (AlertSystem.mkAlertSystem (AlertSystem.config s)
                     (AlertSystem.alert_history s ++ [alert])
                     (AlertSystem.emails_sent s)))) <
   AlertSystem.max_emails_per_hour (AlertSystem.config s)).
Proof.
  cbv zeta.
  unfold create_alert_call, AlertSystem.create_alert_at, AlertSystem.process_alert,
    AlertSystem.send_email_alert, AlertSystem.check_rate_limit.
  cbn [fst AlertSystem.config AlertSystem.alert_history AlertSystem.emails_sent
       AlertSystem.final_risk].
  destruct (Qgeb (alert_call_final_risk c) _) eqn:T; cbn [andb]; [|auto].
  destruct (AlertSystem.email_enabled (AlertSystem.config s)); [|auto].
  destruct (_ <? _) eqn:L; cbn [negb]; [|auto].
  destruct (alert_call_smtp_delivers c); [|auto].
  cbn. split; [reflexivity|]. split; [reflexivity|]. right.
  split; [reflexivity|]. split; [reflexivity|]. apply Z.ltb_lt, L.
Qed.

Lemma in_hour_app hour l l' : in_hour hour (l ++ l') = in_hour hour l ++ in_hour hour l'.
Proof. apply filter_app. Qed.

Lemma reaching_app threshold l l' :
  reaching threshold (l ++ l') = reaching threshold l ++ reaching threshold l'.
Proof. apply filter_app. Qed.

(** With no alert stamped after [now], the alerts the rate limiter
    counts are those of the clock hour of [now] that reach the
    threshold. *)
Lemma recent_emails_in_hour now s :
  (forall a, In a (AlertSystem.alert_history s) -> AlertSystem.timestamp a <= now) ->
  AlertSystem.recent_emails now s =
  in_hour (AlertSystem.hour_start now)
    (reaching (AlertSystem.email_threshold (AlertSystem.config s))
       (AlertSystem.alert_history s)).
Proof.
  unfold AlertSystem.recent_emails, in_hour, reaching. cbv zeta.
  generalize (AlertSystem.alert_history s) as l.
  induction l as [|a l IH]; intro H; cbn [filter]; [reflexivity|].
  rewrite IH by (intros b Hb; apply H; right; exact Hb).
  pose proof (H a (or_introl eq_refl)) as Ha.
  destruct (Qgeb (AlertSystem.final_risk a) _); cbn [filter];
    [|rewrite andb_false_r; reflexivity].
  rewrite andb_true_r.
  destruct (Z.geb_spec (AlertSystem.timestamp a) (AlertSystem.hour_start now)) as [G|G].
  - rewrite (hour_start_same now _ G Ha), Z.eqb_refl. reflexivity.
  - destruct (Z.eqb_spec (AlertSystem.hour_start (AlertSystem.timestamp a))
                (AlertSystem.hour_start now)) as [E|E]; [|reflexivity].
    pose proof (hour_start_bounds (AlertSystem.timestamp a)). lia.
Qed.

(** What a series of alerts keeps true when the clock never goes
    back: no alert is stamped after the last reading of the clock; in
    every clock hour the e-mails are no more than the alerts that reach
    the threshold and within the bound; in the clock hours from that of
    the last reading on they are fewer than the limit. *)
Lemma create_alerts_invariant (strict : bool) calls : forall since s,
  clock_monotone since calls ->
  (strict = true -> within_the_hour calls) ->
  (forall a, In a (AlertSystem.alert_history s) -> AlertSystem.timestamp a <= since) ->
  (forall hour,
     (List.length (in_hour hour (AlertSystem.emails_sent s)) <=
      List.length (in_hour hour
                     (reaching (AlertSystem.email_threshold (AlertSystem.config s))
                        (AlertSystem.alert_history s))))%nat /\
     Z.of_nat (List.length (in_hour hour (AlertSystem.emails_sent s))) <=
       emails_bound strict (AlertSystem.max_emails_per_hour (AlertSystem.config s)) /\
     (AlertSystem.hour_start since <= hour ->
      Z.of_nat (List.length (in_hour hour (AlertSystem.emails_sent s))) <=
        Z.max 0 (AlertSystem.max_emails_per_hour (AlertSystem.config s) - 1))) ->
  forall hour,
    Z.of_nat (List.length (in_hour hour (AlertSystem.emails_sent (create_alerts calls s)))) <=
      emails_bound strict (AlertSystem.max_emails_per_hour (AlertSystem.config s)).
Proof.
  induction calls as [|c calls IH]; intros since s M W Hts Hcount.
  - intro hour. apply Hcount.
  - destruct M as (M0 & M1 & M). cbn [create_alerts fold_left].
    fold (create_alerts calls (create_alert_call s c)).
    destruct (create_alert_call_effect s c) as (Ecfg & Ehist & Emails).
    cbv zeta in *.
    set (alert := AlertSystem.mkAlert _ _ _ _ _ _ _ _) in *.
    set (s1 := create_alert_call s c) in *.
    assert (Hts1 : forall a, In a (AlertSystem.alert_history s1) ->
                        AlertSystem.timestamp a <= alert_call_check_now c).
    { intros a Ha. rewrite Ehist in Ha. apply in_app_or in Ha.
      destruct Ha as [Ha|[<-|[]]]; [specialize (Hts a Ha); lia | cbn; lia]. }
    assert (W1 : strict = true -> within_the_hour calls).
    { intro E. specialize (W E). inversion W. assumption. }
    pose proof (hour_start_monotone _ _ M0) as Mono0.
    pose proof (hour_start_monotone _ _ M1) as Mono1.
    rewrite <- Ecfg.
    apply (IH (alert_call_check_now c) s1 M W1 Hts1).
    intro hour. rewrite Ecfg, Ehist, reaching_app, in_hour_app, length_app.
    destruct (Hcount hour) as (H1 & H2 & H3).
    destruct Emails as [->|(-> & T & L)].
    { split; [lia|]. split; [exact H2|]. intro X. apply H3. lia. }
    rewrite (recent_emails_in_hour (alert_call_check_now c)) in L
      by (cbn [AlertSystem.alert_history]; rewrite <- Ehist; exact Hts1).
    cbn [AlertSystem.config AlertSystem.alert_history] in L.
    rewrite reaching_app, in_hour_app, length_app in L.
    rewrite in_hour_app, length_app.
    assert (R1 : reaching (AlertSystem.email_threshold (AlertSystem.config s))
                   [alert] = [alert]).
    { unfold reaching. cbn [filter AlertSystem.final_risk alert].
      rewrite T. reflexivity. }
    rewrite R1 in *.
    assert (I1 : forall h, in_hour h [alert] =
                 if AlertSystem.hour_start (alert_call_now c) =? h
                 then [alert] else []) by reflexivity.
    rewrite I1 in L. rewrite !I1.
    assert (Pos : 1 <= AlertSystem.max_emails_per_hour (AlertSystem.config s))
      by lia.
    destruct (Z.eqb_spec (AlertSystem.hour_start (alert_call_now c)) hour) as [E|E].
    + (* the alert is stamped in this hour *)
      subst hour. cbn [List.length].
      destruct (Hcount (AlertSystem.hour_start (alert_call_now c)))
        as (_ & _ & D).
      specialize (D Mono0).
      destruct (Z.eqb_spec (AlertSystem.hour_start (alert_call_now c))
                  (AlertSystem.hour_start (alert_call_check_now c))) as [S|S].
      * rewrite <- S in L. cbn [List.length] in L.
        split; [lia|]. split; [|intro X; lia].
        unfold emails_bound. destruct strict; lia.
      * split; [lia|]. split; [|intro X; lia].
        unfold emails_bound. destruct strict; [|lia].
        exfalso. specialize (W eq_refl). inversion W. contradiction.
    + cbn [List.length]. rewrite !Nat.add_0_r.
      split; [exact H1|]. split; [exact H2|]. intro X. apply H3. lia.
Qed.

(** X24: the e-mails of one clock hour.  Over any series of
    [create_alert] calls on a fresh alert system whose clock never goes
    back, the e-mails handed to the SMTP server for alerts stamped in
    one clock hour number at most [max_emails_per_hour], and none when
    the limit is not positive.  They number at most
    [max_emails_per_hour - 1] when no call reads the clock on both
    sides of an hour tick: the limiter counts the alert being sent,
    which is already in the history, unless the hour has changed since
    it was stamped.  With a limit of two, an alert stamped and checked
    in the first minute and one stamped before the hour tick and
    checked after it are both mailed. *)
Theorem emails_per_hour_bound :
  (forall config since calls hour,
     clock_monotone since calls ->
     let s := create_alerts calls (AlertSystem.mkAlertSystem config [] []) in
     Z.of_nat (List.length (in_hour hour (AlertSystem.emails_sent s))) <=
       Z.max 0 (AlertSystem.max_emails_per_hour config) /\
     (within_the_hour calls ->
      Z.of_nat (List.length (in_hour hour (AlertSystem.emails_sent s))) <=
        Z.max 0 (AlertSystem.max_emails_per_hour config - 1))) /\
  List.length
    (in_hour 0
       (AlertSystem.emails_sent
          (create_alerts
             [mkAlertCall (seconds 60) (seconds 61) true HIGH 0.7 0.8 0.55 0 0;
              mkAlertCall (seconds 3599) (seconds 3601) true HIGH 0.7 0.8 0.55 0 0]
             (AlertSystem.mkAlertSystem (AlertSystem.mkConfig true 0.6 2) [] [])))) =
  2%nat.
Proof.
  split; [|reflexivity].
  intros config since calls hour M. cbv zeta.
  assert (Start : forall strict hour0,
            (List.length (in_hour hour0 (@nil AlertSystem.Alert)) <=
             List.length (in_hour hour0
                            (reaching (AlertSystem.email_threshold config) [])))%nat /\
            Z.of_nat (List.length (in_hour hour0 (@nil AlertSystem.Alert))) <=
              emails_bound strict (AlertSystem.max_emails_per_hour config) /\
            (AlertSystem.hour_start since <= hour0 ->
             Z.of_nat (List.length (in_hour hour0 (@nil AlertSystem.Alert))) <=
               Z.max 0 (AlertSystem.max_emails_per_hour config - 1))).
  { intros strict hour0. cbn. unfold emails_bound. destruct strict; lia. }
  split.
  - apply (create_alerts_invariant false calls since
             (AlertSystem.mkAlertSystem config [] []) M);
      [discriminate | intros a [] | intro h; apply (Start false h)].
  - intro W.
    apply (create_alerts_invariant true calls since
             (AlertSystem.mkAlertSystem config [] []) M);
      [intros _; exact W | intros a [] | intro h; apply (Start true h)].
Qed.

(** Three HIGH alerts within one hour with a limit of two. *)
Lemma emails_per_hour_witness :
  Z.of_nat
    (List.length
       (in_hour 0
          (AlertSystem.emails_sent
             (create_alerts
                [mkAlertCall (seconds 60) (seconds 61) true HIGH 0.7 0.8 0.55 0 0;
                 mkAlertCall (seconds 120) (seconds 121) true HIGH 0.7 0.8 0.55 0 0;
                 mkAlertCall (seconds 180) (seconds 181) true HIGH 0.7 0.8 0.55 0 0]
                (AlertSystem.mkAlertSystem (AlertSystem.mkConfig true 0.6 2) [] []))))) <=
  1.
Proof.
  apply (proj1 emails_per_hour_bound (AlertSystem.mkConfig true 0.6 2) 0
           [mkAlertCall (seconds 60) (seconds 61) true HIGH 0.7 0.8 0.55 0 0;
            mkAlertCall (seconds 120) (seconds 121) true HIGH 0.7 0.8 0.55 0 0;
            mkAlertCall (seconds 180) (seconds 181) true HIGH 0.7 0.8 0.55 0 0] 0).
  - cbn. unfold seconds. lia.
  - repeat constructor.
Defined.

(** ** Recent alerts *)

Lemma hour_of_day_bounds now : 0 <= hour_of_day now <= 23.
Proof.
  unfold hour_of_day.
  pose proof (Z.mod_pos_bound (now / 3600000000) 24 eq_refl). lia.
Qed.

(** X25: [get_recent_alerts(hours)] returns only when
    [hour - 23 <= hours <= hour], [hour] being the hour of the day; for
    every other argument the [replace] raises [ValueError].  With 24
    hours or more, the default included, it always raises.  When it
    returns, both clock readings falling in the same hour, it returns
    the alerts stamped at [now - hours] hours or later, a time of the
    same day. *)
Theorem get_recent_alerts_spec :
  forall now now' hours s,
    (get_recent_alerts now now' hours s <> None <->
     hour_of_day now' - 23 <= hours <= hour_of_day now') /\
    (24 <= hours -> get_recent_alerts now now' hours s = None) /\
    (hour_of_day now' = hour_of_day now ->
     hour_of_day now' - 23 <= hours <= hour_of_day now' ->
     get_recent_alerts now now' hours s =
       Some (filter (fun a => AlertSystem.timestamp a >=? now - hours * 3600000000)
               (AlertSystem.alert_history s)) /\
     now / 86400000000 = (now - hours * 3600000000) / 86400000000).
Proof.
  intros now now' hours s.
  pose proof (hour_of_day_bounds now') as B.
  unfold get_recent_alerts, replace_hour.
  split; [|split].
  - destruct (Z.leb_spec 0 (hour_of_day now' - hours)) as [L0|L0];
      destruct (Z.leb_spec (hour_of_day now' - hours) 23) as [L23|L23];
      cbn [andb]; split; intro X; try discriminate; try lia; contradiction.
  - intro X.
    destruct (Z.leb_spec 0 (hour_of_day now' - hours)); [lia|]. reflexivity.
  - intros E R.
    destruct (Z.leb_spec 0 (hour_of_day now' - hours)); [|lia].
    destruct (Z.leb_spec (hour_of_day now' - hours) 23); [|lia].
    cbn [andb]. split.
    + replace (now + (hour_of_day now' - hours - hour_of_day now) * 3600000000)
        with (now - hours * 3600000000) by (rewrite E; lia).
      reflexivity.
    + rewrite E in R. clear - R. unfold hour_of_day in R.
      pose proof (Z.div_mod (now / 3600000000) 24) as D.
      pose proof (Z.mod_pos_bound (now / 3600000000) 24 eq_refl) as M.
      pose proof (Z.div_mod now 3600000000) as D'.
      pose proof (Z.mod_pos_bound now 3600000000 eq_refl) as M'.
      set (h := now / 3600000000) in *. set (r := now mod 3600000000) in *.
      set (d := h / 24) in *. set (k := h mod 24) in *.
      assert (X : now / 86400000000 = d).
      { symmetry. apply (Z.div_unique now 86400000000 d (k * 3600000000 + r)); lia. }
      rewrite X.
      apply (Z.div_unique (now - hours * 3600000000) 86400000000 d
               ((k - hours) * 3600000000 + r)); lia.
Qed.

(** The default of 24 hours at half past nine. *)
Lemma get_recent_alerts_witness :
  get_recent_alerts (seconds 34200) (seconds 34200) 24
    (AlertSystem.mkAlertSystem AlertSystem.default_config [] []) = None.
Proof.
  apply (proj1 (proj2 (get_recent_alerts_spec (seconds 34200) (seconds 34200) 24
                         (AlertSystem.mkAlertSystem AlertSystem.default_config [] [])))).
  lia.
Defined.

(** ** The alerts file *)

Lemma last_n_all {A} n (l : list A) : (List.length l <= n)%nat -> last_n n l = l.
Proof.
  intro H. unfold last_n. replace (List.length l - n)%nat with 0%nat by lia.
  reflexivity.
Qed.

Lemma last_n_length {A} n (l : list A) :
  List.length (last_n n l) = Nat.min n (List.length l).
Proof. unfold last_n. rewrite length_skipn. lia. Qed.

(** Keeping the last [n] after each append keeps the last [n] of the
    whole. *)
Lemma last_n_append {A} n (l : list A) x :
  (0 < n)%nat -> last_n n (last_n n l ++ [x]) = last_n n (l ++ [x]).
Proof.
  intro Hn. destruct (Nat.le_gt_cases (List.length l) n) as [L|L].
  - rewrite (last_n_all n l L). reflexivity.
  - unfold last_n at 1 3.
    rewrite !length_app, last_n_length. cbn [List.length].
    replace (Nat.min n (List.length l) + 1 - n)%nat with 1%nat by lia.
    rewrite !skipn_app, last_n_length.
    replace (1 - Nat.min n (List.length l))%nat with 0%nat by lia.
    replace (List.length l + 1 - n - List.length l)%nat with 0%nat by lia.
    change (skipn 0 [x]) with [x]. f_equal.
    unfold last_n. rewrite skipn_skipn. f_equal. lia.
Qed.

Lemma save_alert_to_file_last_n alert alerts :
  save_alert_to_file alert (file_alerts alerts) =
  file_alerts (last_n 1000 (alerts ++ [alert])).
Proof.
  unfold save_alert_to_file.
  destruct (Nat.ltb_spec 1000 (List.length (alerts ++ [alert]))) as [L|L];
    [reflexivity|].
  rewrite last_n_all by exact L. reflexivity.
Qed.

Lemma last_n_snoc {A} n (l : list A) x :
  last_n (S n) (l ++ [x]) = last_n n l ++ [x].
Proof.
  unfold last_n. rewrite length_app. cbn [List.length].
  replace (List.length l + 1 - S n)%nat with (List.length l - n)%nat by lia.
  rewrite skipn_app.
  replace (List.length l - n - List.length l)%nat with 0%nat by lia.
  reflexivity.
Qed.

(** X26: the alerts file.  A file that is absent or not readable is
    replaced by one holding the new alert alone; a file holding alerts
    keeps its last 999 and gets the new alert at its end.  After a
    series of saves that began without a file, the file holds the last
    1000 alerts of the series, in order, and all of them when they are
    1000 or fewer. *)
Theorem save_alert_to_file_spec :
  (forall alert,
     save_alert_to_file alert file_absent = file_alerts [alert] /\
     save_alert_to_file alert file_unreadable = file_alerts [alert]) /\
  (forall alert alerts,
     save_alert_to_file alert (file_alerts alerts) =
     file_alerts (last_n 999 alerts ++ [alert])) /\
  (forall alert alerts,
     fold_left (fun file a => save_alert_to_file a file) (alert :: alerts) file_absent =
     file_alerts (last_n 1000 (alert :: alerts))) /\
  (forall alert alerts,
     (List.length (alert :: alerts) <= 1000)%nat ->
     fold_left (fun file a => save_alert_to_file a file) (alert :: alerts) file_absent =
     file_alerts (alert :: alerts)).
Proof.
  assert (Series : forall alerts saved,
            fold_left (fun file a => save_alert_to_file a file) alerts
              (file_alerts (last_n 1000 saved)) =
            file_alerts (last_n 1000 (saved ++ alerts))).
  { induction alerts as [|a alerts IH]; intro saved; cbn [fold_left].
    - rewrite app_nil_r. reflexivity.
    - rewrite save_alert_to_file_last_n, last_n_append by lia.
      rewrite IH, <- app_assoc. reflexivity. }
  assert (All : forall alert alerts,
            fold_left (fun file a => save_alert_to_file a file) (alert :: alerts)
              file_absent =
            file_alerts (last_n 1000 (alert :: alerts))).
  { intros alert alerts. cbn [fold_left].
    change (save_alert_to_file alert file_absent)
      with (file_alerts (last_n 1000 [alert])).
    apply (Series alerts [alert]). }
  split; [|split; [|split]].
  - intro alert. split; reflexivity.
  - intros alert alerts. rewrite save_alert_to_file_last_n. f_equal.
    apply last_n_snoc.
  - exact All.
  - intros alert alerts L. rewrite All, last_n_all by exact L. reflexivity.
Qed.

(** Two saves on a missing file. *)
Lemma save_alert_to_file_witness :
  fold_left (fun file a => save_alert_to_file a file)
    [AlertSystem.mkAlert 0 HIGH 0.7 0.8 0.55 0 0 "EC2_INSTANCE";
     AlertSystem.mkAlert 1 LOW 0.2 0.1 0.3 0 0 "EC2_INSTANCE"] file_absent =
  file_alerts
    [AlertSystem.mkAlert 0 HIGH 0.7 0.8 0.55 0 0 "EC2_INSTANCE";
     AlertSystem.mkAlert 1 LOW 0.2 0.1 0.3 0 0 "EC2_INSTANCE"].
Proof.
  apply (proj2 (proj2 (proj2 save_alert_to_file_spec))). cbn. lia.
Defined.


(** ** The dashboard *)

Lemma deque_append_length {A} n (x : A) d :
  List.length (Dashboard.deque_append n x d) = Nat.min n (List.length d + 1).
Proof. unfold Dashboard.deque_append. rewrite last_n_length, length_app. reflexivity. Qed.

Lemma last_n_In {A} n (l : list A) x : In x (last_n n l) -> In x l.
Proof.
  unfold last_n. intro H.
  rewrite <- (firstn_skipn (List.length l - n) l). apply in_or_app. right. exact H.
Qed.

Lemma deque_append_In {A} n (x y : A) d :
  In y (Dashboard.deque_append n x d) -> In y d \/ y = x.
Proof.
  intro H. apply last_n_In, in_app_or in H.
  destruct H as [H|[H|[]]]; auto.
Qed.

(** Runs the writes done so far on a dashboard given by its fields,
    each write on the result of the one before. *)
Ltac dashboard_writes :=
  cbn [app firstn]; rewrite ?firstn_nil;
  cbv beta iota zeta delta
    [Dashboard.run_writes fold_left
     Dashboard.append_timestamp Dashboard.append_network_in
     Dashboard.append_packets_in Dashboard.append_network_risk
     Dashboard.append_user_risk Dashboard.append_final_risk
     Dashboard.append_threat_level Dashboard.count_detection
     Dashboard.count_level Dashboard.append_alert Dashboard.hand_to_email
     Dashboard.data Dashboard.stats Dashboard.email_alerts
     Dashboard.timestamps Dashboard.network_in Dashboard.packets_in
     Dashboard.network_risks Dashboard.user_risks Dashboard.final_risks
     Dashboard.threat_levels Dashboard.alerts
     Dashboard.total_detections Dashboard.critical_alerts
     Dashboard.high_alerts Dashboard.medium_alerts Dashboard.low_alerts];
  rewrite ?deque_append_length.

(** Settles what is said of the alerts and the e-mails of a state from
    that of the state before and the alert written. *)
Ltac dashboard_alerts :=
  intros;
  try match goal with
  | H : In _ (Dashboard.deque_append _ _ _) |- _ =>
      apply deque_append_In in H; destruct H as [H| ->]; cbn
  | H : In _ (_ ++ [_]) |- _ =>
      apply in_app_or in H; destruct H as [H|[<-|[]]]; cbn
  end;
  first [ solve [auto] | discriminate ].

(** A well-formed dashboard, field by field. *)
Lemma dashboard_wf_fields ts ni pk nrs urs frs tls als t c h m l em :
  dashboard_wf
    (Dashboard.mkDashboard (Dashboard.mkData ts ni pk nrs urs frs tls als)
       (Dashboard.mkStats t c h m l) em) ->
  (t = c + h + m + l /\ 0 <= t /\
   Z.of_nat (List.length ts) = Z.min 100 t /\
   List.length ni = List.length ts /\ List.length pk = List.length ts /\
   List.length nrs = List.length ts /\ List.length urs = List.length ts /\
   List.length frs = List.length ts /\ List.length tls = List.length ts /\
   (List.length als <= 50)%nat) /\
  (forall a, In a als -> Dashboard.level a <> LOW) /\
  (forall a, In a als -> (0.4 < Dashboard.final_risk a)%Q) /\
  (forall a, In a em -> Dashboard.level a = HIGH \/ Dashboard.level a = CRITICAL).
Proof.
  unfold dashboard_wf. cbn.
  intros (W1 & W0 & W2 & W3 & W4 & W5 & W6 & W7 & W8 & W9 & W10 & W11).
  repeat split; try assumption; intros a Ha; apply W10, Ha.
Qed.

(** The state after any number of the writes of an iteration. *)
Lemma entry_prefix_observed env nr ur done s :
  dashboard_wf s ->
  dashboard_observed
    (Dashboard.run_writes
       (firstn done
          (Dashboard.entry_writes env nr ur (fst (combine_risks nr ur))
             (snd (combine_risks nr ur)))) s).
Proof.
  intro W.
  pose proof (combine_risks_level nr ur) as Lv. cbv zeta in Lv.
  destruct Lv as (_ & _ & _ & LL).
  set (final := fst (combine_risks nr ur)) in *.
  set (lvl := snd (combine_risks nr ur)) in *.
  destruct s as [[ts ni pk nrs urs frs tls als] [t c h m l] em].
  apply dashboard_wf_fields in W.
  destruct W as ((W1 & W0 & W2 & W3 & W4 & W5 & W6 & W7 & W8 & W9) & A10 & B10 & W11).
  unfold Dashboard.entry_writes, Dashboard.create_alert_writes. cbv zeta.
  destruct (Qgtb final 0.4) eqn:G.
  - apply Qgtb_true in G.
    assert (NL : lvl <> LOW) by (intro X; apply LL in X; lra).
    clear LL.
    destruct lvl; [contradiction| | |];
      do 11 (destruct done as [|done];
             [unfold dashboard_observed; dashboard_writes;
              repeat split; try lia; dashboard_alerts|]);
      unfold dashboard_observed; dashboard_writes;
      repeat split; try lia; dashboard_alerts.
  - clear LL G.
    destruct lvl;
      do 9 (destruct done as [|done];
            [unfold dashboard_observed; dashboard_writes;
             repeat split; try lia; dashboard_alerts|]);
      unfold dashboard_observed; dashboard_writes;
      repeat split; try lia; dashboard_alerts.
Qed.

(** The state after all the writes of an iteration. *)
Lemma entry_writes_wf env nr ur s :
  dashboard_wf s ->
  dashboard_wf
    (Dashboard.run_writes
       (Dashboard.entry_writes env nr ur (fst (combine_risks nr ur))
          (snd (combine_risks nr ur))) s).
Proof.
  intro W.
  pose proof (combine_risks_level nr ur) as Lv. cbv zeta in Lv.
  destruct Lv as (_ & _ & _ & LL).
  set (final := fst (combine_risks nr ur)) in *.
  set (lvl := snd (combine_risks nr ur)) in *.
  destruct s as [[ts ni pk nrs urs frs tls als] [t c h m l] em].
  apply dashboard_wf_fields in W.
  destruct W as ((W1 & W0 & W2 & W3 & W4 & W5 & W6 & W7 & W8 & W9) & A10 & B10 & W11).
  unfold Dashboard.entry_writes, Dashboard.create_alert_writes. cbv zeta.
  destruct (Qgtb final 0.4) eqn:G.
  - apply Qgtb_true in G.
    assert (NL : lvl <> LOW) by (intro X; apply LL in X; lra).
    clear LL.
    destruct lvl; [contradiction| | |];
      unfold dashboard_wf; dashboard_writes;
      repeat split; try lia; dashboard_alerts.
  - clear LL G.
    destruct lvl;
      unfold dashboard_wf; dashboard_writes;
      repeat split; try lia; dashboard_alerts.
Qed.

Lemma monitor_body_wf env users net s s' :
  Dashboard.monitor_body env users net s = inr s' ->
  dashboard_wf s -> dashboard_wf s'.
Proof.
  unfold Dashboard.monitor_body, bind, ret.
  destruct (getitem "network_risk" (net_network_risk net)) as [e|nr]; [discriminate|].
  destruct (Dashboard.next_matching_user net users) as [e|mu]; [discriminate|].
  destruct (user_risk_of mu) as [e|ur]; [discriminate|].
  pose proof (entry_writes_wf env nr ur s) as K.
  destruct (combine_risks nr ur) as [final lvl]. cbn [fst snd] in K.
  intros E W.
  apply (f_equal (fun r => match r with inr x => x | inl _ => s end)) in E.
  cbv beta iota in E. subst s'. apply K, W.
Qed.

Lemma monitor_loop_wf env i users nets s :
  dashboard_wf s -> dashboard_wf (fst (Dashboard.monitor_loop env i users nets s)).
Proof.
  revert i s. induction nets as [|net nets IH]; intros i s H; cbn; [exact H|].
  destruct (Dashboard.monitor_body (env i) users net s) as [e|s1] eqn:E;
    [exact H|].
  apply IH, (monitor_body_wf _ _ _ _ _ E H).
Qed.

Lemma dashboard_reachable_wf s : Dashboard.reachable s -> dashboard_wf s.
Proof.
  intro R. induction R as [|env ids ueba s R IH].
  - unfold dashboard_wf. cbn. repeat split; try lia; intros a [].
  - unfold Dashboard.monitor_turn.
    destruct ids as [e|nets]; [exact IH|].
    destruct ueba as [e|users]; [exact IH|].
    apply monitor_loop_wf, IH.
Qed.

(** X27: what the dashboard keeps true, whatever the engines and
    CloudWatch answer.  Between two iterations of the monitoring loop
    the four level counters add up to [total_detections] and the seven
    series have one length, [total_detections] up to 100.  In every
    state the dashboard goes through, after any number of the writes
    of an iteration under way, the counters and the lengths differ by
    at most one: [total_detections] is the sum of the level counters
    or one more, no series is longer than one written before it and
    the first is at most one longer than the last.  In all these states
    at most 50 alerts are kept, none of level LOW and each with a risk
    above 0.4, and e-mail is asked for HIGH and CRITICAL alerts only.
    An iteration that returns is a list of single writes, the state
    after it is again one between two iterations, and every state
    between two of its writes is among those covered. *)
Theorem dashboard_invariant :
  (forall s, Dashboard.reachable s -> dashboard_wf s) /\
  (forall s, Dashboard.observable s -> dashboard_observed s) /\
  (forall env users net s s',
     Dashboard.reachable s ->
     Dashboard.monitor_body env users net s = inr s' ->
     Dashboard.reachable s' /\
     exists network_risk user_risk,
       s' = Dashboard.run_writes
              (Dashboard.entry_writes env network_risk user_risk
                 (fst (combine_risks network_risk user_risk))
                 (snd (combine_risks network_risk user_risk))) s /\
       forall done,
         Dashboard.observable
           (Dashboard.run_writes
              (firstn done
                 (Dashboard.entry_writes env network_risk user_risk
                    (fst (combine_risks network_risk user_risk))
                    (snd (combine_risks network_risk user_risk)))) s)).
Proof.
  split; [exact dashboard_reachable_wf|]. split.
  - intros s O. destruct O as [s R|env nr ur done s R].
    + apply (entry_prefix_observed
               (Dashboard.mkEntryEnv 0 (inr None) (inr None)) 0 0 0 s).
      apply dashboard_reachable_wf, R.
    + apply entry_prefix_observed, dashboard_reachable_wf, R.
  - intros env users net s s' R E. split.
    { pose proof (Dashboard.reachable_turn (fun _ => env) (ret [net]) (ret users)
                    s R) as T.
      unfold Dashboard.monitor_turn, ret in T. cbn [Dashboard.monitor_loop] in T.
      rewrite E in T. exact T. }
    revert E. unfold Dashboard.monitor_body, bind, ret.
    destruct (getitem "network_risk" (net_network_risk net)) as [e|nr];
      [discriminate|].
    destruct (Dashboard.next_matching_user net users) as [e|mu]; [discriminate|].
    destruct (user_risk_of mu) as [e|ur]; [discriminate|].
    intro E. exists nr, ur.
    destruct (combine_risks nr ur) as [final lvl] eqn:C. cbn [fst snd].
    apply (f_equal (fun r => match r with inr x => x | inl _ => s end)) in E.
    cbv beta iota in E. split; [symmetry; exact E|].
    intro done.
    pose proof (Dashboard.observable_within env nr ur done s R) as O.
    rewrite C in O. exact O.
Qed.

(** The dashboard after a traffic spike: at the end of the turn, and
    after the first three writes of its iteration. *)
Lemma dashboard_invariant_witness :
  dashboard_wf
    (fst (Dashboard.monitor_turn
            (fun _ => Dashboard.mkEntryEnv (seconds 60) (ret None) (ret None))
            (ret [mkNetworkResult (Some "EC2_INSTANCE"%string) (Some 0.95%Q)])
            (ret []) Dashboard.setup_data_storage)) /\
  dashboard_observed
    (Dashboard.run_writes
       (firstn 3
          (Dashboard.entry_writes
             (Dashboard.mkEntryEnv (seconds 60) (ret None) (ret None))
             0.95 0.1 (fst (combine_risks 0.95 0.1))
             (snd (combine_risks 0.95 0.1))))
       Dashboard.setup_data_storage).
Proof.
  split.
  - apply (proj1 dashboard_invariant).
    apply Dashboard.reachable_turn, Dashboard.reachable_init.
  - apply (proj1 (proj2 dashboard_invariant)).
    apply Dashboard.observable_within, Dashboard.reachable_init.
Defined.

(** X28: the alert count of the dashboard compares the [seconds] field
    of the alert's age, which leaves out whole days: an alert counts as
    recent exactly when its age is less than one hour past a whole
    number of days.  An alert less than an hour old counts, one between
    one hour and a day old does not, and one between 24 and 25 hours
    old counts again. *)
Theorem recent_alert_window :
  forall now a,
    let age := now - Dashboard.timestamp a in
    (Dashboard.recent now a = true <-> age mod 86400000000 < 3600000000) /\
    (0 <= age < 3600000000 -> Dashboard.recent now a = true) /\
    (3600000000 <= age < 86400000000 -> Dashboard.recent now a = false) /\
    (86400000000 <= age < 90000000000 -> Dashboard.recent now a = true).
Proof.
  intros now a. cbv zeta.
  unfold Dashboard.recent, Dashboard.timedelta_seconds.
  set (age := now - Dashboard.timestamp a).
  assert (E : (age / 1000000) mod 86400 = (age mod 86400000000) / 1000000).
  { pose proof (Z.div_mod age 86400000000 ltac:(lia)) as D.
    pose proof (Z.mod_pos_bound age 86400000000 eq_refl) as M.
    set (d := age / 86400000000) in *. set (r := age mod 86400000000) in *.
    pose proof (Z.div_mod r 1000000 ltac:(lia)) as D'.
    pose proof (Z.mod_pos_bound r 1000000 eq_refl) as M'.
    set (q := r / 1000000) in *. set (m := r mod 1000000) in *.
    assert (Q0 : 0 <= q < 86400) by lia.
    assert (X : age / 1000000 = d * 86400 + q).
    { symmetry. apply (Z.div_unique age 1000000 (d * 86400 + q) m); lia. }
    rewrite X. symmetry. apply (Z.mod_unique (d * 86400 + q) 86400 d q); lia. }
  rewrite E.
  assert (I : ((age mod 86400000000) / 1000000 <? 3600) = true <->
              age mod 86400000000 < 3600000000).
  { rewrite Z.ltb_lt.
    pose proof (Z.div_mod (age mod 86400000000) 1000000 ltac:(lia)) as D.
    pose proof (Z.mod_pos_bound (age mod 86400000000) 1000000 eq_refl) as M.
    lia. }
  split; [exact I|].
  split; [|split].
  - intro H. apply I. rewrite Z.mod_small; lia.
  - intro H.
    destruct (Z.ltb_spec (age mod 86400000000 / 1000000) 3600) as [X|X];
      [|reflexivity].
    pose proof (proj1 I eq_refl) as Y. rewrite Z.mod_small in Y; lia.
  - intro H. apply I.
    rewrite <- (Z.mod_unique age 86400000000 1 (age - 86400000000)); lia.
Qed.

(** An alert stamped at time 0, seen a day and ten minutes later. *)
Lemma recent_alert_witness :
  Dashboard.recent (seconds 87000) (Dashboard.mkAlert 0 HIGH 0.7 0.8 0.55) = true.
Proof.
  apply (proj2 (proj2 (proj2 (recent_alert_window (seconds 87000)
                                (Dashboard.mkAlert 0 HIGH 0.7 0.8 0.55))))).
  cbn. lia.
Defined.
